(** * MonitorWazeStateData: change-gated recursive crawl

  A shallow embedding of [monitorWazeStateData.py] and the properties of
  its update gate, timestamp archive, link extraction and URL joining.

  Python strings are modelled as [string] whose characters are code points
  below 256.  Functions that can raise return a [result]; functions that
  touch the network, the file system or start processes thread a [World]. *)

From Stdlib Require Import String Ascii List NArith ZArith Bool Lia.
Import ListNotations.
Local Open Scope string_scope.

(** ** Python runtime: exceptions and results *)

Inductive exn : Type :=
| SystemExit
| ValueError (msg : string)
| NameError (name : string).

(** [OutOfFuel] is not a Python outcome: it marks a traversal that was cut
  by the recursion bound of the model. *)
Inductive result (A : Type) : Type :=
| Ok (a : A)
| Raise (e : exn)
| OutOfFuel.

Arguments Ok {A} a.
Arguments Raise {A} e.
Arguments OutOfFuel {A}.

Definition rbind {A B : Type} (r : result A) (k : A -> result B) : result B :=
match r with
| Ok a => k a
| Raise e => Raise e
| OutOfFuel => OutOfFuel
end.

Declare Scope result_scope.
Delimit Scope result_scope with result.
Notation "x <- r ;; k" := (rbind r (fun x => k))
(at level 61, r at next level, right associativity) : result_scope.

(** ** Python strings *)

Module PyStr.

Definition newline : ascii := ascii_of_nat 10.
Definition dquote : ascii := ascii_of_nat 34.
Definition slash : ascii := ascii_of_nat 47.

Definition str1 (c : ascii) : string := String c "".

Fixpoint take (n : nat) (s : string) : string :=
  match n, s with
  | S n', String c s' => String c (take n' s')
  | _, _ => ""
  end.

Fixpoint drop (n : nat) (s : string) : string :=
  match n, s with
  | S n', String _ s' => drop n' s'
  | _, _ => s
  end.

Definition len (s : string) : Z := Z.of_nat (String.length s).

(** [s[:i]], with Python's treatment of a negative or too large bound. *)
Definition slice_to (s : string) (i : Z) : string :=
  let n := len s in
  let j := if (i <? 0)%Z then Z.max 0 (n + i) else Z.min i n in
  take (Z.to_nat j) s.

Definition startswith (s pre : string) : bool := String.prefix pre s.

Definition endswith (s suf : string) : bool :=
  let n := String.length s in
  let m := String.length suf in
  (m <=? n)%nat && String.eqb (drop (n - m) s) suf.

(** [s.replace(old, new)] for a one-character [old]. *)
Fixpoint replace (old : ascii) (new : string) (s : string) : string :=
  match s with
  | "" => ""
  | String c s' =>
      if Ascii.eqb c old then new ++ replace old new s'
      else String c (replace old new s')
  end.

(** [s.split(sep)] for a one-character [sep]. *)
Fixpoint split (sep : ascii) (s : string) : list string :=
  match s with
  | "" => [""]
  | String c s' =>
      if Ascii.eqb c sep then "" :: split sep s'
      else match split sep s' with
           | [] => [str1 c]
           | t :: ts => String c t :: ts
           end
  end.

Definition join (sep : string) (l : list string) : string :=
  String.concat sep l.

Fixpoint contains (c : ascii) (s : string) : bool :=
  match s with
  | "" => false
  | String d s' => Ascii.eqb d c || contains c s'
  end.

(** [s.split(sep, 1)] when [sep] occurs in [s]: the text before the first
    [sep] and the text after it. *)
Fixpoint partition (sep : ascii) (s : string) : string * string :=
  match s with
  | "" => ("", "")
  | String c s' =>
      if Ascii.eqb c sep then ("", s')
      else let (a, b) := partition sep s' in (String c a, b)
  end.

Fixpoint all_chars (p : ascii -> bool) (s : string) : bool :=
  match s with
  | "" => true
  | String c s' => p c && all_chars p s'
  end.

Fixpoint lower (s : string) : string :=
  match s with
  | "" => ""
  | String c s' =>
      let n := nat_of_ascii c in
      String (if (65 <=? n)%nat && (n <=? 90)%nat
              then ascii_of_nat (n + 32) else c) (lower s')
  end.

End PyStr.

(** ** The regular expressions of the program

  Each pattern the program uses is a literal prefix, runs of [\s], and one
  lazy [.+?] or [.*?] closed by a literal, so matching at a position is
  deterministic: a greedy [\s*] is followed by a non-space character, and
  the lazy run stops at the first occurrence of its closing literal. *)

Module Re.
Import PyStr.

(** [\s] on a [str] pattern, for code points below 256. *)
Definition is_space (c : ascii) : bool :=
  let n := nat_of_ascii c in
  ((9 <=? n) && (n <=? 13) || (28 <=? n) && (n <=? 32)
   || (n =? 133) || (n =? 160))%nat.

Fixpoint skip_spaces (s : string) : string :=
  match s with
  | String c s' => if is_space c then skip_spaces s' else s
  | "" => ""
  end.

(** [.*?lit] at the end of a pattern: the captured run and the text left
    after [lit].  [.] does not match a newline. *)
Fixpoint lazy_star (lit : string) (s : string) : option (string * string) :=
  if String.prefix lit s then Some ("", drop (String.length lit) s)
  else match s with
       | "" => None
       | String c s' =>
           if Ascii.eqb c newline then None
           else match lazy_star lit s' with
                | Some (cap, rest) => Some (String c cap, rest)
                | None => None
                end
       end.

(** [.+?lit] at the end of a pattern. *)
Definition lazy_plus (lit : string) (s : string) : option (string * string) :=
  match s with
  | "" => None
  | String c s' =>
      if Ascii.eqb c newline then None
      else match lazy_star lit s' with
           | Some (cap, rest) => Some (String c cap, rest)
           | None => None
           end
  end.

(** [re.search]: the match at the leftmost position that has one. *)
Fixpoint search {A : Type} (m : string -> option A) (s : string) : option A :=
  match m s with
  | Some a => Some a
  | None => match s with
            | "" => None
            | String _ s' => search m s'
            end
  end.

(** [re.findall] for a pattern without groups that matches no empty
    text: the matched texts, left to right, without overlap.  [skip]
    counts the characters of the last match still to step over. *)
Fixpoint findall_from (m : string -> option string) (skip : nat) (s : string)
  : list string :=
  match s with
  | "" => []
  | String _ s' =>
      match skip with
      | S k => findall_from m k s'
      | O => match m s with
             | Some t => t :: findall_from m (String.length t - 1) s'
             | None => findall_from m 0 s'
             end
      end
  end.

Definition findall (m : string -> option string) (s : string) : list string :=
  findall_from m 0 s.

(** [href\s*=\s*"(.+?)"], group 1. *)
Definition href_at (s : string) : option string :=
  if String.prefix "href" s then
    match skip_spaces (drop 4 s) with
    | String "=" r1 =>
        match skip_spaces r1 with
        | String q r2 =>
            if Ascii.eqb q dquote
            then option_map fst (lazy_plus (str1 dquote) r2)
            else None
        | "" => None
        end
    | _ => None
    end
  else None.

(** [<a\s+href.*?<\/a>], the whole match. *)
Definition anchor_at (s : string) : option string :=
  if String.prefix "<a" s then
    match drop 2 s with
    | String c r =>
        if is_space c then
          let r1 := skip_spaces r in
          if String.prefix "href" r1 then
            match lazy_star "</a>" (drop 4 r1) with
            | Some (_, rest) =>
                Some (take (String.length s - String.length rest) s)
            | None => None
            end
          else None
        else None
    | "" => None
    end
  else None.

(** [Generated: (.+?) UTC], group 1. *)
Definition generated_at (s : string) : option string :=
  if String.prefix "Generated: " s
  then option_map fst (lazy_plus " UTC" (drop 11 s))
  else None.

(** [href\s*=\s*"managedareas.csv"]: is there a match at this position? *)
Definition managedareas_at (s : string) : option unit :=
  if String.prefix "href" s then
    match skip_spaces (drop 4 s) with
    | String "=" r1 =>
        match skip_spaces r1 with
        | String q r2 =>
            if Ascii.eqb q dquote && String.prefix "managedareas" r2 then
              match drop 12 r2 with
              | String c r3 =>
                  if negb (Ascii.eqb c newline)
                     && String.prefix ("csv" ++ str1 dquote) r3
                  then Some tt else None
              | "" => None
              end
            else None
        | "" => None
        end
    | _ => None
    end
  else None.

End Re.

(** ** Dates and times

    [datetime.datetime] values as the program meets them: the seven calendar
    fields and an optional time zone.  The program only ever compares values
    that [pytz.utc.localize] has stamped, so two compared values carry the
    same zone and Python's ordering is the lexicographic order of the
    fields. *)

Module Dt.
Import PyStr.
Local Open Scope N_scope.

Inductive tz : Type :=
| pytz_utc
| dateutil_tzutc.

Record datetime : Type := mkdatetime {
  year : N;
  month : N;
  day : N;
  hour : N;
  minute : N;
  second : N;
  microsecond : N;
  tzinfo : option tz
}.

Definition fields (t : datetime) : list N :=
  [year t; month t; day t; hour t; minute t; second t; microsecond t].

Fixpoint lex_compare (l1 l2 : list N) : comparison :=
  match l1, l2 with
  | [], [] => Eq
  | [], _ :: _ => Lt
  | _ :: _, [] => Gt
  | a :: l1', b :: l2' =>
      match N.compare a b with
      | Eq => lex_compare l1' l2'
      | c => c
      end
  end.

Definition compare (a b : datetime) : comparison :=
  lex_compare (fields a) (fields b).

(** [a <= b] *)
Definition leb (a b : datetime) : bool :=
  match compare a b with Gt => false | _ => true end.

(** [a > b] *)
Definition gtb (a b : datetime) : bool :=
  match compare a b with Gt => true | _ => false end.

(** [max(l)] on a non-empty list: the first of the greatest elements. *)
Definition py_max (x : datetime) (xs : list datetime) : datetime :=
  fold_left (fun m y => if gtb y m then y else m) xs x.

Definition is_leap (y : N) : bool :=
  ((y mod 4 =? 0) && negb (y mod 100 =? 0)) || (y mod 400 =? 0).

Definition days_in_month (y m : N) : N :=
  if m =? 2 then (if is_leap y then 29 else 28)
  else if (m =? 4) || (m =? 6) || (m =? 9) || (m =? 11) then 30
  else 31.

(** The field ranges the [datetime] constructor enforces. *)
Definition valid (t : datetime) : bool :=
  (1 <=? year t) && (year t <=? 9999)
  && (1 <=? month t) && (month t <=? 12)
  && (1 <=? day t) && (day t <=? days_in_month (year t) (month t))
  && (hour t <? 24) && (minute t <? 60) && (second t <? 60)
  && (microsecond t <? 1000000).

(** *** Formatting: [strftime] *)

Definition digit (d : N) : ascii := ascii_of_N (48 + d).

Fixpoint decimal_aux (fuel : nat) (n : N) (acc : string) : string :=
  match fuel with
  | O => acc
  | S f =>
      let acc' := String (digit (n mod 10)) acc in
      if n / 10 =? 0 then acc' else decimal_aux f (n / 10) acc'
  end.

Definition decimal (n : N) : string :=
  decimal_aux (S (N.to_nat (N.log2 n))) n "".

Definition pad2 (n : N) : string :=
  if n <? 10 then String "0" (decimal n) else decimal n.

(** The conversions the program's format strings use.  [%Y] is the year in
    decimal as the C library prints it; the other five are padded to two
    digits. *)
Definition directive (d : ascii) (t : datetime) : string :=
  if Ascii.eqb d "Y" then decimal (year t)
  else if Ascii.eqb d "m" then pad2 (month t)
  else if Ascii.eqb d "d" then pad2 (day t)
  else if Ascii.eqb d "H" then pad2 (hour t)
  else if Ascii.eqb d "M" then pad2 (minute t)
  else if Ascii.eqb d "S" then pad2 (second t)
  else String "%" (str1 d).

Fixpoint strftime (fmt : string) (t : datetime) : string :=
  match fmt with
  | "" => ""
  | String c rest =>
      if Ascii.eqb c "%" then
        match rest with
        | String d rest' => directive d t ++ strftime rest' t
        | "" => "%"
        end
      else String c (strftime rest t)
  end.

Definition is_digit_char (c : ascii) : bool :=
  let n := N_of_ascii c in (48 <=? n) && (n <=? 57).

(** *** Parsing: the part of [dateutil.parser.parse] the program exercises

    [dateutil] is a third-party library.  The model covers the notation the
    program writes into its archive and reads from the index page,
    [YYYY-MM-DD HH:MM:SS], with an optional fraction of a second and an
    optional [UTC] zone name; a fraction is cut or padded to microseconds,
    and a zone name makes the result zone-aware.  The year is written with
    four digits or with three: the library takes a leading number of more
    than two digits for the year as it stands.  Any other text is treated
    as rejected ([None] stands for the library's [ValueError]); the library
    itself reads many more notations, among them a year of one or two
    digits, which it places in the century of the day the program runs. *)

Definition digit_val (c : ascii) : option N :=
  if is_digit_char c then Some (N_of_ascii c - 48) else None.

Fixpoint read_digits (k : nat) (s : string) (acc : N) : option (N * string) :=
  match k with
  | O => Some (acc, s)
  | S k' =>
      match s with
      | String c s' =>
          match digit_val c with
          | Some d => read_digits k' s' (acc * 10 + d)
          | None => None
          end
      | "" => None
      end
  end.

Definition expect (c : ascii) (s : string) : option string :=
  match s with
  | String d s' => if Ascii.eqb d c then Some s' else None
  | "" => None
  end.

(** The digits at the head of [s], and what follows them. *)
Fixpoint digit_span (s : string) : string * string :=
  match s with
  | String c s' =>
      match digit_val c with
      | Some _ => let (ds, rest) := digit_span s' in (String c ds, rest)
      | None => ("", s)
      end
  | "" => ("", "")
  end.

(** A fraction [.ddd...] as microseconds: the first six digits, padded with
    zeros on the right. *)
Definition read_fraction (s : string) : option (N * string) :=
  match s with
  | String "." s' =>
      let (ds, rest) := digit_span s' in
      match ds with
      | "" => None
      | _ =>
          match read_digits 6 (take 6 (ds ++ "000000")) 0 with
          | Some (us, _) => Some (us, rest)
          | None => None
          end
      end
  | _ => Some (0, s)
  end.

Definition read_zone (s : string) : option (option tz) :=
  if String.eqb s "" then Some None
  else if String.eqb s " UTC" then Some (Some dateutil_tzutc)
  else None.

Definition obind {A B : Type} (o : option A) (k : A -> option B) : option B :=
  match o with Some a => k a | None => None end.

(** The year at the head of [s]: four digits, or three followed by
    something else. *)
Definition read_year_digits (s : string) : option (N * string) :=
  match read_digits 4 s 0 with
  | Some r => Some r
  | None => read_digits 3 s 0
  end.

Definition dateutil_parse (s : string) : option datetime :=
  obind (read_year_digits s) (fun '(y, s) =>
  obind (expect "-" s) (fun s =>
  obind (read_digits 2 s 0) (fun '(mo, s) =>
  obind (expect "-" s) (fun s =>
  obind (read_digits 2 s 0) (fun '(d, s) =>
  obind (expect " " s) (fun s =>
  obind (read_digits 2 s 0) (fun '(h, s) =>
  obind (expect ":" s) (fun s =>
  obind (read_digits 2 s 0) (fun '(mi, s) =>
  obind (expect ":" s) (fun s =>
  obind (read_digits 2 s 0) (fun '(sec, s) =>
  obind (read_fraction s) (fun '(us, s) =>
  obind (read_zone s) (fun z =>
  let t := mkdatetime y mo d h mi sec us z in
  if valid t then Some t else None))))))))))))).

(** [pytz.utc.localize]: stamps a naive value, refuses a zone-aware one. *)
Definition localize (t : datetime) : result datetime :=
  match tzinfo t with
  | Some _ => Raise (ValueError "Not naive datetime (tzinfo is already set)")
  | None =>
      Ok (mkdatetime (year t) (month t) (day t) (hour t) (minute t)
            (second t) (microsecond t) (Some pytz_utc))
  end.

End Dt.

(** ** [urllib.parse]: [quote] and [urljoin]

    Python's standard library, not part of the repository; the model follows
    [Lib/urllib/parse.py] of CPython 3.11.  A string is a sequence of code
    points below 256.  Two checks [urlsplit] makes on the host part are not
    modelled: [_checknetloc], which accepts every host of such code points,
    and [_check_bracketed_netloc], which concerns hosts written in square
    brackets. *)

Module Url.
Import PyStr.

Definition in_range (lo hi n : nat) : bool := ((lo <=? n) && (n <=? hi))%nat.

Definition is_alpha (n : nat) : bool := in_range 65 90 n || in_range 97 122 n.
Definition is_digit (n : nat) : bool := in_range 48 57 n.

(** [_ALWAYS_SAFE]: letters, digits and [_.-~]. *)
Definition always_safe (n : nat) : bool :=
  is_alpha n || is_digit n || (n =? 95)%nat || (n =? 46)%nat || (n =? 45)%nat
  || (n =? 126)%nat.

(** The UTF-8 bytes of a code point below 256. *)
Definition utf8 (c : ascii) : list nat :=
  let n := nat_of_ascii c in
  if (n <? 128)%nat then [n] else [192 + n / 64; 128 + n mod 64]%nat.

Definition hex_digit (d : nat) : ascii :=
  if (d <? 10)%nat then ascii_of_nat (48 + d) else ascii_of_nat (55 + d).

(** One byte under [quote] with the default [safe='/']. *)
Definition quote_byte (b : nat) : string :=
  if always_safe b || (b =? 47)%nat then str1 (ascii_of_nat b)
  else String "%" (String (hex_digit (b / 16)) (str1 (hex_digit (b mod 16)))).

Fixpoint quote (s : string) : string :=
  match s with
  | "" => ""
  | String c s' =>
      fold_right (fun b acc => quote_byte b ++ acc) (quote s') (utf8 c)
  end.

Definition uses_relative : list string :=
  [""; "ftp"; "http"; "gopher"; "nntp"; "imap"; "wais"; "file"; "https";
   "shttp"; "mms"; "prospero"; "rtsp"; "rtspu"; "sftp"; "svn"; "svn+ssh";
   "ws"; "wss"].

Definition uses_netloc : list string :=
  [""; "ftp"; "http"; "gopher"; "nntp"; "telnet"; "imap"; "wais"; "file";
   "mms"; "https"; "shttp"; "snews"; "prospero"; "rtsp"; "rtspu"; "rsync";
   "svn"; "svn+ssh"; "sftp"; "nfs"; "git"; "git+ssh"; "ws"; "wss"].

Definition uses_params : list string :=
  [""; "ftp"; "hdl"; "prospero"; "http"; "imap"; "https"; "shttp"; "rtsp";
   "rtspu"; "sip"; "sips"; "mms"; "sftp"; "tel"].

Definition mem (s : string) (l : list string) : bool :=
  existsb (String.eqb s) l.

Definition scheme_char (c : ascii) : bool :=
  let n := nat_of_ascii c in
  is_alpha n || is_digit n || (n =? 43)%nat || (n =? 45)%nat || (n =? 46)%nat.

(** [_WHATWG_C0_CONTROL_OR_SPACE]: the code points up to the space. *)
Definition c0_or_space (c : ascii) : bool := (nat_of_ascii c <=? 32)%nat.

Fixpoint lstrip_c0 (s : string) : string :=
  match s with
  | String c s' => if c0_or_space c then lstrip_c0 s' else s
  | "" => ""
  end.

Fixpoint rstrip_c0 (s : string) : string :=
  match s with
  | String c s' =>
      match rstrip_c0 s' with
      | "" => if c0_or_space c then "" else str1 c
      | r => String c r
      end
  | "" => ""
  end.

(** [_UNSAFE_URL_BYTES_TO_REMOVE]: tab, carriage return and line feed. *)
Definition unsafe_byte (c : ascii) : bool :=
  let n := nat_of_ascii c in (n =? 9)%nat || (n =? 13)%nat || (n =? 10)%nat.

Fixpoint remove_unsafe (s : string) : string :=
  match s with
  | String c s' =>
      if unsafe_byte c then remove_unsafe s' else String c (remove_unsafe s')
  | "" => ""
  end.

(** The scheme of [url], if it has one, and the text after the colon: the
    text before the first colon is a scheme when it starts with a letter
    and holds scheme characters only. *)
Definition split_scheme (url default : string) : string * string :=
  if contains ":" url then
    let (pre, rest) := partition ":" url in
    match pre with
    | "" => (default, url)
    | String c _ =>
        if is_alpha (nat_of_ascii c) && all_chars scheme_char pre
        then (lower pre, rest)
        else (default, url)
    end
  else (default, url).

(** [_splitnetloc(url, 2)] on the text after the two slashes: up to the
    first of [/?#]. *)
Fixpoint splitnetloc (s : string) : string * string :=
  match s with
  | "" => ("", "")
  | String c s' =>
      if Ascii.eqb c "/" || Ascii.eqb c "?" || Ascii.eqb c "#" then ("", s)
      else let (a, b) := splitnetloc s' in (String c a, b)
  end.

Record SplitResult : Type := mksplit {
  s_scheme : string;
  s_netloc : string;
  s_path : string;
  s_query : string;
  s_fragment : string
}.

Definition urlsplit (url default : string) : result SplitResult :=
  let url := remove_unsafe (lstrip_c0 url) in
  let default := remove_unsafe (rstrip_c0 (lstrip_c0 default)) in
  let (scheme, url) := split_scheme url default in
  (x <- (if String.prefix "//" url then
           let (netloc, rest) := splitnetloc (drop 2 url) in
           if xorb (contains "[" netloc) (contains "]" netloc)
           then Raise (ValueError "Invalid IPv6 URL")
           else Ok (netloc, rest)
         else Ok ("", url)) ;;
   let (netloc, url) := (x : string * string) in
   let (url, fragment) :=
     if contains "#" url then partition "#" url else (url, "") in
   let (url, query) :=
     if contains "?" url then partition "?" url else (url, "") in
   Ok (mksplit scheme netloc url query fragment))%result.

(** The text through the last [/] of [s], and the text after it. *)
Fixpoint rsplit_slash (s : string) : string * string :=
  match s with
  | "" => ("", "")
  | String c s' =>
      let (a, b) := rsplit_slash s' in
      if Ascii.eqb c "/" then
        (if contains "/" s' then String c a else str1 c, b)
      else if contains "/" s' then (String c a, b) else ("", s)
  end.

Definition splitparams (url : string) : string * string :=
  let (head, tail) := rsplit_slash url in
  if contains ";" tail then
    let (a, b) := partition ";" tail in (head ++ a, b)
  else (url, "").

Record ParseResult : Type := mkparse {
  scheme : string;
  netloc : string;
  path : string;
  params : string;
  query : string;
  fragment : string
}.

Definition urlparse (url default : string) : result ParseResult :=
  (r <- urlsplit url default ;;
   let (p, prm) :=
     if mem (s_scheme r) uses_params && contains ";" (s_path r)
     then splitparams (s_path r) else (s_path r, "") in
   Ok (mkparse (s_scheme r) (s_netloc r) p prm (s_query r) (s_fragment r)))%result.

Definition nonempty (s : string) : bool := negb (String.eqb s "").

Definition urlunsplit (scheme netloc url query fragment : string) : string :=
  let url :=
    if nonempty netloc
       || (nonempty scheme && mem scheme uses_netloc
           && negb (String.prefix "//" url))
    then "//" ++ netloc
         ++ (if nonempty url && negb (String.prefix "/" url)
             then "/" ++ url else url)
    else url in
  let url := if nonempty scheme then scheme ++ ":" ++ url else url in
  let url := if nonempty query then url ++ "?" ++ query else url in
  if nonempty fragment then url ++ "#" ++ fragment else url.

Definition urlunparse (p : ParseResult) : string :=
  urlunsplit (scheme p) (netloc p)
    (if nonempty (params p) then path p ++ ";" ++ params p else path p)
    (query p) (fragment p).

(** [segments[1:-1] = filter(None, segments[1:-1])] *)
Definition filter_middle (l : list string) : list string :=
  match l with
  | [] => []
  | x :: r =>
      match r with
      | [] => [x]
      | _ :: _ => (x :: filter nonempty (removelast r) ++ [last r ""])%list
      end
  end.

(** The loop over the segments; [acc] is [resolved_path], last item first. *)
Fixpoint resolve_dots (segments acc : list string) : list string :=
  match segments with
  | [] => rev acc
  | seg :: rest =>
      if String.eqb seg ".." then resolve_dots rest (tl acc)
      else if String.eqb seg "." then resolve_dots rest acc
      else resolve_dots rest (seg :: acc)
  end.

Definition urljoin (base url : string) : result string :=
  if String.eqb base "" then Ok url
  else if String.eqb url "" then Ok base
  else
    (b <- urlparse base "" ;;
     u <- urlparse url (scheme b) ;;
     if negb (String.eqb (scheme u) (scheme b))
        || negb (mem (scheme u) uses_relative)
     then Ok url
     else if mem (scheme u) uses_netloc && nonempty (netloc u)
     then Ok (urlunparse u)
     else
       let netloc' :=
         if mem (scheme u) uses_netloc then netloc b else netloc u in
       if negb (nonempty (path u)) && negb (nonempty (params u))
       then Ok (urlunparse
                  (mkparse (scheme u) netloc' (path b) (params b)
                     (if nonempty (query u) then query u else query b)
                     (fragment u)))
       else
         let parts := split "/" (path b) in
         let base_parts :=
           if nonempty (last parts "") then removelast parts else parts in
         let segments :=
           if String.prefix "/" (path u) then split "/" (path u)
           else filter_middle (base_parts ++ split "/" (path u)) in
         let resolved := resolve_dots segments [] in
         let resolved :=
           if String.eqb (last segments "") "."
              || String.eqb (last segments "") ".."
           then (resolved ++ [""])%list else resolved in
         let joined := join "/" resolved in
         Ok (urlunparse
               (mkparse (scheme u) netloc'
                  (if nonempty joined then joined else "/")
                  (params u) (query u) (fragment u))))%result.

End Url.

(** ** The world outside the program

    What the program can change or observe outside its own memory: the
    names in the [timestamp_archive] directory (in listing order), the
    directories it has created, the locators it has asked the network for,
    and the File Processor invocations it has started (locator and output
    directory). *)

Record World : Type := mkWorld {
  archive : list string;
  dirs : list string;
  fetched : list string;
  calls : list (string * string)
}.

Definition M (A : Type) : Type := World -> World * result A.

Definition mret {A : Type} (a : A) : M A := fun w => (w, Ok a).

Definition mbind {A B : Type} (m : M A) (k : A -> M B) : M B :=
  fun w =>
    match m w with
    | (w', Ok a) => k a w'
    | (w', Raise e) => (w', Raise e)
    | (w', OutOfFuel) => (w', OutOfFuel)
    end.

Definition lift {A : Type} (r : result A) : M A := fun w => (w, r).

Declare Scope world_scope.
Delimit Scope world_scope with world.
Notation "x <- m ;; k" := (mbind m (fun x => k))
  (at level 61, m at next level, right associativity) : world_scope.
Notation "m ;;; k" := (mbind m (fun _ => k))
  (at level 61, right associativity) : world_scope.

(** [for x in l: body x] *)
Fixpoint for_each {A : Type} (l : list A) (body : A -> M unit) : M unit :=
  match l with
  | [] => mret tt
  | x :: rest => (body x ;;; for_each rest body)%world
  end.

(** [os.path.isdir], [os.makedirs] and [subprocess.call].  A directory is
    known by the text of its path, and creating one succeeds: the failures
    of the operating system (a path too long, a missing permission) are
    not modelled. *)
Definition isdir (p : string) : M bool :=
  fun w => (w, Ok (existsb (String.eqb p) (dirs w))).

Definition makedirs (p : string) : M unit :=
  fun w => (mkWorld (archive w) (dirs w ++ [p]) (fetched w) (calls w), Ok tt).

Definition subprocess_call (locator outputDir : string) : M unit :=
  fun w =>
    (mkWorld (archive w) (dirs w) (fetched w) (calls w ++ [(locator, outputDir)]),
     Ok tt).

(** [touch]: the file is created when it is not there yet. *)
Definition touch (name : string) : M unit :=
  fun w =>
    (mkWorld
       (if existsb (String.eqb name) (archive w) then archive w
        else archive w ++ [name])
       (dirs w) (fetched w) (calls w),
     Ok tt).

(** ** The program *)

Module Waze.
Import PyStr.
Import Dt.

(** The names bound at module level: the imports and the functions. *)
Definition module_names : list string :=
  ["sys"; "argparse"; "os"; "logging"; "re"; "urllib"; "requests";
   "dateutil"; "pytz"; "inspect"; "pprint"; "subprocess"; "main";
   "_needToDoRun"; "parseArgs"; "validateArgs"; "getPreviousDataTimestamp";
   "parseTimestamp"; "getHtmlContent"; "parseDataTimestampFromIndexPage";
   "prettyPrintTimestamp"; "processContent"; "getContentLinkScanners";
   "linkScanner_getAreaManagerPolygons";
   "linkScanner_getMissingStateSpeedLimits"; "getHtmlLinks"; "parseHref";
   "removeLastToken"; "mergeParentAndRelativeUrl"; "touch";
   "writeTimestampToArchive"].

(** Reading a variable inside a function: the function's own names, then
    the module's.  (No builtin carries any of the names looked up here.) *)
Definition load_name (locals : list string) (name : string) : result unit :=
  if Url.mem name locals || Url.mem name module_names then Ok tt
  else Raise (NameError name).

Definition prettyPrintTimestamp (timestamp : datetime) : string :=
  strftime "%Y-%m-%d %H:%M:%S UTC" timestamp.

(** The message of the last branch is built before the function returns,
    and it reads [currentTimestamp]. *)
Definition _needToDoRun (previousDataTimestamp : option datetime)
  (currTimestamp : datetime) : result bool :=
  match previousDataTimestamp with
  | None => Ok true
  | Some previous =>
      if leb currTimestamp previous then Ok false
      else
        (_ <- load_name ["previousDataTimestamp"; "currTimestamp"]
                "previousDataTimestamp" ;;
         _ <- load_name ["previousDataTimestamp"; "currTimestamp"]
                "currentTimestamp" ;;
         Ok true)%result
  end.

(** Both outcomes of the [try] leave the function: the value, or the
    [ValueError] raised again by the handler; the closing [return None] is
    never reached.  The handler catches [ValueError] only: an exception of
    another class that the parsing library raises on some texts (an
    [OverflowError] on a number too large for a field) would pass through
    it; the model of the library has no such outcome. *)
Definition parseTimestamp (possibleTimestamp : string) : result datetime :=
  match
    match dateutil_parse possibleTimestamp with
    | Some parsedTimestamp => localize parsedTimestamp
    | None => Raise (ValueError "Unknown string format")
    end
  with
  | Raise (ValueError _) => Raise (ValueError "Could not parse timestamp from HTML")
  | r => r
  end.

(** The loop of [getPreviousDataTimestamp] over the directory listing.  A
    parsed value is never [None], so the test of the loop is the one on the
    file extension. *)
Fixpoint scan_archive (files : list string) (dataTimestamps : list datetime)
  : result (list datetime) :=
  match files with
  | [] => Ok dataTimestamps
  | currFile :: rest =>
      let supposedTimestamp :=
        slice_to currFile (len currFile - len ".timestamp") in
      (parsedTimestamp <- parseTimestamp supposedTimestamp ;;
       if negb (endswith currFile ".timestamp")
       then scan_archive rest dataTimestamps
       else scan_archive rest (dataTimestamps ++ [parsedTimestamp])%list)%result
  end.

Definition getPreviousDataTimestamp : M (option datetime) :=
  fun w =>
    (w,
     (dataTimestamps <- scan_archive (archive w) [] ;;
      match dataTimestamps with
      | x :: xs => Ok (Some (py_max x xs))
      | [] => Ok None
      end)%result).

Definition parseDataTimestampFromIndexPage (htmlContent : string)
  : result datetime :=
  match Re.search Re.generated_at htmlContent with
  | None => Raise SystemExit
  | Some possibleTimestamp => parseTimestamp possibleTimestamp
  end.

Definition parseHref (htmlLink : string) : result string :=
  match Re.search Re.href_at htmlLink with
  | None => Raise SystemExit
  | Some href => Ok href
  end.

Fixpoint keep_relative (potentialLinks : list string) : result (list string) :=
  match potentialLinks with
  | [] => Ok []
  | potentialLink :: rest =>
      (hrefPortion <- parseHref potentialLink ;;
       returnLinks <- keep_relative rest ;;
       if negb (startswith hrefPortion "http://")
          && negb (startswith hrefPortion "https://")
       then Ok (potentialLink :: returnLinks)
       else Ok returnLinks)%result
  end.

Definition getHtmlLinks (htmlContent : string) : result (list string) :=
  keep_relative (Re.findall Re.anchor_at htmlContent).

(** [for i in range(len(url) - 1, 0, -1)]: index 0 is not looked at. *)
Fixpoint removeLastToken_from (i : nat) (url : string) : result string :=
  match i with
  | O => Raise SystemExit
  | S i' =>
      match String.get i url with
      | Some c =>
          if Ascii.eqb c "/" then Ok (take (S i) url)
          else removeLastToken_from i' url
      | None => removeLastToken_from i' url
      end
  end.

Definition removeLastToken (url : string) : result string :=
  removeLastToken_from (String.length url - 1) url.

Definition mergeParentAndRelativeUrl (parentUrl relativeUrl : string)
  : result string :=
  if endswith parentUrl "/" then Ok (parentUrl ++ relativeUrl)
  else (trimmed <- removeLastToken parentUrl ;; Ok (trimmed ++ relativeUrl))%result.

Definition LinkScanner : Type :=
  string -> string -> nat -> string -> datetime -> M unit.

(** The managed-area CSV this scanner recognises; the scanner writes it to
    the log and does nothing else. *)
Definition areaManagerPolygonCsv (linkContent parentUrl : string)
  (parentLinkDepth : nat) : option string :=
  match Re.search Re.managedareas_at linkContent with
  | Some _ =>
      if String.eqb parentUrl "http://db.slickbox.net/states/"
         && Nat.eqb parentLinkDepth 1
      then Some (parentUrl ++ "managedareas.csv")
      else None
  | None => None
  end.

Definition linkScanner_getAreaManagerPolygons : LinkScanner :=
  fun linkContent parentUrl parentLinkDepth stateOutputDir currTimestamp =>
    match areaManagerPolygonCsv linkContent parentUrl parentLinkDepth with
    | Some _ => mret tt
    | None => mret tt
    end.

Definition timestampDirName (currTimestamp : datetime) : string :=
  let name := prettyPrintTimestamp currTimestamp in
  let name := replace " " "_" name in
  let name := replace "-" "" name in
  let name := replace ":" "" name in
  slice_to name (len name - len "_UTC").

Definition linkScanner_getMissingStateSpeedLimits : LinkScanner :=
  fun linkContent parentUrl parentLinkDepth stateOutputDir currTimestamp =>
    (relativeLink <- lift (parseHref linkContent) ;;
     if negb (endswith relativeLink "-sl.csv") then mret tt
     else
       mergedUrl <- lift (mergeParentAndRelativeUrl parentUrl relativeLink) ;;
       let urlTokens := split "/" mergedUrl in
       let stateName := last urlTokens "" in
       let stateName := slice_to stateName (len stateName - len "-sl.csv") in
       let outputDir :=
         stateOutputDir ++ "/" ++ stateName ++ "/"
         ++ timestampDirName currTimestamp ++ "/speed_limits" in
       exists_ <- isdir outputDir ;;
       (if negb exists_ then makedirs outputDir else mret tt) ;;;
       subprocess_call mergedUrl outputDir)%world.

(** The handlers found among the module's names, in definition order: no
    content scanner, two link scanners. *)
Definition getContentLinkScanners : list LinkScanner * list LinkScanner :=
  ([], [linkScanner_getAreaManagerPolygons;
        linkScanner_getMissingStateSpeedLimits]).

Definition writeTimestampToArchive (currTimestamp : datetime) : M unit :=
  touch (strftime "%Y-%m-%d %H:%M:%S.timestamp" currTimestamp).

Section Crawl.

(** The Page Fetcher: the content behind a locator, or [None] when the
    request fails. *)
Variable web : string -> option string.

(** Every failure of the request ends the process. *)
Definition getHtmlContent (rootUrl : string) : M string :=
  fun w =>
    let w' := mkWorld (archive w) (dirs w) (fetched w ++ [rootUrl]) (calls w) in
    match web rootUrl with
    | Some htmlContent => (w', Ok htmlContent)
    | None => (w', Raise SystemExit)
    end.

(** The locator of a child, lines 213 to 219: the parent, trimmed when it
    does not end in a slash, and the child's locator. *)
Definition childUrl (htmlUrl currHtmlLink : string) : result (string * string) :=
  (htmlUrl <- (if negb (endswith htmlUrl "/") then removeLastToken htmlUrl
               else Ok htmlUrl) ;;
   parsedHref <- parseHref currHtmlLink ;;
   newUrl <- Url.urljoin htmlUrl (Url.quote parsedHref) ;;
   Ok (htmlUrl, newUrl))%result.

Fixpoint processContent (fuel : nat) (htmlContent htmlUrl : string)
  (linkDepth : nat) (stateOutputDir : string) (currTimestamp : datetime)
  (recurse : bool) {struct fuel} : M unit :=
  match fuel with
  | O => lift OutOfFuel
  | S fuel' =>
      let (contentScanners, linkScanners) := getContentLinkScanners in
      (for_each contentScanners (fun currContentScanner =>
         currContentScanner htmlContent htmlUrl linkDepth stateOutputDir
           currTimestamp) ;;;
       htmlLinks <- lift (getHtmlLinks htmlContent) ;;
       for_each htmlLinks (fun currHtmlLink =>
         for_each linkScanners (fun currLinkScanner =>
           currLinkScanner currHtmlLink htmlUrl linkDepth stateOutputDir
             currTimestamp)) ;;;
       if recurse then
         (fix dive (links : list string) (htmlUrl : string) : M unit :=
            match links with
            | [] => mret tt
            | currHtmlLink :: rest =>
                urls <- lift (childUrl htmlUrl currHtmlLink) ;;
                let (htmlUrl, newUrl) := (urls : string * string) in
                if endswith newUrl ".csv" then dive rest htmlUrl
                else
                  newHtmlContent <- getHtmlContent newUrl ;;
                  processContent fuel' newHtmlContent newUrl (S linkDepth)
                    stateOutputDir currTimestamp recurse ;;;
                  dive rest htmlUrl
            end) htmlLinks htmlUrl
       else mret tt)%world
  end.

(** [main], after the command line has been read. *)
Definition main (fuel : nat) (rootUrl stateOutputDir : string) : M unit :=
  (previousDataTimestamp <- getPreviousDataTimestamp ;;
   indexHtmlContent <- getHtmlContent rootUrl ;;
   currTimestamp <- lift (parseDataTimestampFromIndexPage indexHtmlContent) ;;
   go <- lift (_needToDoRun previousDataTimestamp currTimestamp) ;;
   if negb go then lift (Raise SystemExit)
   else
     processContent fuel indexHtmlContent rootUrl 1 stateOutputDir
       currTimestamp true ;;;
     writeTimestampToArchive currTimestamp)%world.

End Crawl.

End Waze.

(** ** The scenario of the specification

    The index page carries [Generated: 2016-07-20 20:34:36.844030 UTC] and
    one relative link to [tx-sl.csv]; nothing has been recorded yet. *)

Module Scenario.
Import PyStr.

Definition q : string := str1 dquote.

Definition rootUrl : string := "http://example.org/states/".

Definition indexPage : string :=
  "<html>Generated: 2016-07-20 20:34:36.844030 UTC <a href=" ++ q
  ++ "tx-sl.csv" ++ q ++ ">TX</a></html>".

Definition web (locator : string) : option string :=
  if String.eqb locator rootUrl then Some indexPage else None.

Definition fresh : World := mkWorld [] [] [] [].

Definition observed : Dt.datetime :=
  Dt.mkdatetime 2016 7 20 20 34 36 844030 (Some Dt.pytz_utc).

Definition recorded : Dt.datetime :=
  Dt.mkdatetime 2016 7 20 20 34 36 0 (Some Dt.pytz_utc).

(** The world the first run leaves behind. *)
Definition afterFirstRun : World :=
  fst (Waze.main web 2 rootUrl "/out" fresh).

(** A site with one more level: the index page also links to [ca/], whose
    page links to [ca-sl.csv]. *)
Definition anchor (href text : string) : string :=
  "<a href=" ++ q ++ href ++ q ++ ">" ++ text ++ "</a>".

Definition deepIndexPage : string :=
  "Generated: 2016-07-20 20:34:36.844030 UTC " ++ anchor "tx-sl.csv" "TX"
  ++ anchor "ca/" "CA".

Definition deepWeb (locator : string) : option string :=
  if String.eqb locator rootUrl then Some deepIndexPage
  else if String.eqb locator "http://example.org/states/ca/"
       then Some (anchor "ca-sl.csv" "CA")
       else None.

End Scenario.

(** ** A page that points away from the site

    The index page links to [//other.org/p/], a reference that names another
    host without naming a scheme; [links] holds that anchor and two that
    name a scheme other than in the spelling [http://] or [https://]. *)

Module Offsite.
Import PyStr.

Definition links : string :=
  Scenario.anchor "//other.org/p/" "P"
  ++ Scenario.anchor "HTTP://EXAMPLE.ORG/a/" "A"
  ++ Scenario.anchor "ftp://other.org/f/" "F".

Definition indexPage : string :=
  "Generated: 2016-07-20 20:34:36.844030 UTC "
  ++ Scenario.anchor "//other.org/p/" "P".

Definition web (locator : string) : option string :=
  if String.eqb locator Scenario.rootUrl then Some indexPage
  else if String.eqb locator "http://other.org/p/"
       then Some "<html>another site</html>"
       else None.

End Offsite.

(** ** Predicates of the statements *)

(** From [w] to [w'] only locators that do not end in [.csv] were requested. *)
Definition no_csv_fetch (w w' : World) : Prop :=
  exists new,
    fetched w' = (fetched w ++ new)%list
    /\ Forall (fun u => PyStr.endswith u ".csv" = false) new.

(** Whatever the world it starts in, [m] requests no [.csv] locator. *)
Definition fetches_no_csv {A : Type} (m : M A) : Prop :=
  forall w, no_csv_fetch w (fst (m w)).

(** The instant cut to the whole second. *)
Definition whole_second (t : Dt.datetime) : Dt.datetime :=
  Dt.mkdatetime (Dt.year t) (Dt.month t) (Dt.day t) (Dt.hour t) (Dt.minute t)
    (Dt.second t) 0 (Dt.tzinfo t).


(** Characters [quote] leaves alone and that mean nothing to [urljoin]:
    letters, digits and [_.-~]. *)
Definition unreserved (c : ascii) : bool := Url.always_safe (nat_of_ascii c).

(** Characters of a host part: visible ASCII, none of [/?#] nor a bracket. *)
Definition host_char (c : ascii) : bool :=
  (32 <? nat_of_ascii c)%nat && (nat_of_ascii c <? 127)%nat
  && negb (Ascii.eqb c "/" || Ascii.eqb c "?" || Ascii.eqb c "#"
           || Ascii.eqb c "[" || Ascii.eqb c "]").

(** Characters of a plain path segment: none of [/?#;], and none of the
    tab, carriage return and line feed that [urlsplit] removes. *)
Definition segment_char (c : ascii) : bool :=
  negb (Ascii.eqb c "/" || Ascii.eqb c "?" || Ascii.eqb c "#"
        || Ascii.eqb c ";" || Url.unsafe_byte c).

(** Characters that mean nothing to [urlsplit] and [urljoin] inside a
    relative reference: none of [:/?#;], none of the characters [urlsplit]
    strips or removes. *)
Definition inert_char (c : ascii) : bool :=
  (32 <? nat_of_ascii c)%nat
  && negb (Ascii.eqb c ":" || Ascii.eqb c "/" || Ascii.eqb c "?"
           || Ascii.eqb c "#" || Ascii.eqb c ";").

(** A number below 100 in two decimal digits, and one below 10000 in
    four, written out digit by digit. *)
Definition two_digits (n : N) : string :=
  String (ascii_of_N (48 + n / 10)) (String (ascii_of_N (48 + n mod 10)) "").

Definition four_digits (n : N) : string :=
  String (ascii_of_N (48 + n / 1000))
    (String (ascii_of_N (48 + n / 100 mod 10))
       (String (ascii_of_N (48 + n / 10 mod 10))
          (String (ascii_of_N (48 + n mod 10)) ""))).

(** Characters of a relative path: those of [inert_char], and the slash. *)
Definition path_char (c : ascii) : bool := inert_char c || Ascii.eqb c "/".

(** *** Percent-escaping, in the words of RFC 3986

    The reference the model of [quote] is compared with: a letter, a digit,
    one of [-._~] and the path separator [/] stand for themselves; any other
    character is replaced by its UTF-8 bytes, each written as [%] and two
    upper-case hexadecimal digits. *)

Definition hex_upper (d : N) : ascii :=
  match d with
  | 0 => "0" | 1 => "1" | 2 => "2" | 3 => "3" | 4 => "4" | 5 => "5"
  | 6 => "6" | 7 => "7" | 8 => "8" | 9 => "9" | 10 => "A" | 11 => "B"
  | 12 => "C" | 13 => "D" | 14 => "E" | _ => "F"
  end%N%char.

Definition percent_byte (b : N) : string :=
  String "%" (String (hex_upper (b / 16)) (String (hex_upper (b mod 16)) "")).

Definition stands_for_itself (c : ascii) : bool :=
  let n := N_of_ascii c in
  ((65 <=? n) && (n <=? 90) || (97 <=? n) && (n <=? 122)
   || (48 <=? n) && (n <=? 57))%N
  || Ascii.eqb c "-" || Ascii.eqb c "." || Ascii.eqb c "_" || Ascii.eqb c "~"
  || Ascii.eqb c "/".

Definition percent_escaped_char (c : ascii) : string :=
  let n := N_of_ascii c in
  if stands_for_itself c then String c ""
  else if (n <? 128)%N then percent_byte n
  else percent_byte (192 + n / 64) ++ percent_byte (128 + n mod 64).

Fixpoint percent_escaped (s : string) : string :=
  match s with
  | "" => ""
  | String c s' => percent_escaped_char c ++ percent_escaped s'
  end.

(** *** What the pattern of [parseHref] matches

    [s] begins with a match of [href\s*=\s*"(.+?)"] whose group is [h]:
    the word, spaces, the equals sign, spaces, a double quote, then [h] up
    to the next double quote.  [h] has at least one character, which may
    itself be a double quote, no newline, and no other double quote. *)
Definition href_match (s h : string) : Prop :=
  exists ws1 ws2 post,
    s = "href" ++ ws1 ++ "=" ++ ws2 ++ PyStr.str1 PyStr.dquote ++ h
        ++ PyStr.str1 PyStr.dquote ++ post
    /\ PyStr.all_chars Re.is_space ws1 = true
    /\ PyStr.all_chars Re.is_space ws2 = true
    /\ h <> "" /\ PyStr.contains PyStr.newline h = false
    /\ PyStr.contains PyStr.dquote (PyStr.drop 1 h) = false.

(** A path segment that resolution leaves where it is. *)
Definition plain_segment (s : string) : bool :=
  Url.nonempty s && negb (String.eqb s ".") && negb (String.eqb s "..")
  && PyStr.all_chars segment_char s.

(** The path of a directory: [/seg1/seg2/.../]. *)
Fixpoint dir_tail (segs : list string) : string :=
  match segs with
  | [] => ""
  | s :: rest => s ++ "/" ++ dir_tail rest
  end.

Definition dir_path (segs : list string) : string := "/" ++ dir_tail segs.

(** The parent locator as both joins use it: itself when it ends in a
    slash, else cut back to its last slash. *)
Definition trimmed (parentUrl : string) : result string :=
  if PyStr.endswith parentUrl "/" then Ok parentUrl
  else Waze.removeLastToken parentUrl.


(** From [w] to [w'] the archive is as it was, and directories, File
    Processor invocations and requests were only added. *)
Definition only_adds (w w' : World) : Prop :=
  archive w' = archive w
  /\ (exists d, dirs w' = (dirs w ++ d)%list)
  /\ (exists c, calls w' = (calls w ++ c)%list)
  /\ (exists f, fetched w' = (fetched w ++ f)%list).

(** Whatever the world it starts in, [m] leaves the archive alone and only
    adds to the rest. *)
Definition keeps_archive {A : Type} (m : M A) : Prop :=
  forall w, only_adds w (fst (m w)).


(** The text [getPreviousDataTimestamp] parses for an archive file: the
    name without its last ten characters. *)
Definition supposedTimestamp (currFile : string) : string :=
  PyStr.slice_to currFile (PyStr.len currFile - PyStr.len ".timestamp").


(** From [w] to [w'] no directory was lost, and every File Processor
    invocation added was for a locator ending in [-sl.csv] with an output
    directory ending in [/speed_limits] that exists in [w']. *)
Definition processor_step (w w' : World) : Prop :=
  incl (dirs w) (dirs w')
  /\ exists new,
       calls w' = (calls w ++ new)%list
       /\ Forall (fun c => PyStr.endswith (fst c) "-sl.csv" = true
                           /\ PyStr.endswith (snd c) "/speed_limits" = true
                           /\ In (snd c) (dirs w')) new.

Definition starts_processor_well {A : Type} (m : M A) : Prop :=
  forall w, processor_step w (fst (m w)).


(** The requests made from [w] to [w'] with outcome [r]: either all of them
    were served, or the last one was not, those before it were, and the
    outcome is [SystemExit]. *)
Definition fail_fast {A : Type} (web : string -> option string)
  (w w' : World) (r : result A) : Prop :=
  exists new,
    fetched w' = (fetched w ++ new)%list
    /\ (Forall (fun u => web u <> None) new
        \/ (r = Raise SystemExit
            /\ exists pre u,
                 new = (pre ++ [u])%list
                 /\ Forall (fun u => web u <> None) pre
                 /\ web u = None)).

Definition stops_at_failed_fetch {A : Type} (web : string -> option string)
  (m : M A) : Prop :=
  forall w, fail_fast web w (fst (m w)) (snd (m w)).


(** * Properties *)

Import PyStr.
Import Waze.

(** ** The update gate *)

Lemma needToDoRun_first_run (currTimestamp : Dt.datetime) :
  _needToDoRun None currTimestamp = Ok true.
Proof. reflexivity. Qed.

Lemma needToDoRun_not_newer (previous currTimestamp : Dt.datetime) :
  Dt.compare currTimestamp previous <> Gt ->
  _needToDoRun (Some previous) currTimestamp = Ok false.
Proof.
  intros H. unfold _needToDoRun, Dt.leb.
  destruct (Dt.compare currTimestamp previous); congruence.
Qed.

(** C1. With a previous instant on record and a strictly later current one,
    the gate does not return: building its log message reads the unbound
    name [currentTimestamp] and raises [NameError]. *)
Theorem needToDoRun_newer_raises (previous currTimestamp : Dt.datetime) :
  Dt.compare currTimestamp previous = Gt ->
  _needToDoRun (Some previous) currTimestamp
  = Raise (NameError "currentTimestamp").
Proof.
  intros H. unfold _needToDoRun, Dt.leb. rewrite H. reflexivity.
Qed.

Lemma needToDoRun_newer_raises_witness :
  Dt.compare Scenario.observed Scenario.recorded = Gt
  /\ _needToDoRun (Some Scenario.recorded) Scenario.observed
     = Raise (NameError "currentTimestamp").
Proof.
  split; [reflexivity | apply needToDoRun_newer_raises; reflexivity].
Defined.

(** ** The timestamp archive *)

Lemma parseTimestamp_raise (s : string) (e : exn) :
  parseTimestamp s = Raise e ->
  e = ValueError "Could not parse timestamp from HTML".
Proof.
  unfold parseTimestamp, Dt.localize.
  destruct (Dt.dateutil_parse s) as [t|]; [destruct (Dt.tzinfo t)|];
    intros H; inversion H; reflexivity.
Qed.

Lemma parseTimestamp_returns_or_raises (s : string) :
  parseTimestamp s <> OutOfFuel.
Proof.
  unfold parseTimestamp, Dt.localize.
  destruct (Dt.dateutil_parse s) as [t|]; [destruct (Dt.tzinfo t)|];
    discriminate.
Qed.

Lemma scan_archive_bad_entry (files : list string) (acc : list Dt.datetime)
  (f : string) (e : exn) :
  In f files ->
  parseTimestamp (slice_to f (len f - len ".timestamp")) = Raise e ->
  scan_archive files acc
  = Raise (ValueError "Could not parse timestamp from HTML").
Proof.
  revert acc. induction files as [|g files IH]; intros acc Hin Hbad.
  - destruct Hin.
  - simpl.
    destruct (parseTimestamp (slice_to g (len g - len ".timestamp")))
      as [t|e'|] eqn:Hg.
    + destruct Hin as [->|Hin]; [congruence|].
      simpl. destruct (negb (endswith g ".timestamp")); apply IH; assumption.
    + simpl. rewrite (parseTimestamp_raise _ _ Hg). reflexivity.
    + exfalso. exact (parseTimestamp_returns_or_raises _ Hg).
Qed.

(** C5. An archive entry whose name does not parse is not skipped:
    [parseTimestamp] raises instead of returning [None], so reading the
    high-water mark fails with [ValueError], and with it the whole run,
    before any page is requested. *)
Theorem unparsable_entry_aborts_run (w : World) (f : string) (e : exn) :
  In f (archive w) ->
  parseTimestamp (slice_to f (len f - len ".timestamp")) = Raise e ->
  getPreviousDataTimestamp w
  = (w, Raise (ValueError "Could not parse timestamp from HTML"))
  /\ forall web fuel rootUrl stateOutputDir,
       main web fuel rootUrl stateOutputDir w
       = (w, Raise (ValueError "Could not parse timestamp from HTML")).
Proof.
  intros Hin Hbad.
  assert (Hg : getPreviousDataTimestamp w
               = (w, Raise (ValueError "Could not parse timestamp from HTML"))).
  { unfold getPreviousDataTimestamp.
    rewrite (scan_archive_bad_entry _ [] f e Hin Hbad). reflexivity. }
  split; [exact Hg|].
  intros web fuel rootUrl stateOutputDir.
  unfold main, mbind. rewrite Hg. reflexivity.
Qed.

Lemma unparsable_entry_aborts_run_witness :
  let w := mkWorld ["2016-07-20 20:34:36.timestamp"; "garbage.timestamp"]
             [] [] [] in
  getPreviousDataTimestamp w
  = (w, Raise (ValueError "Could not parse timestamp from HTML"))
  /\ forall web fuel rootUrl stateOutputDir,
       main web fuel rootUrl stateOutputDir w
       = (w, Raise (ValueError "Could not parse timestamp from HTML")).
Proof.
  intro w.
  apply (unparsable_entry_aborts_run w "garbage.timestamp"
           (ValueError "Could not parse timestamp from HTML")).
  - simpl. right. left. reflexivity.
  - vm_compute. reflexivity.
Defined.

(** The archive name does not depend on the fraction of a second. *)
Lemma archive_name_ignores_microsecond (y mo d h mi s us us' : N)
  (z z' : option Dt.tz) :
  Dt.strftime "%Y-%m-%d %H:%M:%S.timestamp" (Dt.mkdatetime y mo d h mi s us z)
  = Dt.strftime "%Y-%m-%d %H:%M:%S.timestamp" (Dt.mkdatetime y mo d h mi s us' z').
Proof. reflexivity. Qed.

(** C3. In the scenario the first run completes and appends one entry, but
    the entry is [2016-07-20 20:34:36.timestamp]: the format of
    [writeTimestampToArchive] has no fraction, and the instant read back
    from the archive is 20:34:36.000000, not the observed 20:34:36.844030. *)
Theorem archive_entry_drops_fraction :
  parseDataTimestampFromIndexPage Scenario.indexPage = Ok Scenario.observed
  /\ main Scenario.web 2 Scenario.rootUrl "/out" Scenario.fresh
     = (Scenario.afterFirstRun, Ok tt)
  /\ archive Scenario.afterFirstRun = ["2016-07-20 20:34:36.timestamp"]
  /\ getPreviousDataTimestamp Scenario.afterFirstRun
     = (Scenario.afterFirstRun, Ok (Some Scenario.recorded))
  /\ Dt.microsecond Scenario.recorded = 0%N
  /\ Dt.microsecond Scenario.observed = 844030%N.
Proof. vm_compute. repeat split. Qed.

(** C2. Running again on the same index page after the first run: the
    instant read back from the archive is earlier than the observed one, so
    the gate takes its last branch and raises [NameError] instead of
    returning false. *)
Theorem rerun_same_page_gate_raises :
  getPreviousDataTimestamp Scenario.afterFirstRun
  = (Scenario.afterFirstRun, Ok (Some Scenario.recorded))
  /\ Dt.compare Scenario.observed Scenario.recorded = Gt
  /\ _needToDoRun (Some Scenario.recorded) Scenario.observed
     = Raise (NameError "currentTimestamp")
  /\ snd (main Scenario.web 2 Scenario.rootUrl "/out" Scenario.afterFirstRun)
     = Raise (NameError "currentTimestamp").
Proof. vm_compute. repeat split. Qed.

(** ** The link extractor *)

Lemma keep_relative_spec (potentialLinks links : list string) :
  keep_relative potentialLinks = Ok links ->
  links
  = filter (fun l => match parseHref l with
                     | Ok h => negb (startswith h "http://")
                               && negb (startswith h "https://")
                     | _ => false
                     end) potentialLinks
  /\ Forall (fun l => exists h, parseHref l = Ok h
                                /\ startswith h "http://" = false
                                /\ startswith h "https://" = false) links.
Proof.
  revert links. induction potentialLinks as [|l rest IH]; intros links H.
  - inversion H. split; constructor.
  - simpl in H. destruct (parseHref l) as [h| |] eqn:Hh; try discriminate.
    simpl in H. destruct (keep_relative rest) as [ls| |]; try discriminate.
    simpl in H. destruct (IH ls eq_refl) as [Hf Hall].
    simpl. rewrite Hh.
    destruct (negb (startswith h "http://") && negb (startswith h "https://"))
      eqn:Hrel; inversion H; subst links.
    + split; [now rewrite <- Hf|].
      constructor; [|assumption].
      exists h. apply andb_true_iff in Hrel. destruct Hrel as [H1 H2].
      apply negb_true_iff in H1, H2. auto.
    + split; assumption.
Qed.

(** What the filter of [getHtmlLinks] does do: every link it returns has
    an href that begins with neither [http://] nor [https://], and the
    result is the list of anchors of the page, in document order, with the
    others left out. *)
Theorem getHtmlLinks_relative_only (htmlContent : string) (links : list string) :
  getHtmlLinks htmlContent = Ok links ->
  links
  = filter (fun l => match parseHref l with
                     | Ok h => negb (startswith h "http://")
                               && negb (startswith h "https://")
                     | _ => false
                     end) (Re.findall Re.anchor_at htmlContent)
  /\ Forall (fun l => exists h, parseHref l = Ok h
                                /\ startswith h "http://" = false
                                /\ startswith h "https://" = false) links.
Proof. apply keep_relative_spec. Qed.

Lemma getHtmlLinks_relative_only_witness :
  let page :=
    "<a href=" ++ Scenario.q ++ "http://example.org/" ++ Scenario.q
    ++ ">out</a> <a href=" ++ Scenario.q ++ "tx-sl.csv" ++ Scenario.q
    ++ ">TX</a> <a href=" ++ Scenario.q ++ "https://example.org/" ++ Scenario.q
    ++ ">out</a> <a  href=" ++ Scenario.q ++ "ca/" ++ Scenario.q ++ ">CA</a>" in
  let links :=
    ["<a href=" ++ Scenario.q ++ "tx-sl.csv" ++ Scenario.q ++ ">TX</a>";
     "<a  href=" ++ Scenario.q ++ "ca/" ++ Scenario.q ++ ">CA</a>"] in
  getHtmlLinks page = Ok links
  /\ Forall (fun l => exists h, parseHref l = Ok h
                                /\ startswith h "http://" = false
                                /\ startswith h "https://" = false) links.
Proof.
  intros page links. split; [vm_compute; reflexivity|].
  apply (getHtmlLinks_relative_only page links). vm_compute. reflexivity.
Defined.

(** C9. [getHtmlLinks] is meant to return relative links only (the comment
    of line 313), and tests for that by the two prefixes [http://] and
    [https://].  References that leave the site without either prefix pass
    the test: the anchors with the hrefs [//other.org/p/],
    [HTTP://EXAMPLE.ORG/a/] and [ftp://other.org/f/] are all returned as
    links.  The crawl engine resolves the first against
    [http://example.org/states/] to [http://other.org/p/], and a run on an
    index page with that anchor requests that page of another site, and
    completes. *)
Theorem getHtmlLinks_keeps_offsite_links :
  getHtmlLinks Offsite.links
  = Ok [Scenario.anchor "//other.org/p/" "P";
        Scenario.anchor "HTTP://EXAMPLE.ORG/a/" "A";
        Scenario.anchor "ftp://other.org/f/" "F"]
  /\ parseHref (Scenario.anchor "//other.org/p/" "P") = Ok "//other.org/p/"
  /\ childUrl Scenario.rootUrl (Scenario.anchor "//other.org/p/" "P")
     = Ok (Scenario.rootUrl, "http://other.org/p/")
  /\ main Offsite.web 3 Scenario.rootUrl "/out" Scenario.fresh
     = (mkWorld ["2016-07-20 20:34:36.timestamp"] []
          [Scenario.rootUrl; "http://other.org/p/"] [],
        Ok tt).
Proof. vm_compute. repeat split. Qed.

(** ** The crawl engine never requests a CSV locator *)

Lemma no_csv_fetch_refl (w : World) : no_csv_fetch w w.
Proof. exists []. split; [now rewrite app_nil_r | constructor]. Qed.

Lemma no_csv_fetch_trans (w1 w2 w3 : World) :
  no_csv_fetch w1 w2 -> no_csv_fetch w2 w3 -> no_csv_fetch w1 w3.
Proof.
  intros [n1 [E1 F1]] [n2 [E2 F2]]. exists (n1 ++ n2)%list. split.
  - rewrite E2, E1. now rewrite app_assoc.
  - apply Forall_app. split; assumption.
Qed.

Lemma fetches_no_csv_ret {A : Type} (a : A) : fetches_no_csv (mret a).
Proof. intro w. apply no_csv_fetch_refl. Qed.

Lemma fetches_no_csv_lift {A : Type} (r : result A) : fetches_no_csv (lift r).
Proof. intro w. apply no_csv_fetch_refl. Qed.

Lemma fetches_no_csv_bind {A B : Type} (m : M A) (k : A -> M B) :
  fetches_no_csv m -> (forall a, fetches_no_csv (k a)) ->
  fetches_no_csv (mbind m k).
Proof.
  intros Hm Hk w. unfold mbind. specialize (Hm w).
  destruct (m w) as [w' [a|e|]]; simpl in *; try assumption.
  eapply no_csv_fetch_trans; [exact Hm | apply Hk].
Qed.

Lemma fetches_no_csv_for_each {A : Type} (l : list A) (body : A -> M unit) :
  (forall x, fetches_no_csv (body x)) -> fetches_no_csv (for_each l body).
Proof.
  intros Hb. induction l as [|x l IH]; simpl.
  - apply fetches_no_csv_ret.
  - apply fetches_no_csv_bind; [apply Hb | intros _; exact IH].
Qed.

Lemma fetches_no_csv_isdir (p : string) : fetches_no_csv (isdir p).
Proof. intro w. apply no_csv_fetch_refl. Qed.

Lemma fetches_no_csv_makedirs (p : string) : fetches_no_csv (makedirs p).
Proof. intro w. exists []. simpl. split; [now rewrite app_nil_r | constructor]. Qed.

Lemma fetches_no_csv_call (u d : string) : fetches_no_csv (subprocess_call u d).
Proof. intro w. exists []. simpl. split; [now rewrite app_nil_r | constructor]. Qed.

Lemma fetches_no_csv_get (web : string -> option string) (url : string) :
  endswith url ".csv" = false -> fetches_no_csv (getHtmlContent web url).
Proof.
  intros H w. exists [url]. unfold getHtmlContent.
  destruct (web url); simpl; (split; [reflexivity | constructor; [exact H | constructor]]).
Qed.

Lemma fetches_no_csv_areaManager l u d o t :
  fetches_no_csv (linkScanner_getAreaManagerPolygons l u d o t).
Proof.
  unfold linkScanner_getAreaManagerPolygons.
  destruct (areaManagerPolygonCsv l u d); apply fetches_no_csv_ret.
Qed.

Lemma fetches_no_csv_speedLimits l u d o t :
  fetches_no_csv (linkScanner_getMissingStateSpeedLimits l u d o t).
Proof.
  unfold linkScanner_getMissingStateSpeedLimits.
  apply fetches_no_csv_bind; [apply fetches_no_csv_lift | intros href].
  destruct (negb (endswith href "-sl.csv")); [apply fetches_no_csv_ret|].
  apply fetches_no_csv_bind; [apply fetches_no_csv_lift | intros merged].
  apply fetches_no_csv_bind; [apply fetches_no_csv_isdir | intros b].
  apply fetches_no_csv_bind.
  - destruct (negb b); [apply fetches_no_csv_makedirs | apply fetches_no_csv_ret].
  - intros _. apply fetches_no_csv_call.
Qed.

Lemma processContent_fetches_no_csv (web : string -> option string)
  (fuel : nat) (htmlContent htmlUrl : string) (linkDepth : nat)
  (stateOutputDir : string) (currTimestamp : Dt.datetime) (recurse : bool) :
  fetches_no_csv
    (processContent web fuel htmlContent htmlUrl linkDepth stateOutputDir
       currTimestamp recurse).
Proof.
  revert htmlContent htmlUrl linkDepth.
  induction fuel as [|fuel IH]; intros htmlContent htmlUrl linkDepth.
  - apply fetches_no_csv_lift.
  - cbn [processContent getContentLinkScanners].
    apply fetches_no_csv_bind; [apply fetches_no_csv_ret | intros _].
    apply fetches_no_csv_bind; [apply fetches_no_csv_lift | intros htmlLinks].
    apply fetches_no_csv_bind.
    + apply fetches_no_csv_for_each. intros l.
      cbn [for_each]. apply fetches_no_csv_bind; [apply fetches_no_csv_areaManager|].
      intros _. apply fetches_no_csv_bind; [apply fetches_no_csv_speedLimits|].
      intros _. apply fetches_no_csv_ret.
    + intros _. destruct recurse; [|apply fetches_no_csv_ret].
      generalize htmlUrl. clear htmlUrl.
      induction htmlLinks as [|l rest IHl]; intros htmlUrl.
      * apply fetches_no_csv_ret.
      * apply fetches_no_csv_bind; [apply fetches_no_csv_lift | intros [base newUrl]].
        destruct (endswith newUrl ".csv") eqn:Hcsv; [apply IHl|].
        apply fetches_no_csv_bind; [apply fetches_no_csv_get; exact Hcsv|].
        intros content.
        apply fetches_no_csv_bind; [apply IH | intros _; apply IHl].
Qed.

(** C8. Whatever the site, the depth reached and the page, a recursive
    traversal requests no locator that ends in [.csv]: every request of
    [processContent] comes after the test of line 221, so such a child is
    neither fetched nor descended into. *)
Theorem crawl_never_fetches_csv (web : string -> option string) (fuel : nat)
  (htmlContent htmlUrl : string) (linkDepth : nat) (stateOutputDir : string)
  (currTimestamp : Dt.datetime) (w : World) :
  no_csv_fetch w
    (fst (processContent web fuel htmlContent htmlUrl linkDepth stateOutputDir
            currTimestamp true w)).
Proof. apply processContent_fetches_no_csv. Qed.

(** On the two-level site the traversal completes: the page behind [ca/] is
    requested, the two CSV locators go to the File Processor and are not
    requested. *)
Example crawl_two_levels :
  processContent Scenario.deepWeb 2 Scenario.deepIndexPage Scenario.rootUrl 1
    "/out" Scenario.observed true Scenario.fresh
  = (mkWorld []
       ["/out/tx/20160720_203436/speed_limits";
        "/out/ca/20160720_203436/speed_limits"]
       ["http://example.org/states/ca/"]
       [("http://example.org/states/tx-sl.csv",
         "/out/tx/20160720_203436/speed_limits");
        ("http://example.org/states/ca/ca-sl.csv",
         "/out/ca/20160720_203436/speed_limits")],
     Ok tt).
Proof. vm_compute. reflexivity. Qed.

(** ** Strings: appending, cutting, replacing *)

Lemma app_nil_r_str (s : string) : s ++ "" = s.
Proof. induction s as [|c s IH]; simpl; [reflexivity | now rewrite IH]. Qed.

Lemma app_assoc_str (a b c : string) : (a ++ b) ++ c = a ++ (b ++ c).
Proof. induction a as [|x a IH]; simpl; [reflexivity | now rewrite IH]. Qed.

Lemma length_app_str (a b : string) :
  String.length (a ++ b) = String.length a + String.length b.
Proof. induction a as [|x a IH]; simpl; [reflexivity | now rewrite IH]. Qed.

Lemma take_app_exact (a b : string) : take (String.length a) (a ++ b) = a.
Proof. induction a as [|x a IH]; simpl; [now destruct b | now rewrite IH]. Qed.

Lemma drop_app_exact (a b : string) : drop (String.length a) (a ++ b) = b.
Proof. induction a as [|x a IH]; simpl; [reflexivity | exact IH]. Qed.

Lemma take_drop_str (n : nat) (s : string) : take n s ++ drop n s = s.
Proof.
  revert s. induction n as [|n IH]; intros [|c s]; simpl; try reflexivity.
  now rewrite IH.
Qed.

Lemma length_drop (n : nat) (s : string) :
  String.length (drop n s) = String.length s - n.
Proof.
  revert s. induction n as [|n IH]; intros [|c s]; simpl;
    try reflexivity; try lia; apply IH.
Qed.

Lemma endswith_app (a suf : string) : endswith (a ++ suf) suf = true.
Proof.
  unfold endswith. rewrite length_app_str.
  replace (String.length a + String.length suf - String.length suf)
    with (String.length a) by lia.
  rewrite drop_app_exact, String.eqb_refl.
  apply andb_true_iff. split; [apply Nat.leb_le; lia | reflexivity].
Qed.

Lemma endswith_split (s suf : string) :
  endswith s suf = true -> exists a, s = a ++ suf.
Proof.
  unfold endswith. intros H. apply andb_true_iff in H. destruct H as [_ H].
  apply String.eqb_eq in H.
  exists (take (String.length s - String.length suf) s).
  transitivity (take (String.length s - String.length suf) s
                ++ drop (String.length s - String.length suf) s).
  - symmetry. apply take_drop_str.
  - f_equal. exact H.
Qed.

Lemma prefix_app (p r : string) : String.prefix p (p ++ r) = true.
Proof. induction p as [|c p IH]; simpl; [now destruct r|].
  destruct (ascii_dec c c); [exact IH | congruence]. Qed.

Lemma prefix_split (p s : string) :
  String.prefix p s = true -> exists r, s = p ++ r.
Proof.
  revert s. induction p as [|c p IH]; intros s H.
  - exists s. reflexivity.
  - destruct s as [|d s]; simpl in H; [discriminate|].
    destruct (ascii_dec c d) as [->|]; [|discriminate].
    destruct (IH s H) as [r ->]. exists r. reflexivity.
Qed.

(** Cutting a suffix off by its length, the way the program does. *)
Lemma slice_to_strip_suffix (a suf : string) :
  slice_to (a ++ suf) (len (a ++ suf) - len suf) = a.
Proof.
  unfold slice_to, len. rewrite length_app_str.
  replace (Z.of_nat (String.length a + String.length suf)
           - Z.of_nat (String.length suf))%Z
    with (Z.of_nat (String.length a)) by lia.
  destruct (Z.of_nat (String.length a) <? 0)%Z eqn:E;
    [apply Z.ltb_lt in E; lia|].
  rewrite Z.min_l by lia. rewrite Nat2Z.id. apply take_app_exact.
Qed.

Lemma replace_app (old : ascii) (new a b : string) :
  replace old new (a ++ b) = replace old new a ++ replace old new b.
Proof.
  induction a as [|c a IH]; simpl; [reflexivity|].
  destruct (Ascii.eqb c old); rewrite IH; [now rewrite app_assoc_str | reflexivity].
Qed.

Lemma replace_absent (old : ascii) (new s : string) :
  contains old s = false -> replace old new s = s.
Proof.
  induction s as [|c s IH]; simpl; [reflexivity|]. intros H.
  apply orb_false_iff in H. destruct H as [Hc Hs].
  rewrite Hc, (IH Hs). reflexivity.
Qed.

Lemma all_chars_app (p : ascii -> bool) (a b : string) :
  all_chars p (a ++ b) = all_chars p a && all_chars p b.
Proof.
  induction a as [|c a IH]; simpl; [reflexivity|].
  rewrite IH. now rewrite andb_assoc.
Qed.

Lemma all_chars_not_contains (p : ascii -> bool) (c : ascii) (s : string) :
  all_chars p s = true -> p c = false -> contains c s = false.
Proof.
  intros Hs Hc. induction s as [|d s IH]; simpl in *; [reflexivity|].
  apply andb_true_iff in Hs. destruct Hs as [Hd Hs].
  rewrite (IH Hs), orb_false_r.
  destruct (Ascii.eqb_spec d c) as [->|]; [congruence | reflexivity].
Qed.

Lemma contains_app (c : ascii) (a b : string) :
  contains c (a ++ b) = contains c a || contains c b.
Proof.
  induction a as [|d a IH]; simpl; [reflexivity|].
  rewrite IH. now rewrite orb_assoc.
Qed.

(** ** Formatting dates *)

Lemma forallb_below (p : N -> bool) (k : N) :
  forallb p (map N.of_nat (seq 0 (N.to_nat k))) = true ->
  forall n, (n < k)%N -> p n = true.
Proof.
  intros H n Hn. rewrite forallb_forall in H. apply H.
  apply in_map_iff. exists (N.to_nat n). split; [apply N2Nat.id|].
  apply in_seq. lia.
Qed.

Lemma digit_is_digit (d : N) : (d < 10)%N -> Dt.is_digit_char (Dt.digit d) = true.
Proof.
  apply (forallb_below (fun d => Dt.is_digit_char (Dt.digit d)) 10%N).
  vm_compute. reflexivity.
Qed.

Lemma digit_val_digit (d : N) : (d < 10)%N -> Dt.digit_val (Dt.digit d) = Some d.
Proof.
  intros H.
  assert (E : (match Dt.digit_val (Dt.digit d) with
               | Some v => N.eqb v d
               | None => false
               end) = true).
  { revert d H.
    apply (forallb_below (fun d => match Dt.digit_val (Dt.digit d) with
                                   | Some v => N.eqb v d
                                   | None => false
                                   end) 10%N).
    vm_compute. reflexivity. }
  destruct (Dt.digit_val (Dt.digit d)); [|discriminate].
  apply N.eqb_eq in E. now subst.
Qed.

Lemma decimal_aux_digits (fuel : nat) (n : N) (acc : string) :
  all_chars Dt.is_digit_char acc = true ->
  all_chars Dt.is_digit_char (Dt.decimal_aux fuel n acc) = true.
Proof.
  revert n acc. induction fuel as [|fuel IH]; intros n acc Hacc; simpl.
  - exact Hacc.
  - assert (Hd : all_chars Dt.is_digit_char (String (Dt.digit (n mod 10)) acc)
                 = true).
    { simpl. rewrite Hacc, andb_true_r. apply digit_is_digit.
      apply N.mod_lt. discriminate. }
    destruct (n / 10 =? 0)%N; [exact Hd | apply IH; exact Hd].
Qed.

Lemma decimal_digits (n : N) : all_chars Dt.is_digit_char (Dt.decimal n) = true.
Proof. apply decimal_aux_digits. reflexivity. Qed.

Lemma pad2_digits (n : N) : all_chars Dt.is_digit_char (Dt.pad2 n) = true.
Proof.
  unfold Dt.pad2. destruct (n <? 10)%N; [simpl|]; apply decimal_digits.
Qed.

Lemma prettyPrintTimestamp_parts (t : Dt.datetime) :
  prettyPrintTimestamp t
  = Dt.decimal (Dt.year t) ++ "-" ++ Dt.pad2 (Dt.month t) ++ "-"
    ++ Dt.pad2 (Dt.day t) ++ " " ++ Dt.pad2 (Dt.hour t) ++ ":"
    ++ Dt.pad2 (Dt.minute t) ++ ":" ++ Dt.pad2 (Dt.second t) ++ " UTC".
Proof. reflexivity. Qed.

Lemma replace_digits (old : ascii) (new s : string) :
  all_chars Dt.is_digit_char s = true -> Dt.is_digit_char old = false ->
  replace old new s = s.
Proof.
  intros Hs Hc. apply replace_absent.
  exact (all_chars_not_contains _ _ _ Hs Hc).
Qed.

(** The directory token of an instant: the six fields, the date and the
    time separated by one underscore. *)
Lemma timestampDirName_fields (t : Dt.datetime) :
  timestampDirName t
  = Dt.decimal (Dt.year t) ++ Dt.pad2 (Dt.month t) ++ Dt.pad2 (Dt.day t)
    ++ "_" ++ Dt.pad2 (Dt.hour t) ++ Dt.pad2 (Dt.minute t)
    ++ Dt.pad2 (Dt.second t).
Proof.
  unfold timestampDirName. rewrite prettyPrintTimestamp_parts.
  pose proof (decimal_digits (Dt.year t)) as Hy.
  pose proof (pad2_digits (Dt.month t)) as Hmo.
  pose proof (pad2_digits (Dt.day t)) as Hd.
  pose proof (pad2_digits (Dt.hour t)) as Hh.
  pose proof (pad2_digits (Dt.minute t)) as Hmi.
  pose proof (pad2_digits (Dt.second t)) as Hs.
  set (Y := Dt.decimal (Dt.year t)) in *.
  set (Mo := Dt.pad2 (Dt.month t)) in *.
  set (D := Dt.pad2 (Dt.day t)) in *.
  set (H := Dt.pad2 (Dt.hour t)) in *.
  set (Mi := Dt.pad2 (Dt.minute t)) in *.
  set (S := Dt.pad2 (Dt.second t)) in *.
  pose (R := fun s => replace ":" "" (replace "-" "" (replace " " "_" s))).
  assert (Rapp : forall a b, R (a ++ b) = R a ++ R b).
  { intros a b. unfold R. now rewrite !replace_app. }
  assert (Rdig : forall s, all_chars Dt.is_digit_char s = true -> R s = s).
  { intros s Hd'. unfold R.
    rewrite (replace_digits " " "_" s Hd' eq_refl).
    rewrite (replace_digits "-" "" s Hd' eq_refl).
    apply (replace_digits ":" "" s Hd' eq_refl). }
  assert (E : R (Y ++ "-" ++ Mo ++ "-" ++ D ++ " " ++ H ++ ":" ++ Mi ++ ":"
                 ++ S ++ " UTC")
              = (Y ++ Mo ++ D ++ "_" ++ H ++ Mi ++ S) ++ "_UTC").
  { rewrite !Rapp.
    rewrite (Rdig Y Hy), (Rdig Mo Hmo), (Rdig D Hd), (Rdig H Hh),
      (Rdig Mi Hmi), (Rdig S Hs).
    change (R "-") with "". change (R " ") with "_". change (R ":") with "".
    change (R " UTC") with "_UTC".
    repeat (rewrite app_assoc_str; simpl). reflexivity. }
  unfold R in E.
  cbv zeta. rewrite E. apply slice_to_strip_suffix.
Qed.

(** ** Splitting at a separator *)

Lemma split_not_nil (c : ascii) (s : string) : split c s <> [].
Proof.
  destruct s as [|d s]; simpl; [discriminate|].
  destruct (Ascii.eqb d c); [discriminate|].
  destruct (split c s); discriminate.
Qed.

Lemma split_absent (c : ascii) (s : string) :
  contains c s = false -> split c s = [s].
Proof.
  induction s as [|d s IH]; simpl; [reflexivity|]. intros H.
  apply orb_false_iff in H. destruct H as [Hd Hs].
  rewrite Hd, (IH Hs). reflexivity.
Qed.

(** Text without the separator, appended to [x], extends the last piece. *)
Lemma split_app_tail (c : ascii) (x y : string) :
  contains c y = false ->
  split c (x ++ y)
  = (removelast (split c x) ++ [(last (split c x) "" ++ y)%string])%list.
Proof.
  intros Hy. induction x as [|d x IH].
  - simpl. apply split_absent. exact Hy.
  - simpl. destruct (Ascii.eqb d c).
    + rewrite IH. pose proof (split_not_nil c x) as Hne.
      destruct (split c x) as [|t ts]; [congruence|]. reflexivity.
    + rewrite IH. pose proof (split_not_nil c x) as Hne.
      destruct (split c x) as [|t ts]; [congruence|].
      destruct ts as [|t2 ts]; reflexivity.
Qed.

Lemma last_split_app (c : ascii) (x y : string) :
  contains c y = false ->
  last (split c (x ++ y)) "" = last (split c x) "" ++ y.
Proof.
  intros Hy. rewrite (split_app_tail c x y Hy). apply last_last.
Qed.

(** ** The speed-limit scanner *)

Lemma mergeParentAndRelativeUrl_app (parentUrl relativeUrl mergedUrl : string) :
  mergeParentAndRelativeUrl parentUrl relativeUrl = Ok mergedUrl ->
  exists base, mergedUrl = base ++ relativeUrl.
Proof.
  unfold mergeParentAndRelativeUrl.
  destruct (endswith parentUrl "/").
  - intros H. inversion H. now exists parentUrl.
  - destruct (removeLastToken parentUrl) as [base| |]; simpl; intros H;
      inversion H. now exists base.
Qed.

(** The examples of the specification: the state identifier of
    [http://example.org/states/tx-sl.csv] is [tx], the instant
    [2016-07-20 20:34:36 UTC] is formatted as [20160720_203436], and the
    scanner works in [<outputRoot>/tx/20160720_203436/speed_limits]. *)
Example speed_limit_tx :
  slice_to (last (split "/" "http://example.org/states/tx-sl.csv") "")
    (len (last (split "/" "http://example.org/states/tx-sl.csv") "")
     - len "-sl.csv") = "tx"
  /\ prettyPrintTimestamp Scenario.observed = "2016-07-20 20:34:36 UTC"
  /\ timestampDirName Scenario.observed = "20160720_203436"
  /\ linkScanner_getMissingStateSpeedLimits
       (Scenario.anchor "tx-sl.csv" "TX") "http://example.org/states/" 1
       "/out" Scenario.observed Scenario.fresh
     = (mkWorld [] ["/out/tx/20160720_203436/speed_limits"] []
          [("http://example.org/states/tx-sl.csv",
            "/out/tx/20160720_203436/speed_limits")],
        Ok tt)
  /\ linkScanner_getMissingStateSpeedLimits
       (Scenario.anchor "tx-sl.csv" "TX")
       "http://example.org/states/index.html" 1
       "/out" Scenario.observed Scenario.fresh
     = (mkWorld [] ["/out/tx/20160720_203436/speed_limits"] []
          [("http://example.org/states/tx-sl.csv",
            "/out/tx/20160720_203436/speed_limits")],
        Ok tt).
Proof. vm_compute. repeat split. Qed.

(** ** Trimming a locator to its last slash *)

Lemma contains_drop_absent (c : ascii) (n : nat) (s : string) :
  (forall j, n <= j -> String.get j s <> Some c) ->
  contains c (drop n s) = false.
Proof.
  revert n. induction s as [|d s IH]; intros n H.
  - destruct n; reflexivity.
  - destruct n as [|n].
    + simpl. apply orb_false_iff. split.
      * destruct (Ascii.eqb_spec d c) as [->|]; [|reflexivity].
        exfalso. apply (H 0); [lia | reflexivity].
      * apply (IH 0). intros j Hj. exact (H (S j) ltac:(lia)).
    + simpl. apply IH. intros j Hj. exact (H (S j) ltac:(lia)).
Qed.

Lemma take_ends_with (c : ascii) (k : nat) (s : string) :
  String.get k s = Some c -> endswith (take (S k) s) (str1 c) = true.
Proof.
  intros H.
  assert (E : take (S k) s = take k s ++ str1 c).
  { revert s H. induction k as [|k IH]; intros [|d s] H; try discriminate.
    - simpl in H. inversion H. now destruct s.
    - simpl in H. change (take (S (S k)) (String d s))
        with (String d (take (S k) s)).
      rewrite (IH s H). reflexivity. }
  rewrite E. apply endswith_app.
Qed.

Lemma removeLastToken_from_spec (i : nat) (url base : string) :
  (forall j, i < j -> String.get j url <> Some "/"%char) ->
  removeLastToken_from i url = Ok base ->
  exists tail,
    url = base ++ tail /\ endswith base "/" = true
    /\ contains "/" tail = false.
Proof.
  induction i as [|i IH]; intros Hafter H;
    cbn [removeLastToken_from] in H; [discriminate|].
  destruct (String.get (S i) url) as [c|] eqn:Hget.
  - destruct (Ascii.eqb_spec c "/"%char) as [->|Hc].
    + assert (Hb : base = take (S (S i)) url) by congruence.
      rewrite Hb. clear H Hb IH.
      exists (drop (S (S i)) url). split; [|split].
      * symmetry. apply take_drop_str.
      * apply (take_ends_with "/"). exact Hget.
      * apply contains_drop_absent. intros j Hj. apply Hafter. lia.
    + apply IH; [|exact H]. intros j Hj.
      destruct (Nat.eq_dec j (S i)) as [->|]; [congruence | apply Hafter; lia].
  - apply IH; [|exact H]. intros j Hj.
    destruct (Nat.eq_dec j (S i)) as [->|]; [congruence | apply Hafter; lia].
Qed.

Lemma get_beyond (j : nat) (s : string) :
  String.length s <= j -> String.get j s = None.
Proof.
  revert j. induction s as [|c s IH]; intros j H; [now destruct j|].
  destruct j as [|j]; simpl in *; [lia | apply IH; lia].
Qed.

(** [removeLastToken] returns the locator up to and including its last
    slash. *)
Lemma removeLastToken_spec (url base : string) :
  removeLastToken url = Ok base ->
  exists tail,
    url = base ++ tail /\ endswith base "/" = true
    /\ contains "/" tail = false.
Proof.
  apply removeLastToken_from_spec. intros j Hj.
  rewrite get_beyond by lia. discriminate.
Qed.

(** ** Parsing what [strftime] wrote *)

Lemma read_digits_app (k : nat) (s rest : string) (acc v : N) :
  Dt.read_digits k s acc = Some (v, "") ->
  Dt.read_digits k (s ++ rest) acc = Some (v, rest).
Proof.
  revert s acc. induction k as [|k IH]; intros s acc H; simpl in *.
  - inversion H. reflexivity.
  - destruct s as [|c s]; [discriminate|]. simpl.
    destruct (Dt.digit_val c); [apply IH; exact H | discriminate].
Qed.

Lemma read_year (y : N) (rest : string) :
  (1000 <= y <= 9999)%N ->
  Dt.read_digits 4 (Dt.decimal y ++ rest) 0 = Some (y, rest).
Proof.
  intros [Hlo Hhi]. apply read_digits_app.
  assert (E : ((y <? 1000)%N
               || match Dt.read_digits 4 (Dt.decimal y) 0 with
                  | Some (v, r) => (v =? y)%N && String.eqb r ""
                  | None => false
                  end) = true).
  { apply (forallb_below
             (fun y => (y <? 1000)%N
                       || match Dt.read_digits 4 (Dt.decimal y) 0 with
                          | Some (v, r) => (v =? y)%N && String.eqb r ""
                          | None => false
                          end) 10000%N); [vm_compute; reflexivity | lia]. }
  destruct (N.ltb_spec y 1000); [lia|]. cbn [orb] in E.
  destruct (Dt.read_digits 4 (Dt.decimal y) 0) as [[v r]|]; [|discriminate].
  apply andb_true_iff in E. destruct E as [Ev Er].
  apply N.eqb_eq in Ev. apply String.eqb_eq in Er. now subst.
Qed.

Lemma read_pad2 (n : N) (rest : string) :
  (n < 100)%N ->
  Dt.read_digits 2 (Dt.pad2 n ++ rest) 0 = Some (n, rest).
Proof.
  intros Hn. apply read_digits_app.
  assert (E : match Dt.read_digits 2 (Dt.pad2 n) 0 with
              | Some (v, r) => (v =? n)%N && String.eqb r ""
              | None => false
              end = true).
  { apply (forallb_below
             (fun n => match Dt.read_digits 2 (Dt.pad2 n) 0 with
                       | Some (v, r) => (v =? n)%N && String.eqb r ""
                       | None => false
                       end) 100%N); [vm_compute; reflexivity | exact Hn]. }
  destruct (Dt.read_digits 2 (Dt.pad2 n) 0) as [[v r]|]; [|discriminate].
  apply andb_true_iff in E. destruct E as [Ev Er].
  apply N.eqb_eq in Ev. apply String.eqb_eq in Er. now subst.
Qed.

Lemma valid_bounds (t : Dt.datetime) :
  Dt.valid t = true ->
  (1 <= Dt.year t <= 9999 /\ Dt.month t < 100 /\ Dt.day t < 100
   /\ Dt.hour t < 100 /\ Dt.minute t < 100 /\ Dt.second t < 100)%N.
Proof.
  unfold Dt.valid. intros H.
  repeat (apply andb_true_iff in H; destruct H as [H ?]).
  repeat match goal with
         | h : (_ <=? _)%N = true |- _ => apply N.leb_le in h
         | h : (_ <? _)%N = true |- _ => apply N.ltb_lt in h
         end.
  assert (Dt.days_in_month (Dt.year t) (Dt.month t) <= 31)%N.
  { unfold Dt.days_in_month.
    destruct (Dt.month t =? 2)%N; [destruct (Dt.is_leap _); lia|].
    destruct (_ || _); lia. }
  lia.
Qed.

(** Reading one digit more than there are fails on what follows them. *)
Lemma read_digits_stop (k : nat) (s rest : string) (c : ascii) (acc v : N) :
  Dt.read_digits k s acc = Some (v, "") ->
  Dt.digit_val c = None ->
  Dt.read_digits (S k) (s ++ String c rest) acc = None.
Proof.
  revert s acc. induction k as [|k IH]; intros s acc H Hc.
  - cbn [Dt.read_digits] in H. inversion H. subst. simpl. now rewrite Hc.
  - destruct s as [|d s]; [discriminate|].
    cbn [Dt.read_digits] in H.
    change (String d s ++ String c rest) with (String d (s ++ String c rest)).
    cbn [Dt.read_digits].
    destruct (Dt.digit_val d); [|discriminate].
    exact (IH s _ H Hc).
Qed.

(** A year from 100 on, written in decimal and followed by a hyphen, is
    read back: with four digits at once, with three after the attempt at
    four has met the hyphen. *)
Lemma read_year_digits_written (y : N) (rest : string) :
  (100 <= y <= 9999)%N ->
  Dt.read_year_digits (Dt.decimal y ++ String "-" rest)
  = Some (y, String "-" rest).
Proof.
  intros [Hlo Hhi]. unfold Dt.read_year_digits.
  destruct (N.ltb_spec y 1000) as [Hsmall|Hbig].
  - assert (E : ((y <? 100)%N
                 || match Dt.read_digits 3 (Dt.decimal y) 0 with
                    | Some (v, r) => (v =? y)%N && String.eqb r ""
                    | None => false
                    end) = true).
    { apply (forallb_below
               (fun y => (y <? 100)%N
                         || match Dt.read_digits 3 (Dt.decimal y) 0 with
                            | Some (v, r) => (v =? y)%N && String.eqb r ""
                            | None => false
                            end) 1000%N); [vm_compute; reflexivity | lia]. }
    destruct (N.ltb_spec y 100); [lia|]. cbn [orb] in E.
    destruct (Dt.read_digits 3 (Dt.decimal y) 0) as [[v r]|] eqn:R;
      [|discriminate].
    apply andb_true_iff in E. destruct E as [Ev Er].
    apply N.eqb_eq in Ev. apply String.eqb_eq in Er. subst.
    rewrite (read_digits_stop 3 _ rest "-" 0 y R eq_refl).
    exact (read_digits_app 3 _ (String "-" rest) 0 y R).
  - rewrite (read_year y (String "-" rest)) by lia. reflexivity.
Qed.

(** The text [Y-MM-DD HH:MM:SS] written for a valid value with a year from
    100 on is read back field by field; what is left decides the fraction
    and the zone. *)
Lemma dateutil_parse_written_from_100 (t : Dt.datetime) (rest : string) :
  Dt.valid t = true -> (100 <= Dt.year t)%N ->
  Dt.dateutil_parse
    (Dt.decimal (Dt.year t) ++ "-" ++ Dt.pad2 (Dt.month t) ++ "-"
     ++ Dt.pad2 (Dt.day t) ++ " " ++ Dt.pad2 (Dt.hour t) ++ ":"
     ++ Dt.pad2 (Dt.minute t) ++ ":" ++ Dt.pad2 (Dt.second t) ++ rest)
  = Dt.obind (Dt.read_fraction rest) (fun '(us, s) =>
    Dt.obind (Dt.read_zone s) (fun z =>
      let t' := Dt.mkdatetime (Dt.year t) (Dt.month t) (Dt.day t) (Dt.hour t)
                  (Dt.minute t) (Dt.second t) us z in
      if Dt.valid t' then Some t' else None)).
Proof.
  intros Hv Hy. destruct (valid_bounds t Hv) as [Hyr [Hmo [Hd [Hh [Hmi Hs]]]]].
  unfold Dt.dateutil_parse.
  change (Dt.decimal (Dt.year t) ++ "-" ++ ?r)
    with (Dt.decimal (Dt.year t) ++ String "-" r).
  rewrite read_year_digits_written by lia.
  cbn [Dt.obind Dt.expect append Ascii.eqb Bool.eqb].
  rewrite read_pad2 by assumption.
  cbn [Dt.obind Dt.expect append Ascii.eqb Bool.eqb].
  rewrite read_pad2 by assumption.
  cbn [Dt.obind Dt.expect append Ascii.eqb Bool.eqb].
  rewrite read_pad2 by assumption.
  cbn [Dt.obind Dt.expect append Ascii.eqb Bool.eqb].
  rewrite read_pad2 by assumption.
  cbn [Dt.obind Dt.expect append Ascii.eqb Bool.eqb].
  rewrite read_pad2 by assumption.
  cbn [Dt.obind]. reflexivity.
Qed.

(** The same for a year of four digits. *)
Lemma dateutil_parse_written (t : Dt.datetime) (rest : string) :
  Dt.valid t = true -> (1000 <= Dt.year t)%N ->
  Dt.dateutil_parse
    (Dt.decimal (Dt.year t) ++ "-" ++ Dt.pad2 (Dt.month t) ++ "-"
     ++ Dt.pad2 (Dt.day t) ++ " " ++ Dt.pad2 (Dt.hour t) ++ ":"
     ++ Dt.pad2 (Dt.minute t) ++ ":" ++ Dt.pad2 (Dt.second t) ++ rest)
  = Dt.obind (Dt.read_fraction rest) (fun '(us, s) =>
    Dt.obind (Dt.read_zone s) (fun z =>
      let t' := Dt.mkdatetime (Dt.year t) (Dt.month t) (Dt.day t) (Dt.hour t)
                  (Dt.minute t) (Dt.second t) us z in
      if Dt.valid t' then Some t' else None)).
Proof.
  intros Hv Hy. apply dateutil_parse_written_from_100; [exact Hv | lia].
Qed.

Lemma dateutil_parse_valid (s : string) (p : Dt.datetime) :
  Dt.dateutil_parse s = Some p -> Dt.valid p = true.
Proof.
  unfold Dt.dateutil_parse, Dt.obind.
  repeat match goal with
         | |- match ?x with Some _ => _ | None => _ end = _ -> _ =>
             destruct x as [?|]; [|discriminate]
         | |- (let '(_, _) := ?x in _) = _ -> _ => destruct x
         end.
  cbv zeta.
  match goal with
  | |- (if Dt.valid ?t then _ else _) = _ -> _ =>
      destruct (Dt.valid t) eqn:Hv; [|discriminate]
  end.
  intros H. inversion H. subst. exact Hv.
Qed.

Lemma parseTimestamp_ok (s : string) (t : Dt.datetime) :
  parseTimestamp s = Ok t ->
  Dt.valid t = true /\ Dt.tzinfo t = Some Dt.pytz_utc.
Proof.
  unfold parseTimestamp, Dt.localize.
  destruct (Dt.dateutil_parse s) as [p|] eqn:Hp; [|discriminate].
  destruct (Dt.tzinfo p); [discriminate|].
  intros H. inversion H. split; [|reflexivity].
  exact (dateutil_parse_valid s p Hp).
Qed.

Lemma valid_whole_second (t : Dt.datetime) (z : option Dt.tz) :
  Dt.valid t = true ->
  Dt.valid (Dt.mkdatetime (Dt.year t) (Dt.month t) (Dt.day t) (Dt.hour t)
              (Dt.minute t) (Dt.second t) 0 z) = true.
Proof.
  unfold Dt.valid. cbn [Dt.year Dt.month Dt.day Dt.hour Dt.minute Dt.second
                          Dt.microsecond].
  intros H. apply andb_true_iff in H. destruct H as [H _].
  rewrite H. reflexivity.
Qed.

(** The display text ends in its zone label; without the label it is read
    back to the whole second. *)
Lemma parseTimestamp_display (t : Dt.datetime) :
  Dt.valid t = true -> (100 <= Dt.year t)%N ->
  Dt.tzinfo t = Some Dt.pytz_utc ->
  endswith (prettyPrintTimestamp t) " UTC" = true
  /\ parseTimestamp
       (slice_to (prettyPrintTimestamp t)
          (len (prettyPrintTimestamp t) - len " UTC"))
     = Ok (whole_second t).
Proof.
  intros Hv Hy Hz.
  assert (E : prettyPrintTimestamp t
              = (Dt.decimal (Dt.year t) ++ "-" ++ Dt.pad2 (Dt.month t) ++ "-"
                 ++ Dt.pad2 (Dt.day t) ++ " " ++ Dt.pad2 (Dt.hour t) ++ ":"
                 ++ Dt.pad2 (Dt.minute t) ++ ":" ++ Dt.pad2 (Dt.second t)
                 ++ "") ++ " UTC").
  { rewrite prettyPrintTimestamp_parts.
    repeat (rewrite app_assoc_str; simpl). reflexivity. }
  split.
  - rewrite E. apply endswith_app.
  - rewrite E, slice_to_strip_suffix. unfold parseTimestamp.
    rewrite (dateutil_parse_written_from_100 t "" Hv Hy).
    cbn [Dt.read_fraction Dt.obind Dt.read_zone String.eqb].
    cbv zeta. rewrite (valid_whole_second t _ Hv).
    unfold whole_second. rewrite Hz. reflexivity.
Qed.

(** C4, as stated, fails: the instant parsed from
    [2016-07-20 20:34:36.844030] is displayed as [2016-07-20 20:34:36 UTC];
    parsing that text again does not give the instant back, and the text
    before the zone label gives 20:34:36.000000, another instant.  And an
    instant of the year 50, parsed from [0050-07-20 20:34:36], is displayed
    with the year as [50], from which the year 50 is not read back. *)
Lemma display_roundtrip_fails :
  parseTimestamp "2016-07-20 20:34:36.844030" = Ok Scenario.observed
  /\ prettyPrintTimestamp Scenario.observed = "2016-07-20 20:34:36 UTC"
  /\ parseTimestamp "2016-07-20 20:34:36 UTC"
     = Raise (ValueError "Could not parse timestamp from HTML")
  /\ parseTimestamp "2016-07-20 20:34:36" = Ok Scenario.recorded
  /\ Scenario.recorded <> Scenario.observed
  /\ ~ (forall s t, parseTimestamp s = Ok t ->
                    parseTimestamp (prettyPrintTimestamp t) = Ok t)
  /\ parseTimestamp "0050-07-20 20:34:36"
     = Ok (Dt.mkdatetime 50 7 20 20 34 36 0 (Some Dt.pytz_utc))
  /\ prettyPrintTimestamp
       (Dt.mkdatetime 50 7 20 20 34 36 0 (Some Dt.pytz_utc))
     = "50-07-20 20:34:36 UTC"
  /\ parseTimestamp "50-07-20 20:34:36"
     <> Ok (Dt.mkdatetime 50 7 20 20 34 36 0 (Some Dt.pytz_utc)).
Proof.
  split; [vm_compute; reflexivity|].
  split; [vm_compute; reflexivity|].
  split; [vm_compute; reflexivity|].
  split; [vm_compute; reflexivity|].
  split; [discriminate|].
  split.
  - intros H.
    specialize (H "2016-07-20 20:34:36.844030" Scenario.observed eq_refl).
    vm_compute in H. discriminate.
  - split; [vm_compute; reflexivity|].
    split; [vm_compute; reflexivity|].
    vm_compute. discriminate.
Qed.

(** C4, amended. For a text that [parseTimestamp] accepts, with a year from
    100 on: the display text of the parsed instant ends in the zone label
    [ UTC], and the text before that label is accepted by [parseTimestamp]
    and gives the parsed instant cut to the whole second, which is the
    parsed instant itself exactly when it has no fraction of a second. *)
Theorem display_reparse_whole_second (s : string) (t : Dt.datetime) :
  parseTimestamp s = Ok t ->
  (100 <= Dt.year t)%N ->
  endswith (prettyPrintTimestamp t) " UTC" = true
  /\ parseTimestamp
       (slice_to (prettyPrintTimestamp t)
          (len (prettyPrintTimestamp t) - len " UTC"))
     = Ok (whole_second t)
  /\ (whole_second t = t <-> Dt.microsecond t = 0%N).
Proof.
  intros Hs Hy. destruct (parseTimestamp_ok s t Hs) as [Hv Hz].
  destruct (parseTimestamp_display t Hv Hy Hz) as [H1 H2].
  split; [exact H1|]. split; [exact H2|].
  unfold whole_second. destruct t as [y mo d h mi sec us z]. simpl. split.
  - intros E. inversion E. reflexivity.
  - intros ->. reflexivity.
Qed.

Lemma display_reparse_whole_second_witness :
  parseTimestamp "2016-07-20 20:34:36.844030" = Ok Scenario.observed
  /\ whole_second Scenario.observed = Scenario.recorded
  /\ endswith (prettyPrintTimestamp Scenario.observed) " UTC" = true
  /\ parseTimestamp
       (slice_to (prettyPrintTimestamp Scenario.observed)
          (len (prettyPrintTimestamp Scenario.observed) - len " UTC"))
     = Ok (whole_second Scenario.observed)
  /\ (whole_second Scenario.observed = Scenario.observed
      <-> Dt.microsecond Scenario.observed = 0%N).
Proof.
  split; [vm_compute; reflexivity|].
  split; [reflexivity|].
  apply (display_reparse_whole_second "2016-07-20 20:34:36.844030"
           Scenario.observed).
  - vm_compute. reflexivity.
  - vm_compute. discriminate.
Defined.

(** ** Running again after a recorded run *)

Lemma compare_refl (t : Dt.datetime) : Dt.compare t t = Eq.
Proof.
  unfold Dt.compare. induction (Dt.fields t) as [|a l IH]; simpl;
    [reflexivity | now rewrite N.compare_refl].
Qed.

(** When the observed instant has no fraction of a second, the entry a
    completed run records is read back as that instant, and the gate
    returns false on it. *)
Lemma rerun_whole_second_gate_false (t : Dt.datetime) (w : World) :
  Dt.valid t = true -> (1000 <= Dt.year t)%N ->
  Dt.tzinfo t = Some Dt.pytz_utc -> Dt.microsecond t = 0%N ->
  archive w = [] ->
  let w' := fst (writeTimestampToArchive t w) in
  getPreviousDataTimestamp w' = (w', Ok (Some t))
  /\ _needToDoRun (Some t) t = Ok false.
Proof.
  intros Hv Hy Hz Hus Harch. cbv zeta. split.
  - unfold writeTimestampToArchive, touch, getPreviousDataTimestamp.
    rewrite Harch. cbn [existsb fst archive app].
    assert (E : Dt.strftime "%Y-%m-%d %H:%M:%S.timestamp" t
                = (Dt.decimal (Dt.year t) ++ "-" ++ Dt.pad2 (Dt.month t) ++ "-"
                   ++ Dt.pad2 (Dt.day t) ++ " " ++ Dt.pad2 (Dt.hour t) ++ ":"
                   ++ Dt.pad2 (Dt.minute t) ++ ":" ++ Dt.pad2 (Dt.second t)
                   ++ "") ++ ".timestamp").
    { change (Dt.strftime "%Y-%m-%d %H:%M:%S.timestamp" t)
        with (Dt.decimal (Dt.year t) ++ "-" ++ Dt.pad2 (Dt.month t) ++ "-"
              ++ Dt.pad2 (Dt.day t) ++ " " ++ Dt.pad2 (Dt.hour t) ++ ":"
              ++ Dt.pad2 (Dt.minute t) ++ ":" ++ Dt.pad2 (Dt.second t)
              ++ ".timestamp").
      repeat (rewrite app_assoc_str; simpl). reflexivity. }
    rewrite E. cbn [scan_archive]. rewrite slice_to_strip_suffix.
    rewrite endswith_app. unfold parseTimestamp.
    rewrite (dateutil_parse_written t "" Hv Hy).
    cbn [Dt.read_fraction Dt.obind Dt.read_zone String.eqb].
    cbv zeta. rewrite (valid_whole_second t _ Hv).
    cbn [Dt.localize Dt.tzinfo rbind negb app Dt.py_max fold_left
           Dt.year Dt.month Dt.day Dt.hour Dt.minute Dt.second Dt.microsecond].
    destruct t as [y mo d h mi sec us z]. simpl in Hz, Hus. subst.
    reflexivity.
  - apply needToDoRun_not_newer. rewrite compare_refl. discriminate.
Qed.

(** ** Percent-escaping and relative resolution *)

Lemma forall_ascii (p : ascii -> bool) :
  forallb p (map ascii_of_nat (seq 0 256)) = true -> forall c, p c = true.
Proof.
  intros H c. rewrite forallb_forall in H. apply H.
  apply in_map_iff. exists (nat_of_ascii c). split.
  - apply ascii_nat_embedding.
  - apply in_seq. pose proof (nat_ascii_bounded c). lia.
Qed.

Lemma ascii_implies (p q : ascii -> bool) :
  forallb (fun c => negb (p c) || q c) (map ascii_of_nat (seq 0 256)) = true ->
  forall c, p c = true -> q c = true.
Proof.
  intros H c Hp. pose proof (forall_ascii _ H c) as E. cbv beta in E.
  rewrite Hp in E. exact E.
Qed.

Lemma all_chars_impl (p q : ascii -> bool) (s : string) :
  (forall c, p c = true -> q c = true) ->
  all_chars p s = true -> all_chars q s = true.
Proof.
  intros Hpq. induction s as [|c s IH]; [reflexivity|].
  cbn [all_chars]. intros H. apply andb_true_iff in H. destruct H as [Hc Hs].
  now rewrite (Hpq c Hc), (IH Hs).
Qed.

Lemma fold_quote_app (l : list nat) (acc : string) :
  fold_right (fun b acc => Url.quote_byte b ++ acc) acc l
  = fold_right (fun b acc => Url.quote_byte b ++ acc) "" l ++ acc.
Proof.
  induction l as [|b l IH]; [reflexivity|].
  cbn [fold_right]. rewrite IH, app_assoc_str. reflexivity.
Qed.

(** One character under [quote] is that character percent-escaped. *)
Lemma quote_char_escaped (c : ascii) :
  fold_right (fun b acc => Url.quote_byte b ++ acc) "" (Url.utf8 c)
  = percent_escaped_char c.
Proof.
  apply String.eqb_eq.
  apply (forall_ascii
           (fun c => String.eqb
                       (fold_right (fun b acc => Url.quote_byte b ++ acc) ""
                          (Url.utf8 c))
                       (percent_escaped_char c))).
  vm_compute. reflexivity.
Qed.

(** [quote] is percent-escaping. *)
Lemma quote_is_percent_escaped (s : string) :
  Url.quote s = percent_escaped s.
Proof.
  induction s as [|c s IH]; [reflexivity|].
  cbn [Url.quote percent_escaped].
  rewrite fold_quote_app, quote_char_escaped, IH. reflexivity.
Qed.

Lemma percent_escaped_app (a b : string) :
  percent_escaped (a ++ b) = percent_escaped a ++ percent_escaped b.
Proof.
  induction a as [|c a IH]; [reflexivity|].
  cbn [append percent_escaped]. rewrite IH, app_assoc_str. reflexivity.
Qed.

Lemma percent_escaped_char_shape (c : ascii) :
  percent_escaped_char c = String c ""
  \/ exists r, percent_escaped_char c = String "%" r.
Proof.
  unfold percent_escaped_char.
  destruct (stands_for_itself c); [now left | right].
  destruct (N_of_ascii c <? 128)%N; unfold percent_byte; cbn [append];
    eexists; reflexivity.
Qed.

Lemma percent_escaped_empty (s : string) :
  percent_escaped s = "" -> s = "".
Proof.
  destruct s as [|c s]; [reflexivity|]. cbn [percent_escaped].
  destruct (percent_escaped_char_shape c) as [-> | [r ->]]; discriminate.
Qed.

Lemma percent_escaped_dot (s : string) :
  percent_escaped s = "." -> s = ".".
Proof.
  destruct s as [|c s]; [discriminate|]. cbn [percent_escaped].
  destruct (percent_escaped_char_shape c) as [-> | [r ->]];
    cbn [append]; intros H; [|discriminate].
  inversion H as [[Hc Hs]]. now rewrite (percent_escaped_empty s Hs).
Qed.

Lemma percent_escaped_dots (s : string) :
  percent_escaped s = ".." -> s = "..".
Proof.
  destruct s as [|c s]; [discriminate|]. cbn [percent_escaped].
  destruct (percent_escaped_char_shape c) as [-> | [r ->]];
    cbn [append]; intros H; [|discriminate].
  inversion H as [[Hc Hs]]. now rewrite (percent_escaped_dot s Hs).
Qed.

(** Escaping leaves nothing that [urlsplit] or [urljoin] would act on,
    the slash apart. *)
Lemma percent_escaped_inert (s : string) :
  contains "/" s = false -> all_chars inert_char (percent_escaped s) = true.
Proof.
  induction s as [|c s IH]; [reflexivity|].
  cbn [contains percent_escaped]. intros H.
  apply orb_false_iff in H. destruct H as [Hc Hs].
  rewrite all_chars_app, (IH Hs), andb_true_r.
  pose proof (forall_ascii
                (fun c => Ascii.eqb c "/"
                          || all_chars inert_char (percent_escaped_char c))
                ltac:(vm_compute; reflexivity) c) as E.
  cbv beta in E. rewrite Hc in E. exact E.
Qed.

Lemma quote_char_unreserved (c : ascii) (acc : string) :
  unreserved c = true ->
  fold_right (fun b acc => Url.quote_byte b ++ acc) acc (Url.utf8 c)
  = String c acc.
Proof.
  intros H. rewrite fold_quote_app, quote_char_escaped.
  pose proof (ascii_implies unreserved
                (fun c => String.eqb (percent_escaped_char c) (str1 c))
                ltac:(vm_compute; reflexivity) c H) as E.
  cbv beta in E. apply String.eqb_eq in E. rewrite E. reflexivity.
Qed.

Lemma quote_unreserved (s : string) :
  all_chars unreserved s = true -> Url.quote s = s.
Proof.
  induction s as [|c s IH]; [reflexivity|]. intros H.
  cbn [all_chars] in H. apply andb_true_iff in H. destruct H as [Hc Hs].
  cbn [Url.quote]. rewrite (IH Hs). apply quote_char_unreserved. exact Hc.
Qed.

Lemma unreserved_inert (s : string) :
  all_chars unreserved s = true -> all_chars inert_char s = true.
Proof.
  apply all_chars_impl.
  apply ascii_implies. vm_compute. reflexivity.
Qed.

Lemma prefix_needs_first (c : ascii) (p s : string) :
  contains c s = false -> String.prefix (String c p) s = false.
Proof.
  destruct s as [|d s]; [reflexivity|]. simpl. intros H.
  apply orb_false_iff in H. destruct H as [Hd _].
  destruct (ascii_dec c d) as [->|]; [|reflexivity].
  now rewrite Ascii.eqb_refl in Hd.
Qed.

(** *** What [urlsplit] strips and removes *)

Lemma remove_unsafe_app (a b : string) :
  Url.remove_unsafe (a ++ b) = Url.remove_unsafe a ++ Url.remove_unsafe b.
Proof.
  induction a as [|c a IH]; [reflexivity|].
  cbn [append Url.remove_unsafe]. rewrite IH.
  now destruct (Url.unsafe_byte c).
Qed.

Lemma remove_unsafe_id (s : string) :
  all_chars (fun c => negb (Url.unsafe_byte c)) s = true ->
  Url.remove_unsafe s = s.
Proof.
  induction s as [|c s IH]; [reflexivity|].
  cbn [all_chars Url.remove_unsafe]. intros H.
  apply andb_true_iff in H. destruct H as [Hc Hs].
  apply negb_true_iff in Hc. now rewrite Hc, (IH Hs).
Qed.

Lemma lstrip_c0_id (s : string) :
  all_chars (fun c => negb (Url.c0_or_space c)) s = true ->
  Url.lstrip_c0 s = s.
Proof.
  destruct s as [|c s]; [reflexivity|].
  cbn [all_chars Url.lstrip_c0]. intros H.
  apply andb_true_iff in H. destruct H as [Hc _].
  apply negb_true_iff in Hc. now rewrite Hc.
Qed.

Lemma path_char_safe (s : string) :
  all_chars path_char s = true ->
  all_chars (fun c => negb (Url.unsafe_byte c)) s = true
  /\ all_chars (fun c => negb (Url.c0_or_space c)) s = true.
Proof.
  intros H. split; revert H; apply all_chars_impl;
    apply ascii_implies; vm_compute; reflexivity.
Qed.

Lemma host_char_safe (s : string) :
  all_chars host_char s = true ->
  all_chars (fun c => negb (Url.unsafe_byte c)) s = true.
Proof.
  apply all_chars_impl. apply ascii_implies. vm_compute. reflexivity.
Qed.

Lemma segment_char_safe (s : string) :
  all_chars segment_char s = true ->
  all_chars (fun c => negb (Url.unsafe_byte c)) s = true.
Proof.
  apply all_chars_impl. apply ascii_implies. vm_compute. reflexivity.
Qed.

Lemma inert_is_path (s : string) :
  all_chars inert_char s = true -> all_chars path_char s = true.
Proof.
  apply all_chars_impl. intros c H. unfold path_char. now rewrite H.
Qed.

(** *** Parsing a relative path and a directory locator *)

(** A relative reference of path characters that does not begin with two
    slashes is all path. *)
Lemma urlparse_path (p sch : string) :
  sch = "http" \/ sch = "https" ->
  all_chars path_char p = true ->
  String.prefix "//" p = false ->
  Url.urlparse p sch = Ok (Url.mkparse sch "" p "" "" "").
Proof.
  intros Hsch Hp Hnet.
  assert (Hc : forall c, path_char c = false -> contains c p = false)
    by (intros c; apply all_chars_not_contains; exact Hp).
  destruct (path_char_safe p Hp) as [Hsafe Hc0].
  assert (Hd : Url.remove_unsafe (Url.rstrip_c0 (Url.lstrip_c0 sch)) = sch)
    by (destruct Hsch as [-> | ->]; reflexivity).
  unfold Url.urlparse, Url.urlsplit. cbv zeta.
  rewrite (lstrip_c0_id p Hc0), (remove_unsafe_id p Hsafe), Hd.
  unfold Url.split_scheme.
  rewrite (Hc ":"%char eq_refl), Hnet.
  cbn [rbind]. rewrite (Hc "#"%char eq_refl), (Hc "?"%char eq_refl).
  cbn [rbind Url.s_scheme Url.s_path Url.s_netloc Url.s_query Url.s_fragment].
  rewrite (Hc ";"%char eq_refl), andb_false_r. reflexivity.
Qed.

Lemma dir_tail_excludes (c : ascii) (segs : list string) :
  segment_char c = false -> c <> "/"%char ->
  forallb plain_segment segs = true ->
  contains c (dir_tail segs) = false.
Proof.
  intros Hc Hslash. induction segs as [|s segs IH]; [reflexivity|].
  cbn [forallb dir_tail]. intros H. apply andb_true_iff in H.
  destruct H as [Hs Hrest]. unfold plain_segment in Hs.
  apply andb_true_iff in Hs. destruct Hs as [_ Hs].
  rewrite contains_app. rewrite (all_chars_not_contains _ _ _ Hs Hc).
  cbn [orb append contains]. rewrite (IH Hrest), orb_false_r.
  destruct (Ascii.eqb_spec "/"%char c); [congruence | reflexivity].
Qed.

Lemma dir_path_excludes (c : ascii) (segs : list string) :
  segment_char c = false -> c <> "/"%char ->
  forallb plain_segment segs = true ->
  contains c (dir_path segs) = false.
Proof.
  intros Hc Hslash H. unfold dir_path. cbn [append contains].
  rewrite (dir_tail_excludes c segs Hc Hslash H), orb_false_r.
  destruct (Ascii.eqb_spec "/"%char c); [congruence | reflexivity].
Qed.

Lemma dir_tail_safe (segs : list string) :
  forallb plain_segment segs = true ->
  Url.remove_unsafe (dir_tail segs) = dir_tail segs.
Proof.
  induction segs as [|s segs IH]; [reflexivity|].
  cbn [forallb dir_tail]. intros H. apply andb_true_iff in H.
  destruct H as [Hs Hrest]. unfold plain_segment in Hs.
  apply andb_true_iff in Hs. destruct Hs as [_ Hs].
  rewrite remove_unsafe_app, (remove_unsafe_id s (segment_char_safe s Hs)).
  cbn [append Url.remove_unsafe].
  change (Url.unsafe_byte "/") with false. cbv iota.
  now rewrite (IH Hrest).
Qed.

Lemma splitnetloc_host (host rest : string) :
  all_chars host_char host = true ->
  Url.splitnetloc (host ++ String "/" rest) = (host, String "/" rest).
Proof.
  induction host as [|c host IH]; [reflexivity|].
  cbn [all_chars]. intros H. apply andb_true_iff in H. destruct H as [Hc Hh].
  cbn [append Url.splitnetloc]. rewrite (IH Hh).
  pose proof (ascii_implies host_char
                (fun c => negb (Ascii.eqb c "/" || Ascii.eqb c "?"
                                || Ascii.eqb c "#"))
                ltac:(vm_compute; reflexivity) c Hc) as E.
  cbv beta in E. apply negb_true_iff in E. rewrite E. reflexivity.
Qed.

Lemma host_excludes (c : ascii) (host : string) :
  all_chars host_char host = true -> host_char c = false ->
  contains c host = false.
Proof. apply all_chars_not_contains. Qed.

Lemma urlparse_directory (sch host : string) (segs : list string) :
  sch = "http" \/ sch = "https" ->
  all_chars host_char host = true ->
  forallb plain_segment segs = true ->
  Url.urlparse (sch ++ "://" ++ host ++ dir_path segs) ""
  = Ok (Url.mkparse sch host (dir_path segs) "" "" "").
Proof.
  intros Hsch Hhost Hsegs.
  assert (Hclean : Url.remove_unsafe
                     (Url.lstrip_c0 (sch ++ "://" ++ host ++ dir_path segs))
                   = sch ++ "://" ++ host ++ dir_path segs).
  { assert (Hrest : Url.remove_unsafe (host ++ dir_path segs)
                    = host ++ dir_path segs).
    { rewrite remove_unsafe_app, (remove_unsafe_id host (host_char_safe host Hhost)).
      unfold dir_path. cbn [append Url.remove_unsafe].
      change (Url.unsafe_byte "/") with false. cbv iota.
      now rewrite (dir_tail_safe segs Hsegs). }
    destruct Hsch as [-> | ->].
    - change (Url.remove_unsafe (Url.lstrip_c0 ("http" ++ "://" ++ host ++ dir_path segs)))
        with ("http" ++ "://" ++ Url.remove_unsafe (host ++ dir_path segs)).
      now rewrite Hrest.
    - change (Url.remove_unsafe (Url.lstrip_c0 ("https" ++ "://" ++ host ++ dir_path segs)))
        with ("https" ++ "://" ++ Url.remove_unsafe (host ++ dir_path segs)).
      now rewrite Hrest. }
  assert (Hsplit : Url.urlsplit (sch ++ "://" ++ host ++ dir_path segs) ""
                   = Ok (Url.mksplit sch host (dir_path segs) "" "")).
  { unfold Url.urlsplit. cbv zeta. rewrite Hclean.
    assert (Hs : Url.split_scheme (sch ++ "://" ++ host ++ dir_path segs)
                   (Url.remove_unsafe (Url.rstrip_c0 (Url.lstrip_c0 "")))
                 = (sch, "//" ++ host ++ dir_path segs)).
    { destruct Hsch as [-> | ->]; reflexivity. }
    rewrite Hs. rewrite (prefix_app "//" (host ++ dir_path segs)).
    change (drop 2 ("//" ++ host ++ dir_path segs))
      with (host ++ String "/" (dir_tail segs)).
    rewrite (splitnetloc_host host (dir_tail segs) Hhost).
    rewrite (host_excludes "["%char host Hhost eq_refl).
    rewrite (host_excludes "]"%char host Hhost eq_refl).
    cbn [xorb rbind].
    change (String "/" (dir_tail segs)) with (dir_path segs).
    rewrite (dir_path_excludes "#"%char segs eq_refl ltac:(discriminate) Hsegs).
    rewrite (dir_path_excludes "?"%char segs eq_refl ltac:(discriminate) Hsegs).
    reflexivity. }
  unfold Url.urlparse. rewrite Hsplit.
  cbn [rbind Url.s_scheme Url.s_path Url.s_netloc Url.s_query Url.s_fragment].
  rewrite (dir_path_excludes ";"%char segs eq_refl ltac:(discriminate) Hsegs).
  rewrite andb_false_r. reflexivity.
Qed.

(** *** Resolving the segments *)

Lemma split_at_sep (c : ascii) (a s : string) :
  contains c a = false ->
  split c (a ++ String c s) = a :: split c s.
Proof.
  induction a as [|d a IH]; cbn [append contains]; intros H.
  - cbn [split]. now rewrite Ascii.eqb_refl.
  - apply orb_false_iff in H. destruct H as [Hd Ha].
    cbn [split]. rewrite Hd, (IH Ha). reflexivity.
Qed.

Lemma plain_segment_facts (s : string) :
  plain_segment s = true ->
  Url.nonempty s = true /\ s <> "." /\ s <> ".."
  /\ contains "/" s = false.
Proof.
  unfold plain_segment. intros H.
  repeat (apply andb_true_iff in H; destruct H as [H ?]).
  repeat match goal with
         | h : negb _ = true |- _ => apply negb_true_iff in h
         end.
  repeat split; try assumption.
  - now apply String.eqb_neq.
  - now apply String.eqb_neq.
  - eapply all_chars_not_contains; [eassumption | reflexivity].
Qed.

Lemma split_dir_tail (segs : list string) :
  forallb plain_segment segs = true ->
  split "/" (dir_tail segs) = (segs ++ [""])%list.
Proof.
  induction segs as [|s segs IH]; [reflexivity|].
  cbn [forallb dir_tail]. intros H. apply andb_true_iff in H.
  destruct H as [Hs Hrest].
  destruct (plain_segment_facts s Hs) as [_ [_ [_ Hslash]]].
  change (s ++ "/" ++ dir_tail segs) with (s ++ String "/" (dir_tail segs)).
  rewrite (split_at_sep "/" s _ Hslash), (IH Hrest). reflexivity.
Qed.

Lemma split_dir_path (segs : list string) :
  forallb plain_segment segs = true ->
  split "/" (dir_path segs) = ("" :: segs ++ [""])%list.
Proof.
  intros H. unfold dir_path.
  change ("/" ++ dir_tail segs) with ("" ++ String "/" (dir_tail segs)).
  rewrite (split_at_sep "/" "" _ eq_refl), (split_dir_tail segs H).
  reflexivity.
Qed.

Lemma filter_middle_ends (x y : string) (l : list string) :
  Url.filter_middle (x :: l ++ [y])
  = (x :: filter Url.nonempty l ++ [y])%list.
Proof.
  unfold Url.filter_middle.
  destruct (l ++ [y])%list as [|z r] eqn:E.
  - destruct l; discriminate.
  - rewrite <- E. now rewrite removelast_last, last_last.
Qed.

Lemma filter_plain_id (segs : list string) :
  forallb plain_segment segs = true ->
  filter Url.nonempty segs = segs.
Proof.
  induction segs as [|s segs IH]; [reflexivity|].
  cbn [forallb]. intros H. apply andb_true_iff in H. destruct H as [Hs Hrest].
  destruct (plain_segment_facts s Hs) as [Hne _].
  cbn [filter]. rewrite Hne, (IH Hrest). reflexivity.
Qed.

Lemma filter_plain (segs : list string) :
  forallb plain_segment segs = true ->
  filter Url.nonempty (segs ++ [""]) = segs.
Proof.
  intros H. rewrite filter_app, (filter_plain_id segs H).
  cbn [filter]. change (Url.nonempty "") with false. cbv iota.
  apply app_nil_r.
Qed.

Lemma resolve_dots_app (l1 l2 acc : list string) :
  Forall (fun s => s <> "." /\ s <> "..") l1 ->
  Url.resolve_dots (l1 ++ l2) acc = Url.resolve_dots l2 (rev l1 ++ acc)%list.
Proof.
  revert acc. induction l1 as [|s l IH]; intros acc H; [reflexivity|].
  inversion H as [|? ? [Hd Hdd] Hl]; subst.
  cbn [app Url.resolve_dots].
  apply String.eqb_neq in Hd, Hdd. rewrite Hd, Hdd.
  rewrite (IH _ Hl). cbn [rev]. now rewrite <- app_assoc.
Qed.

Lemma resolve_dots_plain (l acc : list string) :
  Forall (fun s => s <> "." /\ s <> "..") l ->
  Url.resolve_dots l acc = (rev acc ++ l)%list.
Proof.
  intros H. rewrite <- (app_nil_r l) at 1.
  rewrite (resolve_dots_app l [] acc H). cbn [Url.resolve_dots].
  now rewrite rev_app_distr, rev_involutive.
Qed.

Lemma plain_segments_no_dots (segs : list string) :
  forallb plain_segment segs = true ->
  Forall (fun s => s <> "." /\ s <> "..") segs.
Proof.
  induction segs as [|s segs IH]; [constructor|].
  cbn [forallb]. intros H. apply andb_true_iff in H. destruct H as [Hs Hrest].
  destruct (plain_segment_facts s Hs) as [_ [H1 [H2 _]]].
  constructor; [split; assumption | apply IH; exact Hrest].
Qed.

Lemma join_dir (segs : list string) (href : string) :
  join "/" (segs ++ [href]) = dir_tail segs ++ href.
Proof.
  unfold join. induction segs as [|s segs IH]; [reflexivity|].
  cbn [app String.concat dir_tail].
  destruct (segs ++ [href])%list eqn:E; [destruct segs; discriminate|].
  rewrite IH. now rewrite !app_assoc_str.
Qed.

(** [urljoin] of a directory locator [scheme://host/seg1/.../segn/] and a
    relative path: the work is all in the segments. *)
Lemma urljoin_relative_path (sch host : string) (segs : list string)
  (p : string) :
  sch = "http" \/ sch = "https" ->
  Url.nonempty host = true ->
  all_chars host_char host = true ->
  forallb plain_segment segs = true ->
  Url.nonempty p = true ->
  all_chars path_char p = true ->
  String.prefix "//" p = false ->
  Url.urljoin (sch ++ "://" ++ host ++ dir_path segs) p
  = let segments :=
      if String.prefix "/" p then split "/" p
      else Url.filter_middle (("" :: segs ++ [""]) ++ split "/" p)%list in
    let resolved := Url.resolve_dots segments [] in
    let resolved :=
      if String.eqb (last segments "") "."
         || String.eqb (last segments "") ".."
      then (resolved ++ [""])%list else resolved in
    let joined := join "/" resolved in
    let path := if Url.nonempty joined then joined else "/" in
    Ok (sch ++ "://" ++ host
        ++ (if negb (String.prefix "/" path) then "/" ++ path else path)).
Proof.
  intros Hsch Hhne Hhost Hsegs Hne Hp Hnet.
  assert (Hb : String.eqb (sch ++ "://" ++ host ++ dir_path segs) "" = false)
    by (destruct Hsch as [-> | ->]; reflexivity).
  assert (Hrel : Url.mem sch Url.uses_relative = true)
    by (destruct Hsch as [-> | ->]; reflexivity).
  assert (Hnl : Url.mem sch Url.uses_netloc = true)
    by (destruct Hsch as [-> | ->]; reflexivity).
  assert (Hsne : Url.nonempty sch = true)
    by (destruct Hsch as [-> | ->]; reflexivity).
  assert (He : String.eqb p "" = false).
  { unfold Url.nonempty in Hne. now apply negb_true_iff in Hne. }
  unfold Url.urljoin. rewrite Hb, He.
  rewrite (urlparse_directory sch host segs Hsch Hhost Hsegs).
  cbn [rbind Url.scheme].
  rewrite (urlparse_path p sch Hsch Hp Hnet).
  cbn [rbind Url.scheme Url.netloc Url.path Url.params Url.query Url.fragment].
  rewrite String.eqb_refl, Hrel, Hnl. cbn [negb orb andb].
  change (Url.nonempty "") with false. cbn [negb orb andb].
  rewrite Hne. cbn [negb orb andb].
  rewrite (split_dir_path segs Hsegs).
  change ("" :: segs ++ [""])%list with (("" :: segs) ++ [""])%list.
  rewrite last_last. change (Url.nonempty "") with false. cbv iota.
  cbv zeta.
  set (segments := if String.prefix "/" p then split "/" p
                   else Url.filter_middle ((("" :: segs) ++ [""]) ++ split "/" p)%list).
  set (resolved := if String.eqb (last segments "") "."
                      || String.eqb (last segments "") ".."
                   then (Url.resolve_dots segments [] ++ [""])%list
                   else Url.resolve_dots segments []).
  set (path := if Url.nonempty (join "/" resolved) then join "/" resolved
               else "/").
  assert (Hpne : Url.nonempty path = true).
  { unfold path. destruct (Url.nonempty (join "/" resolved)) eqn:E;
      [exact E | reflexivity]. }
  unfold Url.urlunparse.
  cbn [Url.scheme Url.netloc Url.path Url.params Url.query Url.fragment].
  change (Url.nonempty "") with false. cbv iota.
  unfold Url.urlunsplit. rewrite Hhne, Hsne, Hpne. cbn [orb andb].
  change (Url.nonempty "") with false. cbv iota.
  destruct (String.prefix "/" path); reflexivity.
Qed.

(** An href of one inert segment, other than [.] and [..], is appended to
    the directory. *)
Lemma urljoin_directory (sch host : string) (segs : list string) (u : string) :
  sch = "http" \/ sch = "https" ->
  Url.nonempty host = true ->
  all_chars host_char host = true ->
  forallb plain_segment segs = true ->
  Url.nonempty u = true ->
  all_chars inert_char u = true ->
  u <> "." -> u <> ".." ->
  Url.urljoin (sch ++ "://" ++ host ++ dir_path segs) u
  = Ok (sch ++ "://" ++ host ++ dir_path segs ++ u).
Proof.
  intros Hsch Hhne Hhost Hsegs Hne Hu Hdot Hdots.
  assert (Hslash : contains "/" u = false)
    by (apply (all_chars_not_contains inert_char "/" u Hu); reflexivity).
  rewrite (urljoin_relative_path sch host segs u Hsch Hhne Hhost Hsegs Hne
             (inert_is_path u Hu) (prefix_needs_first "/" "/" u Hslash)).
  cbv zeta.
  rewrite (prefix_needs_first "/" "" u Hslash).
  rewrite (split_absent "/" u Hslash).
  change ((("" :: segs ++ [""]) ++ [u]))%list
    with ("" :: (segs ++ [""]) ++ [u])%list.
  rewrite filter_middle_ends, (filter_plain segs Hsegs).
  change ("" :: segs ++ [u])%list with (("" :: segs) ++ [u])%list.
  rewrite last_last.
  apply String.eqb_neq in Hdot, Hdots. rewrite Hdot, Hdots. cbn [orb].
  rewrite resolve_dots_plain.
  - change (rev [] ++ ("" :: segs) ++ [u])%list
      with (("" :: segs) ++ [u])%list.
    rewrite (join_dir ("" :: segs) u).
    change (dir_tail ("" :: segs)) with (dir_path segs).
    assert (Hj : Url.nonempty (dir_path segs ++ u) = true) by reflexivity.
    rewrite Hj.
    assert (Hp : String.prefix "/" (dir_path segs ++ u) = true).
    { unfold dir_path. rewrite app_assoc_str. apply prefix_app. }
    rewrite Hp. reflexivity.
  - apply Forall_app. split.
    + constructor; [split; discriminate|].
      exact (plain_segments_no_dots segs Hsegs).
    + constructor; [|constructor].
      split; apply String.eqb_neq; assumption.
Qed.

(** An href that is a slash and one inert segment is resolved against the
    host: the directory of the base is dropped. *)
Lemma urljoin_absolute_path (sch host : string) (segs : list string)
  (u : string) :
  sch = "http" \/ sch = "https" ->
  Url.nonempty host = true ->
  all_chars host_char host = true ->
  forallb plain_segment segs = true ->
  all_chars inert_char u = true ->
  u <> "." -> u <> ".." ->
  Url.urljoin (sch ++ "://" ++ host ++ dir_path segs) ("/" ++ u)
  = Ok (sch ++ "://" ++ host ++ "/" ++ u).
Proof.
  intros Hsch Hhne Hhost Hsegs Hu Hdot Hdots.
  assert (Hslash : contains "/" u = false)
    by (apply (all_chars_not_contains inert_char "/" u Hu); reflexivity).
  assert (Hnet : String.prefix "//" ("/" ++ u) = false).
  { cbn [append String.prefix].
    destruct (ascii_dec "/" "/"); [|congruence].
    apply (prefix_needs_first "/" "" u Hslash). }
  assert (Hp : all_chars path_char ("/" ++ u) = true).
  { cbn [append all_chars]. rewrite (inert_is_path u Hu). reflexivity. }
  rewrite (urljoin_relative_path sch host segs ("/" ++ u) Hsch Hhne Hhost
             Hsegs eq_refl Hp Hnet).
  cbv zeta.
  change (String.prefix "/" ("/" ++ u)) with (String.prefix "" u).
  assert (Hpre : String.prefix "" u = true) by (now destruct u).
  rewrite Hpre.
  change ("/" ++ u) with ("" ++ String "/" u).
  rewrite (split_at_sep "/" "" u eq_refl), (split_absent "/" u Hslash).
  change (last [""; u] "") with u.
  apply String.eqb_neq in Hdot, Hdots. rewrite Hdot, Hdots. cbn [orb].
  cbn [Url.resolve_dots String.eqb]. rewrite Hdot, Hdots. cbn [rev app].
  change (join "/" [""; u]) with ("/" ++ u).
  change (Url.nonempty ("/" ++ u)) with true. cbv iota.
  change (String.prefix "/" ("/" ++ u)) with (String.prefix "" u).
  rewrite Hpre. reflexivity.
Qed.

(** An href that climbs one directory and names one inert segment is
    resolved against the directory above. *)
Lemma urljoin_parent_directory (sch host : string) (segs : list string)
  (s u : string) :
  sch = "http" \/ sch = "https" ->
  Url.nonempty host = true ->
  all_chars host_char host = true ->
  forallb plain_segment (segs ++ [s]) = true ->
  Url.nonempty u = true ->
  all_chars inert_char u = true ->
  u <> "." -> u <> ".." ->
  Url.urljoin (sch ++ "://" ++ host ++ dir_path (segs ++ [s])) ("../" ++ u)
  = Ok (sch ++ "://" ++ host ++ dir_path segs ++ u).
Proof.
  intros Hsch Hhne Hhost Hall Hne Hu Hdot Hdots.
  assert (Hslash : contains "/" u = false)
    by (apply (all_chars_not_contains inert_char "/" u Hu); reflexivity).
  assert (Hp : all_chars path_char ("../" ++ u) = true).
  { cbn [append all_chars]. rewrite (inert_is_path u Hu). reflexivity. }
  assert (Hsegs : forallb plain_segment segs = true).
  { rewrite forallb_app in Hall. apply andb_true_iff in Hall. tauto. }
  rewrite (urljoin_relative_path sch host (segs ++ [s]) ("../" ++ u) Hsch Hhne
             Hhost Hall eq_refl Hp eq_refl).
  cbv zeta.
  change (String.prefix "/" ("../" ++ u)) with false. cbv iota.
  change ("../" ++ u) with (".." ++ String "/" u).
  rewrite (split_at_sep "/" ".." u eq_refl), (split_absent "/" u Hslash).
  assert (Hshape : (("" :: (segs ++ [s]) ++ [""]) ++ [".."; u])%list
                   = ("" :: ((segs ++ [s]) ++ [""; ".."]) ++ [u])%list).
  { cbn [app]. f_equal. rewrite <- !app_assoc. reflexivity. }
  rewrite Hshape, filter_middle_ends, filter_app, (filter_plain_id _ Hall).
  cbn [filter]. change (Url.nonempty "") with false.
  change (Url.nonempty "..") with true. cbv iota.
  assert (Hlist : ("" :: ((segs ++ [s]) ++ [".."]) ++ [u])%list
                  = ((("" :: segs) ++ [s]) ++ [".."; u])%list).
  { cbn [app]. f_equal. rewrite <- !app_assoc. reflexivity. }
  rewrite Hlist.
  assert (Hlast : last ((("" :: segs) ++ [s]) ++ [".."; u])%list "" = u).
  { change [".."; u] with ([".."] ++ [u])%list.
    rewrite app_assoc. apply last_last. }
  rewrite Hlast.
  apply String.eqb_neq in Hdot, Hdots. rewrite Hdot, Hdots. cbn [orb].
  rewrite resolve_dots_app.
  - rewrite rev_app_distr. cbn [rev app Url.resolve_dots String.eqb
                                  Ascii.eqb Bool.eqb tl].
    rewrite Hdot, Hdots. cbn [Url.resolve_dots rev].
    rewrite app_nil_r, rev_app_distr, rev_involutive. cbn [rev app].
    change ("" :: segs ++ [u])%list with (("" :: segs) ++ [u])%list.
    rewrite (join_dir ("" :: segs) u).
    change (dir_tail ("" :: segs)) with (dir_path segs).
    assert (Hj : Url.nonempty (dir_path segs ++ u) = true) by reflexivity.
    rewrite Hj.
    assert (Hq : String.prefix "/" (dir_path segs ++ u) = true).
    { unfold dir_path. rewrite app_assoc_str. apply prefix_app. }
    rewrite Hq. reflexivity.
  - change (("" :: segs) ++ [s])%list with ("" :: (segs ++ [s]))%list.
    constructor; [split; discriminate|].
    exact (plain_segments_no_dots _ Hall).
Qed.

(** ** The two ways of joining a parent and an href *)

(** C10. The crawl engine and the speed-limit scanner join the same parent
    and the same href differently.  For the link [a b-sl.csv] under
    [http://example.org/states/] the engine computes [.../a%20b-sl.csv],
    percent-escaped and resolved, while [mergeParentAndRelativeUrl] hands
    the File Processor [.../a b-sl.csv], the two texts glued together; for
    the hrefs [/top-sl.csv] and [../tx-sl.csv] the engine resolves them to
    [http://example.org/top-sl.csv] and [http://example.org/tx-sl.csv], and
    the scanner glues them to the parent as they are.  So the two joins do
    not agree for every parent and href. *)
Theorem joins_differ_on_escaped_href :
  parseHref (Scenario.anchor "a b-sl.csv" "AB") = Ok "a b-sl.csv"
  /\ childUrl "http://example.org/states/" (Scenario.anchor "a b-sl.csv" "AB")
     = Ok ("http://example.org/states/",
           "http://example.org/states/a%20b-sl.csv")
  /\ mergeParentAndRelativeUrl "http://example.org/states/" "a b-sl.csv"
     = Ok "http://example.org/states/a b-sl.csv"
  /\ childUrl "http://example.org/states/"
       (Scenario.anchor "/top-sl.csv" "TOP")
     = Ok ("http://example.org/states/", "http://example.org/top-sl.csv")
  /\ mergeParentAndRelativeUrl "http://example.org/states/" "/top-sl.csv"
     = Ok "http://example.org/states//top-sl.csv"
  /\ childUrl "http://example.org/states/"
       (Scenario.anchor "../tx-sl.csv" "TX")
     = Ok ("http://example.org/states/", "http://example.org/tx-sl.csv")
  /\ mergeParentAndRelativeUrl "http://example.org/states/" "../tx-sl.csv"
     = Ok "http://example.org/states/../tx-sl.csv"
  /\ snd (linkScanner_getMissingStateSpeedLimits
            (Scenario.anchor "a b-sl.csv" "AB") "http://example.org/states/"
            1 "/out" Scenario.observed Scenario.fresh) = Ok tt
  /\ calls (fst (linkScanner_getMissingStateSpeedLimits
                   (Scenario.anchor "a b-sl.csv" "AB")
                   "http://example.org/states/" 1 "/out" Scenario.observed
                   Scenario.fresh))
     = [("http://example.org/states/a b-sl.csv",
         "/out/a b/20160720_203436/speed_limits")]
  /\ ~ (forall parentUrl link href,
          parseHref link = Ok href ->
          rbind (childUrl parentUrl link) (fun urls => Ok (snd urls))
          = mergeParentAndRelativeUrl parentUrl href).
Proof.
  split; [vm_compute; reflexivity|].
  split; [vm_compute; reflexivity|].
  split; [vm_compute; reflexivity|].
  split; [vm_compute; reflexivity|].
  split; [vm_compute; reflexivity|].
  split; [vm_compute; reflexivity|].
  split; [vm_compute; reflexivity|].
  split; [vm_compute; reflexivity|].
  split; [vm_compute; reflexivity|].
  intros H.
  specialize (H "http://example.org/states/"
                (Scenario.anchor "a b-sl.csv" "AB") "a b-sl.csv" eq_refl).
  vm_compute in H. discriminate.
Qed.

(** Where the two joins do agree: when the parent locator, cut back to its
    last slash if it does not end in one, is a directory
    [http(s)://host/seg1/.../segn/] with plain segments, and the href is a
    non-empty run of letters, digits and [_.-~] other than [.] and [..],
    both give the directory followed by the href. *)
Lemma joins_agree_on_plain_href (parentUrl link href base sch host : string)
  (segs : list string) :
  trimmed parentUrl = Ok base ->
  base = sch ++ "://" ++ host ++ dir_path segs ->
  sch = "http" \/ sch = "https" ->
  Url.nonempty host = true ->
  all_chars host_char host = true ->
  forallb plain_segment segs = true ->
  parseHref link = Ok href ->
  Url.nonempty href = true ->
  all_chars unreserved href = true ->
  href <> "." -> href <> ".." ->
  childUrl parentUrl link = Ok (base, base ++ href)
  /\ mergeParentAndRelativeUrl parentUrl href = Ok (base ++ href).
Proof.
  intros Htrim Hbase Hsch Hhne Hhost Hsegs Hhref Hne Hu Hdot Hdots.
  assert (Hjoin : Url.urljoin base (Url.quote href) = Ok (base ++ href)).
  { rewrite (quote_unreserved href Hu), Hbase.
    rewrite (urljoin_directory sch host segs href Hsch Hhne Hhost Hsegs Hne
               (unreserved_inert href Hu) Hdot Hdots).
    now rewrite !app_assoc_str. }
  unfold trimmed in Htrim. unfold childUrl, mergeParentAndRelativeUrl.
  destruct (endswith parentUrl "/"); cbn [negb].
  - injection Htrim as ->. cbn [rbind]. rewrite Hhref. cbn [rbind].
    rewrite Hjoin. split; reflexivity.
  - rewrite Htrim. cbn [rbind]. rewrite Hhref. cbn [rbind].
    rewrite Hjoin. split; reflexivity.
Qed.

(** * Further properties of the program *)

(** ** What a traversal can change *)

Lemma only_adds_refl (w : World) : only_adds w w.
Proof.
  repeat split; exists []; now rewrite app_nil_r.
Qed.

Lemma only_adds_trans (w1 w2 w3 : World) :
  only_adds w1 w2 -> only_adds w2 w3 -> only_adds w1 w3.
Proof.
  intros [A1 [[d1 D1] [[c1 C1] [f1 F1]]]] [A2 [[d2 D2] [[c2 C2] [f2 F2]]]].
  repeat split.
  - congruence.
  - exists (d1 ++ d2)%list. rewrite D2, D1. now rewrite app_assoc.
  - exists (c1 ++ c2)%list. rewrite C2, C1. now rewrite app_assoc.
  - exists (f1 ++ f2)%list. rewrite F2, F1. now rewrite app_assoc.
Qed.

Lemma keeps_archive_ret {A : Type} (a : A) : keeps_archive (mret a).
Proof. intro w. apply only_adds_refl. Qed.

Lemma keeps_archive_lift {A : Type} (r : result A) : keeps_archive (lift r).
Proof. intro w. apply only_adds_refl. Qed.

Lemma keeps_archive_bind {A B : Type} (m : M A) (k : A -> M B) :
  keeps_archive m -> (forall a, keeps_archive (k a)) ->
  keeps_archive (mbind m k).
Proof.
  intros Hm Hk w. unfold mbind. specialize (Hm w).
  destruct (m w) as [w' [a|e|]]; simpl in *; try assumption.
  eapply only_adds_trans; [exact Hm | apply Hk].
Qed.

Lemma keeps_archive_for_each {A : Type} (l : list A) (body : A -> M unit) :
  (forall x, keeps_archive (body x)) -> keeps_archive (for_each l body).
Proof.
  intros Hb. induction l as [|x l IH]; simpl.
  - apply keeps_archive_ret.
  - apply keeps_archive_bind; [apply Hb | intros _; exact IH].
Qed.

Lemma keeps_archive_isdir (p : string) : keeps_archive (isdir p).
Proof. intro w. apply only_adds_refl. Qed.

Lemma keeps_archive_makedirs (p : string) : keeps_archive (makedirs p).
Proof.
  intro w. simpl. repeat split;
    try (exists []; now rewrite app_nil_r). now exists [p].
Qed.

Lemma keeps_archive_call (u d : string) : keeps_archive (subprocess_call u d).
Proof.
  intro w. simpl. repeat split;
    try (exists []; now rewrite app_nil_r). now exists [(u, d)].
Qed.

Lemma keeps_archive_get (web : string -> option string) (url : string) :
  keeps_archive (getHtmlContent web url).
Proof.
  intro w. unfold getHtmlContent.
  destruct (web url); simpl; repeat split;
    try (exists []; now rewrite app_nil_r); now exists [url].
Qed.

Lemma keeps_archive_areaManager l u d o t :
  keeps_archive (linkScanner_getAreaManagerPolygons l u d o t).
Proof.
  unfold linkScanner_getAreaManagerPolygons.
  destruct (areaManagerPolygonCsv l u d); apply keeps_archive_ret.
Qed.

Lemma keeps_archive_speedLimits l u d o t :
  keeps_archive (linkScanner_getMissingStateSpeedLimits l u d o t).
Proof.
  unfold linkScanner_getMissingStateSpeedLimits.
  apply keeps_archive_bind; [apply keeps_archive_lift | intros href].
  destruct (negb (endswith href "-sl.csv")); [apply keeps_archive_ret|].
  apply keeps_archive_bind; [apply keeps_archive_lift | intros merged].
  apply keeps_archive_bind; [apply keeps_archive_isdir | intros b].
  apply keeps_archive_bind.
  - destruct (negb b); [apply keeps_archive_makedirs | apply keeps_archive_ret].
  - intros _. apply keeps_archive_call.
Qed.

Lemma processContent_keeps_archive (web : string -> option string)
  (fuel : nat) (htmlContent htmlUrl : string) (linkDepth : nat)
  (stateOutputDir : string) (currTimestamp : Dt.datetime) (recurse : bool) :
  keeps_archive
    (processContent web fuel htmlContent htmlUrl linkDepth stateOutputDir
       currTimestamp recurse).
Proof.
  revert htmlContent htmlUrl linkDepth.
  induction fuel as [|fuel IH]; intros htmlContent htmlUrl linkDepth.
  - apply keeps_archive_lift.
  - cbn [processContent getContentLinkScanners].
    apply keeps_archive_bind; [apply keeps_archive_ret | intros _].
    apply keeps_archive_bind; [apply keeps_archive_lift | intros htmlLinks].
    apply keeps_archive_bind.
    + apply keeps_archive_for_each. intros l.
      cbn [for_each]. apply keeps_archive_bind; [apply keeps_archive_areaManager|].
      intros _. apply keeps_archive_bind; [apply keeps_archive_speedLimits|].
      intros _. apply keeps_archive_ret.
    + intros _. destruct recurse; [|apply keeps_archive_ret].
      generalize htmlUrl. clear htmlUrl.
      induction htmlLinks as [|l rest IHl]; intros htmlUrl.
      * apply keeps_archive_ret.
      * apply keeps_archive_bind; [apply keeps_archive_lift | intros [base newUrl]].
        destruct (endswith newUrl ".csv"); [apply IHl|].
        apply keeps_archive_bind; [apply keeps_archive_get|].
        intros content.
        apply keeps_archive_bind; [apply IH | intros _; apply IHl].
Qed.

(** X1. A traversal never touches the timestamp archive, and it only adds
    to the created directories, to the File Processor invocations and to
    the requested locators: nothing already there is removed or reordered,
    whether the traversal completes, aborts or is cut. *)
Theorem traversal_only_adds (web : string -> option string) (fuel : nat)
  (htmlContent htmlUrl : string) (linkDepth : nat) (stateOutputDir : string)
  (currTimestamp : Dt.datetime) (recurse : bool) (w : World) :
  only_adds w
    (fst (processContent web fuel htmlContent htmlUrl linkDepth stateOutputDir
            currTimestamp recurse w)).
Proof. apply processContent_keeps_archive. Qed.

(** ** Whole runs *)

Lemma needToDoRun_true_only_first (previous : option Dt.datetime)
  (currTimestamp : Dt.datetime) :
  _needToDoRun previous currTimestamp = Ok true -> previous = None.
Proof.
  destruct previous as [p|]; [|reflexivity].
  unfold _needToDoRun. destruct (Dt.leb currTimestamp p); discriminate.
Qed.

Lemma needToDoRun_no_fuel (previous : option Dt.datetime)
  (currTimestamp : Dt.datetime) :
  _needToDoRun previous currTimestamp <> OutOfFuel.
Proof.
  destruct previous as [p|]; [|discriminate].
  unfold _needToDoRun. destruct (Dt.leb currTimestamp p); discriminate.
Qed.

(** X2. Once the archive holds a readable instant, no run traverses the
    site again: whatever the index page says, [main] requests the root
    page, then ends with an exception; it creates no directory, starts no
    File Processor and records nothing.  (The gate returns false for an
    instant that is not later, and raises for one that is.) *)
Theorem run_with_record_never_traverses (w : World) (previous : Dt.datetime)
  (web : string -> option string) (fuel : nat)
  (rootUrl stateOutputDir : string) :
  getPreviousDataTimestamp w = (w, Ok (Some previous)) ->
  (exists e, snd (main web fuel rootUrl stateOutputDir w) = Raise e)
  /\ fst (main web fuel rootUrl stateOutputDir w)
     = mkWorld (archive w) (dirs w) (fetched w ++ [rootUrl])%list (calls w).
Proof.
  intros Hprev. unfold main, mbind. rewrite Hprev.
  unfold getHtmlContent. destruct (web rootUrl) as [page|]; cbn [fst snd].
  - unfold lift.
    destruct (parseDataTimestampFromIndexPage page) as [cur|e|] eqn:Hcur.
    + destruct (_needToDoRun (Some previous) cur) as [[|]|e|] eqn:Hgate.
      * apply needToDoRun_true_only_first in Hgate. discriminate.
      * cbn [negb fst snd]. split; [now exists SystemExit | reflexivity].
      * cbn [fst snd]. split; [now exists e | reflexivity].
      * exfalso. exact (needToDoRun_no_fuel _ _ Hgate).
    + cbn [fst snd]. split; [now exists e | reflexivity].
    + exfalso. unfold parseDataTimestampFromIndexPage in Hcur.
      destruct (Re.search Re.generated_at page); [|discriminate].
      exact (parseTimestamp_returns_or_raises _ Hcur).
  - split; [now exists SystemExit | reflexivity].
Qed.

Lemma run_with_record_never_traverses_witness :
  getPreviousDataTimestamp Scenario.afterFirstRun
  = (Scenario.afterFirstRun, Ok (Some Scenario.recorded))
  /\ (exists e, snd (main Scenario.deepWeb 5 Scenario.rootUrl "/out"
                       Scenario.afterFirstRun) = Raise e)
  /\ fst (main Scenario.deepWeb 5 Scenario.rootUrl "/out"
            Scenario.afterFirstRun)
     = mkWorld (archive Scenario.afterFirstRun) (dirs Scenario.afterFirstRun)
         (fetched Scenario.afterFirstRun ++ [Scenario.rootUrl])%list
         (calls Scenario.afterFirstRun).
Proof.
  split; [vm_compute; reflexivity|].
  apply (run_with_record_never_traverses Scenario.afterFirstRun
           Scenario.recorded).
  vm_compute. reflexivity.
Defined.

(** X3. The archive changes only when a run completes.  If [main] returns
    normally, nothing readable was on record, the root page gave an instant,
    and the archive has gained the entry named after that instant (unless
    it was there already); if [main] ends in any other way, the archive is
    as it was. *)
Theorem archive_written_only_on_success (web : string -> option string)
  (fuel : nat) (rootUrl stateOutputDir : string) (w : World) :
  (snd (main web fuel rootUrl stateOutputDir w) = Ok tt ->
   exists page t,
     web rootUrl = Some page
     /\ parseDataTimestampFromIndexPage page = Ok t
     /\ getPreviousDataTimestamp w = (w, Ok None)
     /\ archive (fst (main web fuel rootUrl stateOutputDir w))
        = archive (fst (writeTimestampToArchive t w)))
  /\ (snd (main web fuel rootUrl stateOutputDir w) <> Ok tt ->
      archive (fst (main web fuel rootUrl stateOutputDir w)) = archive w).
Proof.
  unfold main, mbind.
  destruct (getPreviousDataTimestamp w) as [w0 r0] eqn:Hprev.
  assert (Hw0 : w0 = w).
  { unfold getPreviousDataTimestamp in Hprev. now inversion Hprev. }
  subst w0.
  destruct r0 as [prev|e|]; cbn [fst snd];
    [|split; [discriminate | reflexivity]..].
  unfold getHtmlContent. destruct (web rootUrl) as [page|]; cbn [fst snd];
    [|split; [discriminate | reflexivity]].
  unfold lift.
  destruct (parseDataTimestampFromIndexPage page) as [cur|e|] eqn:Hcur;
    cbn [fst snd]; [|split; [discriminate | reflexivity]..].
  destruct (_needToDoRun prev cur) as [[|]|e|] eqn:Hgate;
    cbn [negb fst snd]; [|split; [discriminate | reflexivity]..].
  apply needToDoRun_true_only_first in Hgate. subst prev.
  pose proof (processContent_keeps_archive web fuel page rootUrl 1
                stateOutputDir cur true
                (mkWorld (archive w) (dirs w) (fetched w ++ [rootUrl])%list
                   (calls w))) as [Harch _].
  destruct (processContent web fuel page rootUrl 1 stateOutputDir cur true _)
    as [w2 [[]|e|]]; cbn [fst snd] in *.
  - split; [|intros H; exfalso; apply H; reflexivity].
    intros _. exists page, cur.
    split; [reflexivity|]. split; [exact Hcur|]. split; [reflexivity|].
    unfold writeTimestampToArchive, touch. simpl. simpl in Harch.
    rewrite Harch. reflexivity.
  - split; [discriminate | intros _; exact Harch].
  - split; [discriminate | intros _; exact Harch].
Qed.

Lemma archive_written_only_on_success_witness :
  snd (main Scenario.web 2 Scenario.rootUrl "/out" Scenario.fresh) = Ok tt
  /\ exists page t,
       Scenario.web Scenario.rootUrl = Some page
       /\ parseDataTimestampFromIndexPage page = Ok t
       /\ getPreviousDataTimestamp Scenario.fresh = (Scenario.fresh, Ok None)
       /\ archive (fst (main Scenario.web 2 Scenario.rootUrl "/out"
                          Scenario.fresh))
          = archive (fst (writeTimestampToArchive t Scenario.fresh)).
Proof.
  split; [vm_compute; reflexivity|].
  apply (archive_written_only_on_success Scenario.web 2 Scenario.rootUrl
           "/out" Scenario.fresh).
  vm_compute. reflexivity.
Defined.

(** ** [removeLastToken] on every locator *)

Lemma get_app_right (a s : string) (j : nat) :
  String.get (String.length a + j) (a ++ s) = String.get j s.
Proof. induction a as [|c a IH]; simpl; [reflexivity | exact IH]. Qed.

Lemma get_not_contained (c : ascii) (s : string) (j : nat) :
  contains c s = false -> String.get j s <> Some c.
Proof.
  revert j. induction s as [|d s IH]; intros j H; [now destruct j|].
  simpl in H. apply orb_false_iff in H. destruct H as [Hd Hs].
  destruct j as [|j]; simpl.
  - intros E. inversion E. subst. now rewrite Ascii.eqb_refl in Hd.
  - apply IH. exact Hs.
Qed.

Lemma removeLastToken_from_skip (k i : nat) (url : string) :
  (forall j, i < j -> j <= i + k -> String.get j url <> Some "/"%char) ->
  removeLastToken_from (i + k) url = removeLastToken_from i url.
Proof.
  induction k as [|k IH]; intros H.
  - now rewrite Nat.add_0_r.
  - replace (i + S k) with (S (i + k)) by lia.
    cbn [removeLastToken_from].
    destruct (String.get (S (i + k)) url) as [c|] eqn:Hget.
    + destruct (Ascii.eqb_spec c "/"%char) as [->|_].
      * exfalso. apply (H (S (i + k))); [lia | lia | exact Hget].
      * apply IH. intros j H1 H2. apply H; lia.
    + apply IH. intros j H1 H2. apply H; lia.
Qed.

(** A locator with something before its last slash is cut just after that
    slash. *)
Lemma removeLastToken_complete (a tail : string) :
  a <> "" -> contains "/" tail = false ->
  removeLastToken (a ++ String "/" tail) = Ok (a ++ "/").
Proof.
  intros Ha Htail. unfold removeLastToken.
  rewrite length_app_str. cbn [String.length].
  replace (String.length a + S (String.length tail) - 1)
    with (String.length a + String.length tail) by lia.
  rewrite removeLastToken_from_skip.
  - destruct a as [|c a]; [congruence|]. cbn [String.length].
    cbn [removeLastToken_from].
    change (S (String.length a)) with (String.length (String c a)) at 1.
    replace (String.length (String c a))
      with (String.length (String c a) + 0) at 1 by lia.
    rewrite get_app_right. cbn [String.get]. rewrite Ascii.eqb_refl.
    f_equal.
    replace (S (S (String.length a)))
      with (String.length (String c a ++ "/"))
      by (rewrite length_app_str; simpl; lia).
    change (String c a ++ String "/" tail)
      with (String c a ++ ("/" ++ tail)).
    rewrite <- app_assoc_str. apply take_app_exact.
  - intros j H1 H2.
    replace j with (String.length a + S (j - String.length a - 1)) by lia.
    rewrite get_app_right. cbn [String.get].
    apply get_not_contained. exact Htail.
Qed.

(** The last occurrence of a character that occurs. *)
Lemma last_occurrence (c : ascii) (s : string) :
  contains c s = true ->
  exists x y, s = x ++ String c y /\ contains c y = false.
Proof.
  induction s as [|d s IH]; [discriminate|]. intros H.
  destruct (contains c s) eqn:Hs.
  - destruct (IH eq_refl) as [x [y [E Hy]]].
    exists (String d x), y. split; [simpl; now rewrite E | exact Hy].
  - simpl in H. rewrite Hs, orb_false_r in H.
    apply Ascii.eqb_eq in H. subst d.
    exists "", s. split; [reflexivity | exact Hs].
Qed.

Lemma removeLastToken_from_result (i : nat) (url : string) :
  (exists base, removeLastToken_from i url = Ok base
                /\ 2 <= String.length base)
  \/ removeLastToken_from i url = Raise SystemExit.
Proof.
  induction i as [|i IH]; [right; reflexivity|].
  cbn [removeLastToken_from].
  destruct (String.get (S i) url) as [c|] eqn:Hget; [|exact IH].
  destruct (Ascii.eqb c "/"); [|exact IH].
  left. exists (take (S (S i)) url). split; [reflexivity|].
  assert (Hlen : forall n s, String.get n s <> None ->
                             String.length (take (S n) s) = S n).
  { clear. induction n as [|n IHn]; intros [|d s] H; simpl in *;
      try congruence; try (now destruct s).
    f_equal. apply IHn. exact H. }
  rewrite Hlen; [lia | congruence].
Qed.

(** X4. [removeLastToken] on every locator.  When the locator has a slash
    after its first character, it has the form [a/tail] with [a] not empty
    and [tail] free of slashes, and the result is [a/]: everything up to
    and including the last slash.  When it has none (a slash in first
    position does not count), the process exits. *)
Theorem removeLastToken_total (url : string) :
  (contains "/" (drop 1 url) = true ->
   exists a tail,
     url = a ++ String "/" tail /\ a <> "" /\ contains "/" tail = false
     /\ removeLastToken url = Ok (a ++ "/"))
  /\ (contains "/" (drop 1 url) = false ->
      removeLastToken url = Raise SystemExit).
Proof.
  split.
  - intros H. destruct url as [|c0 rest]; [discriminate|].
    cbn [drop] in H. destruct (last_occurrence "/" rest H) as [x [y [E Hy]]].
    exists (String c0 x), y. subst rest.
    split; [reflexivity|]. split; [discriminate|]. split; [exact Hy|].
    apply (removeLastToken_complete (String c0 x) y); [discriminate | exact Hy].
  - intros H. unfold removeLastToken.
    destruct (removeLastToken_from_result (String.length url - 1) url)
      as [[base [Hb Hlen]]|Hexit]; [|exact Hexit].
    exfalso.
    destruct (removeLastToken_spec url base Hb) as [tail [E [Hend Htail]]].
    destruct (endswith_split _ _ Hend) as [a Ha]. subst base.
    assert (Hane : a <> "").
    { intros ->. simpl in Hlen. lia. }
    destruct a as [|c0 a]; [congruence|].
    rewrite E in H. cbn [append drop] in H.
    rewrite !contains_app in H. cbn [contains] in H.
    rewrite Ascii.eqb_refl in H. cbn [orb] in H.
    rewrite orb_true_r in H. discriminate.
Qed.

(** ** The high-water mark *)

Lemma lex_compare_antisym (a b : list N) :
  Dt.lex_compare a b = CompOpp (Dt.lex_compare b a).
Proof.
  revert b. induction a as [|x a IH]; intros [|y b]; simpl; try reflexivity.
  rewrite (N.compare_antisym y x).
  destruct (N.compare y x); simpl; [apply IH | reflexivity | reflexivity].
Qed.

Lemma lex_compare_eq (a b : list N) :
  Dt.lex_compare a b = Eq -> a = b.
Proof.
  revert b. induction a as [|x a IH]; intros [|y b]; simpl;
    try discriminate; [reflexivity|].
  destruct (N.compare x y) eqn:E; try discriminate.
  intros H. apply N.compare_eq in E. subst. f_equal. now apply IH.
Qed.

(** [a <= b] and [b < c] give [a < c]. *)
Lemma lex_compare_le_lt (a b c : list N) :
  Dt.lex_compare a b <> Gt -> Dt.lex_compare b c = Lt ->
  Dt.lex_compare a c = Lt.
Proof.
  revert b c. induction a as [|x a IH]; intros [|y b] [|z c]; simpl;
    try congruence.
  destruct (N.compare_spec x y) as [Exy|Lxy|Gxy];
    destruct (N.compare_spec y z) as [Eyz|Lyz|Gyz];
    try congruence; intros H1 H2.
  - subst. rewrite N.compare_refl. now apply (IH b c).
  - subst. destruct (N.compare_spec y z); [lia | reflexivity | lia].
  - subst. destruct (N.compare_spec x z); [lia | reflexivity | lia].
  - destruct (N.compare_spec x z); [lia | reflexivity | lia].
Qed.

Lemma compare_gt_lt (a b : Dt.datetime) :
  Dt.compare a b = Gt <-> Dt.compare b a = Lt.
Proof.
  unfold Dt.compare. rewrite (lex_compare_antisym (Dt.fields a)).
  destruct (Dt.lex_compare (Dt.fields b) (Dt.fields a)); simpl;
    split; congruence.
Qed.

Lemma compare_le_trans (a b c : Dt.datetime) :
  Dt.compare a b <> Gt -> Dt.compare b c <> Gt -> Dt.compare a c <> Gt.
Proof.
  unfold Dt.compare. intros Hab Hbc.
  destruct (Dt.lex_compare (Dt.fields b) (Dt.fields c)) eqn:E.
  - apply lex_compare_eq in E. now rewrite <- E.
  - rewrite (lex_compare_le_lt _ _ _ Hab E). discriminate.
  - congruence.
Qed.

Lemma compare_gt_le (a b : Dt.datetime) :
  Dt.compare a b = Gt -> Dt.compare b a <> Gt.
Proof. intros H. apply compare_gt_lt in H. congruence. Qed.

Lemma fold_max_spec (xs : list Dt.datetime) (m : Dt.datetime) :
  Dt.compare m (Dt.py_max m xs) <> Gt
  /\ (forall y, In y xs -> Dt.compare y (Dt.py_max m xs) <> Gt)
  /\ In (Dt.py_max m xs) (m :: xs).
Proof.
  unfold Dt.py_max. revert m. induction xs as [|z xs IH]; intros m.
  - simpl. split; [rewrite compare_refl; discriminate|].
    split; [intros y []| now left].
  - cbn [fold_left].
    destruct (IH (if Dt.gtb z m then z else m)) as [H1 [H2 H3]].
    assert (Hm : Dt.compare m (if Dt.gtb z m then z else m) <> Gt).
    { unfold Dt.gtb. destruct (Dt.compare z m) eqn:E;
        try (rewrite compare_refl; discriminate).
      apply compare_gt_le. exact E. }
    assert (Hz : Dt.compare z (if Dt.gtb z m then z else m) <> Gt).
    { unfold Dt.gtb. destruct (Dt.compare z m) eqn:E;
        try (rewrite E; discriminate).
      rewrite compare_refl. discriminate. }
    split; [exact (compare_le_trans _ _ _ Hm H1)|]. split.
    + intros y [<-|Hy]; [exact (compare_le_trans _ _ _ Hz H1) | now apply H2].
    + destruct H3 as [H3|H3]; [|right; right; exact H3].
      rewrite <- H3. destruct (Dt.gtb z m); [right; left | left]; reflexivity.
Qed.

(** [max] returns an element that none of the others exceeds. *)
Lemma py_max_spec (x : Dt.datetime) (xs : list Dt.datetime) :
  In (Dt.py_max x xs) (x :: xs)
  /\ forall y, In y (x :: xs) -> Dt.compare y (Dt.py_max x xs) <> Gt.
Proof.
  destruct (fold_max_spec xs x) as [H1 [H2 H3]].
  split; [exact H3|]. intros y [<-|Hy]; [exact H1 | now apply H2].
Qed.

Lemma scan_archive_ok (files : list string) (acc l : list Dt.datetime) :
  scan_archive files acc = Ok l ->
  (forall f, In f files ->
             exists t, parseTimestamp (supposedTimestamp f) = Ok t)
  /\ forall t, In t l <->
               In t acc
               \/ exists f, In f files /\ endswith f ".timestamp" = true
                            /\ parseTimestamp (supposedTimestamp f) = Ok t.
Proof.
  revert acc l. induction files as [|g files IH]; intros acc l H.
  - simpl in H. inversion H. subst. split; [intros f []|].
    intros t. split; [now left | intros [Ht|[f [[] _]]]; exact Ht].
  - cbn [scan_archive] in H. fold (supposedTimestamp g) in H.
    destruct (parseTimestamp (supposedTimestamp g)) as [tg|e|] eqn:Hg;
      cbn [rbind] in H; try discriminate.
    destruct (endswith g ".timestamp") eqn:Hend; cbn [negb] in H.
    + destruct (IH _ _ H) as [Hall Hmem]. split.
      * intros f [<-|Hf]; [now exists tg | now apply Hall].
      * intros t. rewrite Hmem. rewrite in_app_iff. split.
        -- intros [[Ht|[<-|[]]]|[f [Hf [He Hp]]]].
           ++ now left.
           ++ right. exists g. repeat split; [now left | exact Hend | exact Hg].
           ++ right. exists f. repeat split; [now right | exact He | exact Hp].
        -- intros [Ht|[f [[<-|Hf] [He Hp]]]].
           ++ left. now left.
           ++ left. right. left. congruence.
           ++ right. exists f. repeat split; assumption.
    + destruct (IH _ _ H) as [Hall Hmem]. split.
      * intros f [<-|Hf]; [now exists tg | now apply Hall].
      * intros t. rewrite Hmem. split.
        -- intros [Ht|[f [Hf [He Hp]]]]; [now left|].
           right. exists f. repeat split; [now right | exact He | exact Hp].
        -- intros [Ht|[f [[<-|Hf] [He Hp]]]]; [now left | congruence |].
           right. exists f. repeat split; assumption.
Qed.

Lemma scan_archive_total (files : list string) (acc : list Dt.datetime) :
  (forall f, In f files ->
             exists t, parseTimestamp (supposedTimestamp f) = Ok t) ->
  exists l, scan_archive files acc = Ok l.
Proof.
  revert acc. induction files as [|g files IH]; intros acc H.
  - now exists acc.
  - cbn [scan_archive]. fold (supposedTimestamp g).
    destruct (H g (or_introl eq_refl)) as [tg Hg]. rewrite Hg. cbn [rbind].
    destruct (negb (endswith g ".timestamp")); apply IH;
      intros f Hf; apply H; now right.
Qed.

(** Either every name parses, or one does not and the scan fails. *)
Lemma scan_archive_cases (files : list string) :
  (forall f, In f files ->
             exists t, parseTimestamp (supposedTimestamp f) = Ok t)
  \/ exists f e, In f files /\ parseTimestamp (supposedTimestamp f) = Raise e.
Proof.
  induction files as [|g files [IH|[f [e [Hf He]]]]].
  - left. intros f [].
  - destruct (parseTimestamp (supposedTimestamp g)) as [tg|e|] eqn:Hg.
    + left. intros f [<-|Hf]; [now exists tg | now apply IH].
    + right. exists g, e. split; [now left | exact Hg].
    + exfalso. exact (parseTimestamp_returns_or_raises _ Hg).
  - right. exists f, e. split; [now right | exact He].
Qed.

(** X5. What [getPreviousDataTimestamp] returns when it returns: every name
    in the archive has parsed, also the names without the [.timestamp]
    extension; [None] means no name has the extension; an instant is the
    one parsed from a name with the extension, and no such name gives a
    later one. *)
Theorem previous_timestamp_is_latest (w : World) (r : option Dt.datetime) :
  getPreviousDataTimestamp w = (w, Ok r) ->
  (forall f, In f (archive w) ->
             exists t, parseTimestamp (supposedTimestamp f) = Ok t)
  /\ match r with
     | None => forall f, In f (archive w) -> endswith f ".timestamp" = false
     | Some t =>
         (exists f, In f (archive w) /\ endswith f ".timestamp" = true
                    /\ parseTimestamp (supposedTimestamp f) = Ok t)
         /\ forall f t', In f (archive w) -> endswith f ".timestamp" = true ->
                         parseTimestamp (supposedTimestamp f) = Ok t' ->
                         Dt.compare t' t <> Gt
     end.
Proof.
  unfold getPreviousDataTimestamp. intros H.
  destruct (scan_archive (archive w) []) as [l|e|] eqn:Hscan;
    cbn [rbind] in H; try (inversion H; fail).
  destruct (scan_archive_ok _ _ _ Hscan) as [Hall Hmem].
  split; [exact Hall|].
  destruct l as [|x xs]; inversion H; subst r.
  - intros f Hf. destruct (endswith f ".timestamp") eqn:He; [|reflexivity].
    destruct (Hall f Hf) as [t Ht].
    assert (Hin : In t []) by (apply Hmem; right; now exists f).
    destruct Hin.
  - destruct (py_max_spec x xs) as [Hin Hmax]. split.
    + apply Hmem in Hin. destruct Hin as [[]|Hin]. exact Hin.
    + intros f t' Hf He Hp. apply Hmax. apply Hmem. right. now exists f.
Qed.

Lemma previous_timestamp_is_latest_witness :
  let w := mkWorld ["2016-07-20 20:34:36.timestamp";
                    "2016-07-21 08:00:00.timestamp";
                    "2016-07-19 23:59:59.timestamp"] [] [] [] in
  let t := Dt.mkdatetime 2016 7 21 8 0 0 0 (Some Dt.pytz_utc) in
  getPreviousDataTimestamp w = (w, Ok (Some t))
  /\ (exists f, In f (archive w) /\ endswith f ".timestamp" = true
                /\ parseTimestamp (supposedTimestamp f) = Ok t)
  /\ forall f t', In f (archive w) -> endswith f ".timestamp" = true ->
                  parseTimestamp (supposedTimestamp f) = Ok t' ->
                  Dt.compare t' t <> Gt.
Proof.
  intros w t.
  assert (H : getPreviousDataTimestamp w = (w, Ok (Some t)))
    by (vm_compute; reflexivity).
  split; [exact H|].
  exact (proj2 (previous_timestamp_is_latest w (Some t) H)).
Defined.

Lemma fields_tz_eq (a b : Dt.datetime) :
  Dt.fields a = Dt.fields b -> Dt.tzinfo a = Dt.tzinfo b -> a = b.
Proof.
  destruct a, b. unfold Dt.fields. simpl. intros H Hz.
  inversion H. subst. reflexivity.
Qed.

(** X6. What [getPreviousDataTimestamp] returns does not depend on the
    order in which the directory is listed: when it returns for one
    listing, an instant or [None], it returns the same for every listing
    with the same names. *)
Theorem previous_timestamp_order_independent (w w' : World) :
  (forall f, In f (archive w) <-> In f (archive w')) ->
  forall r,
    snd (getPreviousDataTimestamp w) = Ok r ->
    snd (getPreviousDataTimestamp w') = Ok r.
Proof.
  intros Hsame r Hr. unfold getPreviousDataTimestamp in *. cbn [snd] in *.
  destruct (scan_archive (archive w) []) as [l| |] eqn:Hl;
    cbn [rbind] in Hr; try discriminate.
  destruct (scan_archive_ok _ _ _ Hl) as [Hall Hmem].
  assert (Hall' : forall f, In f (archive w') ->
                    exists t, parseTimestamp (supposedTimestamp f) = Ok t)
    by (intros f Hf; apply Hall; now apply Hsame).
  destruct (scan_archive_total _ [] Hall') as [l' Hl'].
  rewrite Hl'. cbn [rbind].
  destruct (scan_archive_ok _ _ _ Hl') as [_ Hmem'].
  assert (Heq : forall t, In t l <-> In t l').
  { intros t. rewrite Hmem, Hmem'. split;
      (intros [[]|[g [Hg [He Hp]]]]; right; exists g;
       repeat split; [now apply Hsame | exact He | exact Hp]). }
  assert (Hutc : forall t, In t l -> Dt.tzinfo t = Some Dt.pytz_utc).
  { intros t Ht. apply Hmem in Ht. destruct Ht as [[]|[g [_ [_ Hp]]]].
    exact (proj2 (parseTimestamp_ok _ _ Hp)). }
  rewrite <- Hr. clear Hr.
  destruct l as [|x xs], l' as [|x' xs']; [reflexivity | | |].
  - exfalso. exact (proj2 (Heq x') (or_introl eq_refl)).
  - exfalso. exact (proj1 (Heq x) (or_introl eq_refl)).
  - destruct (py_max_spec x xs) as [Hin Hmax].
    destruct (py_max_spec x' xs') as [Hin' Hmax'].
    set (m := Dt.py_max x xs) in *. set (m' := Dt.py_max x' xs') in *.
    assert (H1 : Dt.compare m m' <> Gt) by (apply Hmax'; now apply Heq).
    assert (H2 : Dt.compare m' m <> Gt) by (apply Hmax; now apply Heq).
    assert (E : Dt.compare m m' = Eq).
    { destruct (Dt.compare m m') eqn:C; [reflexivity | | congruence].
      exfalso. apply H2. apply compare_gt_lt. exact C. }
    do 2 f_equal. symmetry. apply fields_tz_eq.
    + apply lex_compare_eq. exact E.
    + rewrite (Hutc m Hin). symmetry. apply Hutc. now apply Heq.
Qed.

Lemma previous_timestamp_order_independent_witness :
  snd (getPreviousDataTimestamp
         (mkWorld ["2016-07-21 08:00:00.timestamp";
                   "2016-07-20 20:34:36.timestamp"] [] [] []))
  = Ok (Some (Dt.mkdatetime 2016 7 21 8 0 0 0 (Some Dt.pytz_utc))).
Proof.
  apply (previous_timestamp_order_independent
           (mkWorld ["2016-07-20 20:34:36.timestamp";
                     "2016-07-21 08:00:00.timestamp"] [] [] [])).
  - intros f. simpl. tauto.
  - vm_compute. reflexivity.
Defined.

(** ** Writing the archive and reading it back *)

Lemma archive_name_parts (t : Dt.datetime) :
  Dt.strftime "%Y-%m-%d %H:%M:%S.timestamp" t
  = (Dt.decimal (Dt.year t) ++ "-" ++ Dt.pad2 (Dt.month t) ++ "-"
     ++ Dt.pad2 (Dt.day t) ++ " " ++ Dt.pad2 (Dt.hour t) ++ ":"
     ++ Dt.pad2 (Dt.minute t) ++ ":" ++ Dt.pad2 (Dt.second t) ++ "")
    ++ ".timestamp".
Proof.
  change (Dt.strftime "%Y-%m-%d %H:%M:%S.timestamp" t)
    with (Dt.decimal (Dt.year t) ++ "-" ++ Dt.pad2 (Dt.month t) ++ "-"
          ++ Dt.pad2 (Dt.day t) ++ " " ++ Dt.pad2 (Dt.hour t) ++ ":"
          ++ Dt.pad2 (Dt.minute t) ++ ":" ++ Dt.pad2 (Dt.second t)
          ++ ".timestamp").
  repeat (rewrite app_assoc_str; simpl). reflexivity.
Qed.

Lemma archive_name_read_back (t : Dt.datetime) :
  Dt.valid t = true -> (1000 <= Dt.year t)%N ->
  endswith (Dt.strftime "%Y-%m-%d %H:%M:%S.timestamp" t) ".timestamp" = true
  /\ parseTimestamp
       (supposedTimestamp (Dt.strftime "%Y-%m-%d %H:%M:%S.timestamp" t))
     = Ok (Dt.mkdatetime (Dt.year t) (Dt.month t) (Dt.day t) (Dt.hour t)
             (Dt.minute t) (Dt.second t) 0 (Some Dt.pytz_utc)).
Proof.
  intros Hv Hy. rewrite archive_name_parts. split; [apply endswith_app|].
  unfold supposedTimestamp. rewrite slice_to_strip_suffix.
  unfold parseTimestamp. rewrite (dateutil_parse_written t "" Hv Hy).
  cbn [Dt.read_fraction Dt.obind Dt.read_zone String.eqb].
  cbv zeta. rewrite (valid_whole_second t _ Hv). reflexivity.
Qed.

(** X7. Round trip through the archive.  Starting from an empty archive,
    the entry [writeTimestampToArchive] creates for a valid instant with a
    year of four digits is read back by [getPreviousDataTimestamp] as that
    instant cut to the whole second. *)
Theorem archive_round_trip (t : Dt.datetime) (w : World) :
  Dt.valid t = true -> (1000 <= Dt.year t)%N ->
  Dt.tzinfo t = Some Dt.pytz_utc ->
  archive w = [] ->
  getPreviousDataTimestamp (fst (writeTimestampToArchive t w))
  = (fst (writeTimestampToArchive t w), Ok (Some (whole_second t))).
Proof.
  intros Hv Hy Hz Harch.
  destruct (archive_name_read_back t Hv Hy) as [Hend Hread].
  unfold getPreviousDataTimestamp. f_equal.
  unfold writeTimestampToArchive, touch. rewrite Harch.
  cbn [existsb fst archive app scan_archive].
  fold (supposedTimestamp (Dt.strftime "%Y-%m-%d %H:%M:%S.timestamp" t)).
  rewrite Hread, Hend. cbn [rbind negb app scan_archive Dt.py_max fold_left].
  unfold whole_second. rewrite Hz. reflexivity.
Qed.

Lemma archive_round_trip_witness :
  getPreviousDataTimestamp
    (fst (writeTimestampToArchive Scenario.observed Scenario.fresh))
  = (fst (writeTimestampToArchive Scenario.observed Scenario.fresh),
     Ok (Some (whole_second Scenario.observed))).
Proof.
  apply archive_round_trip; vm_compute; try reflexivity. discriminate.
Defined.

Lemma compare_whole_second (t : Dt.datetime) :
  Dt.compare t (whole_second t)
  = if (Dt.microsecond t =? 0)%N then Eq else Gt.
Proof.
  unfold Dt.compare, whole_second, Dt.fields. cbn [Dt.lex_compare
    Dt.year Dt.month Dt.day Dt.hour Dt.minute Dt.second Dt.microsecond].
  rewrite !N.compare_refl.
  destruct (N.eqb_spec (Dt.microsecond t) 0) as [->|Hne]; [reflexivity|].
  destruct (N.compare_spec (Dt.microsecond t) 0); [congruence | lia | reflexivity].
Qed.

(** X8. The gate after a recorded run.  Against the instant read back from
    its own archive entry, an observed instant without a fraction of a
    second makes the gate return false; one with a fraction is strictly
    later than its own record, and the gate raises [NameError]. *)
Theorem gate_against_own_record (t : Dt.datetime) :
  (Dt.microsecond t = 0%N ->
   _needToDoRun (Some (whole_second t)) t = Ok false)
  /\ (Dt.microsecond t <> 0%N ->
      _needToDoRun (Some (whole_second t)) t
      = Raise (NameError "currentTimestamp")).
Proof.
  pose proof (compare_whole_second t) as C. split; intros H.
  - apply needToDoRun_not_newer. rewrite C, H. discriminate.
  - unfold _needToDoRun, Dt.leb. rewrite C.
    destruct (N.eqb_spec (Dt.microsecond t) 0); [congruence | reflexivity].
Qed.

Lemma gate_against_own_record_witness :
  _needToDoRun (Some (whole_second Scenario.recorded)) Scenario.recorded
  = Ok false
  /\ _needToDoRun (Some (whole_second Scenario.observed)) Scenario.observed
     = Raise (NameError "currentTimestamp").
Proof.
  split.
  - apply (proj1 (gate_against_own_record Scenario.recorded)). reflexivity.
  - apply (proj2 (gate_against_own_record Scenario.observed)). discriminate.
Defined.

(** ** Output directories of different runs *)

Lemma read_same (k : nat) (a b ra rb : string) (x y : N) :
  Dt.read_digits k (a ++ ra) 0 = Some (x, ra) ->
  Dt.read_digits k (b ++ rb) 0 = Some (y, rb) ->
  a ++ ra = b ++ rb -> x = y /\ ra = rb.
Proof.
  intros Ha Hb E. rewrite E in Ha. rewrite Ha in Hb.
  inversion Hb. split; reflexivity.
Qed.

(** X10. Two runs within one second leave one archive entry: writing the
    entry of an instant, then that of an instant that agrees with it up to
    the second, changes nothing the second time. *)
Theorem second_write_same_second (t t' : Dt.datetime) (w : World) :
  Dt.year t = Dt.year t' -> Dt.month t = Dt.month t' ->
  Dt.day t = Dt.day t' -> Dt.hour t = Dt.hour t' ->
  Dt.minute t = Dt.minute t' -> Dt.second t = Dt.second t' ->
  writeTimestampToArchive t' (fst (writeTimestampToArchive t w))
  = (fst (writeTimestampToArchive t w), Ok tt).
Proof.
  intros Hy Hmo Hd Hh Hmi Hs.
  assert (E : Dt.strftime "%Y-%m-%d %H:%M:%S.timestamp" t'
              = Dt.strftime "%Y-%m-%d %H:%M:%S.timestamp" t).
  { destruct t, t'. simpl in Hy, Hmo, Hd, Hh, Hmi, Hs. subst.
    apply archive_name_ignores_microsecond. }
  unfold writeTimestampToArchive. rewrite E.
  set (name := Dt.strftime "%Y-%m-%d %H:%M:%S.timestamp" t).
  unfold touch. cbn [fst archive dirs fetched calls].
  destruct (existsb (String.eqb name) (archive w)) eqn:Hex.
  - rewrite Hex. reflexivity.
  - rewrite existsb_app. cbn [existsb]. rewrite String.eqb_refl.
    rewrite orb_true_r. reflexivity.
Qed.

Lemma second_write_same_second_witness :
  writeTimestampToArchive Scenario.observed
    (fst (writeTimestampToArchive Scenario.recorded Scenario.fresh))
  = (fst (writeTimestampToArchive Scenario.recorded Scenario.fresh), Ok tt).
Proof.
  apply second_write_same_second; reflexivity.
Defined.

(** ** What the patterns match *)

Lemma lazy_star_sound (lit s cap rest : string) :
  Re.lazy_star lit s = Some (cap, rest) ->
  s = cap ++ lit ++ rest /\ contains newline cap = false.
Proof.
  revert cap rest. induction s as [|c s IH]; intros cap rest H.
  - cbn [Re.lazy_star] in H.
    destruct (String.prefix lit "") eqn:P; [|discriminate].
    inversion H. subst. destruct (prefix_split _ _ P) as [r Hr].
    split; [|reflexivity]. simpl. rewrite Hr at 1.
    rewrite Hr, drop_app_exact. reflexivity.
  - cbn [Re.lazy_star] in H.
    destruct (String.prefix lit (String c s)) eqn:P.
    + inversion H. subst. destruct (prefix_split _ _ P) as [r Hr].
      split; [|reflexivity]. simpl. rewrite Hr, drop_app_exact. reflexivity.
    + destruct (Ascii.eqb c newline) eqn:Hc; [discriminate|].
      destruct (Re.lazy_star lit s) as [[cap' rest']|]; [|discriminate].
      inversion H. subst. destruct (IH cap' rest eq_refl) as [E Hn].
      split; [simpl; now rewrite <- E|].
      simpl. rewrite Hc. exact Hn.
Qed.

Lemma lazy_star_stops_at_first (q : ascii) (s cap rest : string) :
  Re.lazy_star (str1 q) s = Some (cap, rest) -> contains q cap = false.
Proof.
  revert cap rest. induction s as [|c s IH]; intros cap rest H.
  - cbn in H. discriminate.
  - cbn [Re.lazy_star] in H.
    destruct (String.prefix (str1 q) (String c s)) eqn:P.
    + inversion H. reflexivity.
    + destruct (Ascii.eqb c newline); [discriminate|].
      destruct (Re.lazy_star (str1 q) s) as [[cap' rest']|]; [|discriminate].
      inversion H. subst. simpl. rewrite (IH cap' rest eq_refl), orb_false_r.
      unfold str1 in P. simpl in P.
      destruct (ascii_dec q c) as [->|Hne].
      * now destruct s.
      * destruct (Ascii.eqb_spec c q); [congruence | reflexivity].
Qed.

(** Text free of newlines and of the first character of [lit] is passed
    over by the lazy run. *)
Lemma lazy_star_skip (c0 : ascii) (l a r : string) :
  contains c0 a = false -> contains newline a = false ->
  Re.lazy_star (String c0 l) (a ++ r)
  = match Re.lazy_star (String c0 l) r with
    | Some (cap, rest) => Some (a ++ cap, rest)
    | None => None
    end.
Proof.
  induction a as [|d a IH]; intros H0 Hn.
  - simpl. now destruct (Re.lazy_star (String c0 l) r) as [[? ?]|].
  - simpl in H0, Hn. apply orb_false_iff in H0. destruct H0 as [Hd H0].
    apply orb_false_iff in Hn. destruct Hn as [Hdn Hn].
    change (String d a ++ r) with (String d (a ++ r)).
    cbn [Re.lazy_star String.prefix].
    destruct (ascii_dec c0 d) as [->|_];
      [now rewrite Ascii.eqb_refl in Hd|].
    rewrite Hdn, (IH H0 Hn).
    now destruct (Re.lazy_star (String c0 l) r) as [[? ?]|].
Qed.

Lemma search_sound {A : Type} (m : string -> option A) (s : string) (a : A) :
  Re.search m s = Some a ->
  exists pre s', s = pre ++ s' /\ m s' = Some a.
Proof.
  induction s as [|c s IH]; cbn [Re.search]; intros H.
  - destruct (m "") eqn:E; [|discriminate]. exists "", "". now rewrite E.
  - destruct (m (String c s)) eqn:E.
    + exists "", (String c s). now rewrite E.
    + destruct (IH H) as [pre [s' [Hs Hm]]].
      exists (String c pre), s'. split; [simpl; now rewrite Hs | exact Hm].
Qed.

Lemma search_skip {A : Type} (m : string -> option A) (pre s : string) :
  (forall x y, pre = x ++ y -> y <> "" -> m (y ++ s) = None) ->
  Re.search m (pre ++ s) = Re.search m s.
Proof.
  induction pre as [|c pre IH]; intros H; [reflexivity|].
  change (String c pre ++ s) with (String c (pre ++ s)).
  cbn [Re.search].
  pose proof (H "" (String c pre) eq_refl ltac:(discriminate)) as H0.
  change (String c pre ++ s) with (String c (pre ++ s)) in H0.
  rewrite H0. apply IH. intros x y E Hy. apply (H (String c x) y); [|exact Hy].
  simpl. now rewrite E.
Qed.

Lemma skip_spaces_sound (s : string) :
  exists ws, s = ws ++ Re.skip_spaces s /\ all_chars Re.is_space ws = true.
Proof.
  induction s as [|c s [ws [E Hws]]].
  - now exists "".
  - cbn [Re.skip_spaces]. destruct (Re.is_space c) eqn:Hc.
    + exists (String c ws). split; [simpl; now rewrite <- E|].
      simpl. now rewrite Hc, Hws.
    + now exists "".
Qed.

Lemma lazy_plus_two_words (A B post : string) :
  A <> "" ->
  contains " " A = false -> contains newline A = false ->
  contains " " B = false -> contains newline B = false ->
  contains "U" B = false ->
  Re.lazy_plus " UTC" (A ++ " " ++ B ++ " UTC" ++ post)
  = Some (A ++ " " ++ B, post).
Proof.
  intros HA HsA HnA HsB HnB HuB.
  destruct A as [|a0 A]; [congruence|].
  simpl in HsA, HnA. apply orb_false_iff in HsA, HnA.
  destruct HsA as [_ HsA]. destruct HnA as [Ha0 HnA].
  change (String a0 A ++ " " ++ B ++ " UTC" ++ post)
    with (String a0 (A ++ String " " (B ++ " UTC" ++ post))).
  cbn [Re.lazy_plus]. rewrite Ha0.
  rewrite (lazy_star_skip " " "UTC" A _ HsA HnA).
  assert (Hfirst : String.prefix " UTC" (String " " (B ++ " UTC" ++ post))
                   = false).
  { cbn [String.prefix]. destruct (ascii_dec " " " ") as [_|n]; [|congruence].
    destruct B as [|b B]; [reflexivity|].
    simpl in HuB. apply orb_false_iff in HuB. destruct HuB as [Hb _].
    cbn [append String.prefix].
    destruct (ascii_dec "U" b) as [<-|_]; [discriminate | reflexivity]. }
  cbn [Re.lazy_star]. rewrite Hfirst.
  change (Ascii.eqb " " newline) with false. cbv iota.
  rewrite (lazy_star_skip " " "UTC" B _ HsB HnB).
  assert (Hend : Re.lazy_star " UTC" (" UTC" ++ post) = Some ("", post)).
  { destruct post; reflexivity. }
  rewrite Hend. rewrite app_nil_r_str. reflexivity.
Qed.

Lemma digits_exclude (c : ascii) (s : string) :
  all_chars Dt.is_digit_char s = true -> Dt.is_digit_char c = false ->
  contains c s = false.
Proof. apply all_chars_not_contains. Qed.

Lemma decimal_aux_not_empty (fuel : nat) (n : N) (acc : string) :
  acc <> "" -> Dt.decimal_aux fuel n acc <> "".
Proof.
  revert n acc. induction fuel as [|fuel IH]; intros n acc H; simpl;
    [exact H|].
  destruct (n / 10 =? 0)%N; [discriminate | apply IH; discriminate].
Qed.

Lemma decimal_not_empty (n : N) : Dt.decimal n <> "".
Proof.
  unfold Dt.decimal. cbn [Dt.decimal_aux].
  destruct (n / 10 =? 0)%N; [discriminate|].
  apply decimal_aux_not_empty. discriminate.
Qed.

(** X11. An index page that carries [Generated: ] followed by an instant in
    the display format of the program, after any text without a capital G,
    gives that instant cut to the whole second (valid instants with a year
    of four digits): the pattern takes the text up to the zone label, and
    that text parses. *)
Theorem generated_marker_round_trip (t : Dt.datetime) (pre post : string) :
  Dt.valid t = true -> (1000 <= Dt.year t)%N ->
  Dt.tzinfo t = Some Dt.pytz_utc ->
  contains "G" pre = false ->
  parseDataTimestampFromIndexPage
    (pre ++ "Generated: " ++ prettyPrintTimestamp t ++ post)
  = Ok (whole_second t).
Proof.
  intros Hv Hy Hz Hpre.
  pose proof (decimal_digits (Dt.year t)) as Dy.
  pose proof (pad2_digits (Dt.month t)) as Dmo.
  pose proof (pad2_digits (Dt.day t)) as Dd.
  pose proof (pad2_digits (Dt.hour t)) as Dh.
  pose proof (pad2_digits (Dt.minute t)) as Dmi.
  pose proof (pad2_digits (Dt.second t)) as Ds.
  pose proof (decimal_not_empty (Dt.year t)) as Hne.
  pose proof (dateutil_parse_written t "" Hv Hy) as Hparse.
  set (Y := Dt.decimal (Dt.year t)) in *.
  set (Mo := Dt.pad2 (Dt.month t)) in *.
  set (D := Dt.pad2 (Dt.day t)) in *.
  set (H := Dt.pad2 (Dt.hour t)) in *.
  set (Mi := Dt.pad2 (Dt.minute t)) in *.
  set (S := Dt.pad2 (Dt.second t)) in *.
  assert (Hno : forall c, Dt.is_digit_char c = false ->
                          c <> "-"%char -> c <> ":"%char ->
                          contains c (Y ++ "-" ++ Mo ++ "-" ++ D) = false
                          /\ contains c (H ++ ":" ++ Mi ++ ":" ++ S) = false).
  { intros c Hc H1 H2.
    apply Ascii.eqb_neq in H1, H2. rewrite Ascii.eqb_sym in H1, H2.
    rewrite !contains_app. cbn [contains].
    rewrite !(digits_exclude c) by assumption.
    rewrite H1, H2. split; reflexivity. }
  destruct (Hno " "%char eq_refl ltac:(discriminate) ltac:(discriminate))
    as [HsA HsB].
  destruct (Hno newline eq_refl ltac:(discriminate) ltac:(discriminate))
    as [HnA HnB].
  destruct (Hno "U"%char eq_refl ltac:(discriminate) ltac:(discriminate))
    as [_ HuB].
  assert (HA : Y ++ "-" ++ Mo ++ "-" ++ D <> "").
  { destruct Y; [congruence | discriminate]. }
  assert (Epage : pre ++ "Generated: " ++ prettyPrintTimestamp t ++ post
                  = pre ++ "Generated: "
                    ++ ((Y ++ "-" ++ Mo ++ "-" ++ D) ++ " "
                        ++ (H ++ ":" ++ Mi ++ ":" ++ S) ++ " UTC" ++ post)).
  { rewrite prettyPrintTimestamp_parts. fold Y Mo D H Mi S.
    repeat (rewrite app_assoc_str; simpl). reflexivity. }
  unfold parseDataTimestampFromIndexPage. rewrite Epage.
  rewrite search_skip.
  - change ("Generated: " ++ ?x) with ("Generated: " ++ x).
    assert (Hat : forall x, Re.generated_at ("Generated: " ++ x)
                            = option_map fst (Re.lazy_plus " UTC" x)).
    { intros x. unfold Re.generated_at. rewrite prefix_app.
      change (drop 11 ("Generated: " ++ x)) with x. reflexivity. }
    assert (Hsearch : forall x v,
               Re.generated_at ("Generated: " ++ x) = Some v ->
               Re.search Re.generated_at ("Generated: " ++ x) = Some v).
    { intros x v Hx. change ("Generated: " ++ x)
        with (String "G" ("enerated: " ++ x)) in *.
      cbn [Re.search]. now rewrite Hx. }
    rewrite (Hsearch _ ((Y ++ "-" ++ Mo ++ "-" ++ D) ++ " "
                        ++ (H ++ ":" ++ Mi ++ ":" ++ S))).
    + unfold parseTimestamp.
      assert (E : (Y ++ "-" ++ Mo ++ "-" ++ D) ++ " "
                  ++ (H ++ ":" ++ Mi ++ ":" ++ S)
                  = Y ++ "-" ++ Mo ++ "-" ++ D ++ " " ++ H ++ ":" ++ Mi
                    ++ ":" ++ S ++ "").
      { repeat (rewrite app_assoc_str; simpl).
        now rewrite app_nil_r_str. }
      rewrite E, Hparse.
      cbn [Dt.read_fraction Dt.obind Dt.read_zone String.eqb].
      cbv zeta. rewrite (valid_whole_second t _ Hv).
      unfold whole_second. rewrite Hz. reflexivity.
    + rewrite Hat.
      rewrite (lazy_plus_two_words _ _ post HA HsA HnA HsB HnB HuB).
      reflexivity.
  - intros x y E Hyne.
    assert (Hg : contains "G" y = false).
    { rewrite E, contains_app in Hpre.
      now apply orb_false_iff in Hpre. }
    destruct y as [|d y]; [congruence|].
    simpl in Hg. apply orb_false_iff in Hg. destruct Hg as [Hd _].
    unfold Re.generated_at. cbn [append String.prefix].
    destruct (ascii_dec "G" d) as [<-|_]; [discriminate | reflexivity].
Qed.

Lemma generated_marker_round_trip_witness :
  parseDataTimestampFromIndexPage
    ("<html><body>" ++ "Generated: "
     ++ prettyPrintTimestamp Scenario.observed ++ "</body></html>")
  = Ok (whole_second Scenario.observed).
Proof.
  apply generated_marker_round_trip; vm_compute; try reflexivity.
  discriminate.
Defined.

(** ** What [parseHref] returns *)

Lemma lazy_plus_sound (q : ascii) (s h rest : string) :
  Re.lazy_plus (str1 q) s = Some (h, rest) ->
  s = h ++ str1 q ++ rest /\ h <> "" /\ contains newline h = false
  /\ contains q (drop 1 h) = false.
Proof.
  unfold Re.lazy_plus. destruct s as [|c s]; [discriminate|].
  destruct (Ascii.eqb c newline) eqn:Hc; [discriminate|].
  destruct (Re.lazy_star (str1 q) s) as [[cap r]|] eqn:Hs; [|discriminate].
  intros H. inversion H. subst.
  destruct (lazy_star_sound _ _ _ _ Hs) as [E Hn].
  split; [simpl; now rewrite E|]. split; [discriminate|].
  split; [simpl; now rewrite Hc, Hn|].
  cbn [drop]. exact (lazy_star_stops_at_first _ _ _ _ Hs).
Qed.

Lemma href_at_sound (s h : string) :
  Re.href_at s = Some h ->
  exists ws1 ws2 post,
    s = "href" ++ ws1 ++ "=" ++ ws2 ++ str1 dquote ++ h ++ str1 dquote ++ post
    /\ all_chars Re.is_space ws1 = true /\ all_chars Re.is_space ws2 = true
    /\ h <> "" /\ contains newline h = false
    /\ contains dquote (drop 1 h) = false.
Proof.
  unfold Re.href_at.
  destruct (String.prefix "href" s) eqn:P; [|discriminate].
  destruct (prefix_split _ _ P) as [r0 Hr0]. subst s.
  change (drop 4 ("href" ++ r0)) with r0.
  destruct (skip_spaces_sound r0) as [ws1 [E1 Hws1]].
  destruct (Re.skip_spaces r0) as [|c1 r1]; [discriminate|].
  destruct (Ascii.eqb_spec c1 "="%char) as [->|Hne].
  - destruct (skip_spaces_sound r1) as [ws2 [E2 Hws2]].
    destruct (Re.skip_spaces r1) as [|q r2]; [discriminate|].
    destruct (Ascii.eqb_spec q dquote) as [->|]; [|discriminate].
    destruct (Re.lazy_plus (str1 dquote) r2) as [[h' post]|] eqn:Hl;
      [|discriminate].
    cbn [option_map fst]. intros H. inversion H. subst h'.
    destruct (lazy_plus_sound _ _ _ _ Hl) as [E3 [Hne [Hn Hq]]].
    exists ws1, ws2, post. repeat split; try assumption.
    rewrite E1 at 1. rewrite E2 at 1. rewrite E3 at 1. reflexivity.
  - destruct c1 as [[] [] [] [] [] [] [] []]; try discriminate.
    congruence.
Qed.

Lemma skip_spaces_app (ws r : string) (c : ascii) :
  all_chars Re.is_space ws = true -> Re.is_space c = false ->
  Re.skip_spaces (ws ++ String c r) = String c r.
Proof.
  intros Hws Hc. induction ws as [|d ws IH].
  - cbn [append Re.skip_spaces]. now rewrite Hc.
  - cbn [all_chars] in Hws. apply andb_true_iff in Hws.
    destruct Hws as [Hd Hws].
    cbn [append Re.skip_spaces]. rewrite Hd. exact (IH Hws).
Qed.

Lemma lazy_plus_complete (q : ascii) (h post : string) :
  h <> "" -> contains newline h = false -> contains q (drop 1 h) = false ->
  Re.lazy_plus (str1 q) (h ++ String q post) = Some (h, post).
Proof.
  intros Hne Hn Hq. destruct h as [|c h]; [congruence|].
  cbn [contains] in Hn. apply orb_false_iff in Hn. destruct Hn as [Hc Hn].
  cbn [drop] in Hq.
  cbn [append Re.lazy_plus]. rewrite Hc. unfold str1.
  rewrite (lazy_star_skip q "" h (String q post) Hq Hn).
  assert (Hp : String.prefix (String q "") (String q post) = true)
    by (apply (prefix_app (String q "") post)).
  destruct post as [|d post]; cbn [Re.lazy_star]; rewrite Hp;
    cbn [String.length drop]; now rewrite app_nil_r_str.
Qed.

(** At a position, [Re.href_at] finds exactly the matches of the pattern. *)
Lemma href_at_match (s h : string) :
  Re.href_at s = Some h <-> href_match s h.
Proof.
  split; [exact (href_at_sound s h)|].
  intros [ws1 [ws2 [post [E [H1 [H2 [Hne [Hn Hq]]]]]]]]. subst s.
  unfold Re.href_at. rewrite prefix_app.
  change (drop 4 ("href" ++ ?r)) with r.
  change (ws1 ++ "=" ++ ?r) with (ws1 ++ String "=" r).
  rewrite (skip_spaces_app ws1 _ "=" H1 eq_refl).
  change (ws2 ++ str1 dquote ++ ?r) with (ws2 ++ String dquote r).
  rewrite (skip_spaces_app ws2 _ dquote H2 eq_refl).
  rewrite Ascii.eqb_refl.
  change (h ++ str1 dquote ++ post) with (h ++ String dquote post).
  now rewrite (lazy_plus_complete dquote h post Hne Hn Hq).
Qed.

Lemma href_at_none (s : string) :
  Re.href_at s = None <-> forall h, ~ href_match s h.
Proof.
  split.
  - intros E h Hm. apply href_at_match in Hm. congruence.
  - intros H. destruct (Re.href_at s) as [h|] eqn:E; [|reflexivity].
    exfalso. exact (H h (proj1 (href_at_match s h) E)).
Qed.

(** [re.search] returns the match at the leftmost position that has one. *)
Lemma search_leftmost {A : Type} (m : string -> option A) (s : string) (a : A) :
  Re.search m s = Some a ->
  exists pre s',
    s = pre ++ s' /\ m s' = Some a
    /\ forall x y, pre = x ++ y -> y <> "" -> m (y ++ s') = None.
Proof.
  induction s as [|c s IH]; cbn [Re.search]; intros H.
  - destruct (m "") eqn:E; [|discriminate]. exists "", "".
    split; [reflexivity|]. split; [now rewrite E|].
    intros x y Hxy Hy. destruct x, y; try discriminate. congruence.
  - destruct (m (String c s)) eqn:E.
    + exists "", (String c s). split; [reflexivity|]. split; [now rewrite E|].
      intros x y Hxy Hy. destruct x, y; try discriminate. congruence.
    + destruct (IH H) as [pre [s' [Hs [Hm Hleft]]]].
      exists (String c pre), s'. split; [simpl; now rewrite Hs|].
      split; [exact Hm|].
      intros x y Hxy Hy. destruct x as [|d x].
      * simpl in Hxy. subst y. simpl. now rewrite <- Hs.
      * simpl in Hxy. inversion Hxy. subst. now apply (Hleft x y).
Qed.

Lemma search_none {A : Type} (m : string -> option A) (s : string) :
  Re.search m s = None -> forall x y, s = x ++ y -> m y = None.
Proof.
  induction s as [|c s IH]; cbn [Re.search]; intros H x y Hxy.
  - destruct (m "") eqn:E; [discriminate|].
    destruct x, y; try discriminate. exact E.
  - destruct (m (String c s)) eqn:E; [discriminate|].
    destruct x as [|d x].
    + simpl in Hxy. now subst y.
    + simpl in Hxy. inversion Hxy. subst. now apply (IH H x y).
Qed.

(** X12. [parseHref] returns the group of the leftmost match of the
    pattern in the link, the word [href], optional spaces, [=], optional
    spaces and a quoted text: the link is a text [pre] that no match begins
    in, followed by a text that begins with a match whose quoted text is
    the result.  The match need not be at the first [href] of the link:
    an [href] that is not followed by [=] and a double quote is passed
    over.  When no position of the link begins a match, [parseHref] ends
    the process; it fails in no other way. *)
Theorem parseHref_between_quotes (htmlLink : string) :
  match parseHref htmlLink with
  | Ok h =>
      exists pre s,
        htmlLink = pre ++ s /\ href_match s h
        /\ forall x y h', pre = x ++ y -> y <> "" -> ~ href_match (y ++ s) h'
  | Raise e =>
      e = SystemExit
      /\ forall x y h', htmlLink = x ++ y -> ~ href_match y h'
  | OutOfFuel => False
  end.
Proof.
  unfold parseHref.
  destruct (Re.search Re.href_at htmlLink) as [h|] eqn:Hs.
  - destruct (search_leftmost _ _ _ Hs) as [pre [s [E [Hat Hleft]]]].
    exists pre, s. split; [exact E|].
    split; [exact (proj1 (href_at_match s h) Hat)|].
    intros x y h' Hxy Hy. apply href_at_none. exact (Hleft x y Hxy Hy).
  - split; [reflexivity|]. intros x y h' Hxy.
    apply href_at_none. exact (search_none _ _ Hs x y Hxy).
Qed.

(** A link whose first [href] is followed by an unquoted [x] and whose
    second is followed by a quoted [y] has its match at the second. *)
Example parseHref_second_href :
  parseHref ("<a href=x" ++ str1 dquote ++ " href=" ++ str1 dquote ++ "y"
             ++ str1 dquote ++ ">t</a>") = Ok "y".
Proof. vm_compute. reflexivity. Qed.

(** ** What [getHtmlLinks] returns, and when it fails *)

Lemma findall_from_sound (m : string -> option string) (skip : nat)
  (s t : string) :
  In t (Re.findall_from m skip s) ->
  exists pre s', s = pre ++ s' /\ m s' = Some t.
Proof.
  revert skip. induction s as [|c s IH]; intros skip H; [destruct H|].
  cbn [Re.findall_from] in H. destruct skip as [|k].
  - destruct (m (String c s)) as [t0|] eqn:E.
    + destruct H as [<-|H].
      * exists "", (String c s). now rewrite E.
      * destruct (IH _ H) as [pre [s' [Hs Hm]]].
        exists (String c pre), s'. split; [simpl; now rewrite Hs | exact Hm].
    + destruct (IH _ H) as [pre [s' [Hs Hm]]].
      exists (String c pre), s'. split; [simpl; now rewrite Hs | exact Hm].
  - destruct (IH _ H) as [pre [s' [Hs Hm]]].
    exists (String c pre), s'. split; [simpl; now rewrite Hs | exact Hm].
Qed.

Lemma anchor_at_sound (s t : string) :
  Re.anchor_at s = Some t ->
  exists c ws cap rest,
    s = t ++ rest
    /\ t = "<a" ++ String c ws ++ "href" ++ cap ++ "</a>"
    /\ Re.is_space c = true /\ all_chars Re.is_space ws = true
    /\ contains newline cap = false.
Proof.
  unfold Re.anchor_at.
  destruct (String.prefix "<a" s) eqn:P; [|discriminate].
  destruct (prefix_split _ _ P) as [r Hr].
  assert (Hd : drop 2 s = r) by (subst s; reflexivity). rewrite Hd.
  destruct r as [|c r']; [discriminate|].
  destruct (Re.is_space c) eqn:Hc; [|discriminate].
  destruct (skip_spaces_sound r') as [ws [E1 Hws]]. cbv zeta.
  destruct (String.prefix "href" (Re.skip_spaces r')) eqn:P2; [|discriminate].
  destruct (prefix_split _ _ P2) as [r2 Hr2]. rewrite Hr2.
  change (drop 4 ("href" ++ r2)) with r2.
  destruct (Re.lazy_star "</a>" r2) as [[cap rest]|] eqn:Hl; [|discriminate].
  destruct (lazy_star_sound _ _ _ _ Hl) as [E3 Hn].
  assert (Es : s = ("<a" ++ String c ws ++ "href" ++ cap ++ "</a>") ++ rest).
  { rewrite Hr. rewrite E1 at 1. rewrite Hr2. rewrite E3 at 1.
    repeat (rewrite app_assoc_str; simpl). reflexivity. }
  intros H. inversion H as [Ht]. clear H.
  assert (Et : take (String.length s - String.length rest) s
               = "<a" ++ String c ws ++ "href" ++ cap ++ "</a>").
  { rewrite Es at 2. rewrite <- (take_app_exact
      ("<a" ++ String c ws ++ "href" ++ cap ++ "</a>") rest) at 2.
    f_equal. rewrite Es at 1. rewrite length_app_str. lia. }
  exists c, ws, cap, rest. rewrite Et. repeat split; assumption.
Qed.

(** X13. Every link [getHtmlLinks] returns is a piece of the page that
    starts with [<a], one or more spaces and [href] and ends with [</a>],
    with no newline between [href] and [</a>]. *)
Theorem getHtmlLinks_are_anchors (htmlContent : string) (links : list string) :
  getHtmlLinks htmlContent = Ok links ->
  Forall (fun l =>
            exists pre post c ws cap,
              htmlContent = pre ++ l ++ post
              /\ l = "<a" ++ String c ws ++ "href" ++ cap ++ "</a>"
              /\ Re.is_space c = true /\ all_chars Re.is_space ws = true
              /\ contains newline cap = false) links.
Proof.
  intros H. destruct (keep_relative_spec _ _ H) as [Hf _].
  apply Forall_forall. intros l Hl. rewrite Hf in Hl.
  apply filter_In in Hl. destruct Hl as [Hl _].
  destruct (findall_from_sound _ _ _ _ Hl) as [pre [s' [Es Hat]]].
  destruct (anchor_at_sound _ _ Hat) as [c [ws [cap [rest [E [Et [Hc [Hw Hn]]]]]]]].
  exists pre, rest, c, ws, cap. repeat split; try assumption.
  rewrite Es, E. reflexivity.
Qed.

Lemma getHtmlLinks_are_anchors_witness :
  Forall (fun l =>
            exists pre post c ws cap,
              Scenario.deepIndexPage = pre ++ l ++ post
              /\ l = "<a" ++ String c ws ++ "href" ++ cap ++ "</a>"
              /\ Re.is_space c = true /\ all_chars Re.is_space ws = true
              /\ contains newline cap = false)
    [Scenario.anchor "tx-sl.csv" "TX"; Scenario.anchor "ca/" "CA"].
Proof.
  apply (getHtmlLinks_are_anchors Scenario.deepIndexPage).
  vm_compute. reflexivity.
Defined.

Lemma parseHref_cases (l : string) :
  (exists h, parseHref l = Ok h) \/ parseHref l = Raise SystemExit.
Proof.
  unfold parseHref. destruct (Re.search Re.href_at l) as [h|];
    [left; now exists h | right; reflexivity].
Qed.

Lemma keep_relative_outcome (potentialLinks : list string) :
  match keep_relative potentialLinks with
  | Ok _ => forall l, In l potentialLinks -> exists h, parseHref l = Ok h
  | Raise e =>
      e = SystemExit
      /\ exists l, In l potentialLinks /\ parseHref l = Raise SystemExit
  | OutOfFuel => False
  end.
Proof.
  induction potentialLinks as [|x rest IH]; [intros l []|].
  cbn [keep_relative].
  destruct (parseHref_cases x) as [[h Hh]|Hx].
  - rewrite Hh. cbn [rbind].
    destruct (keep_relative rest) as [ls|e|]; cbn [rbind].
    + destruct (_ && _); intros l [<-|Hl];
        try (now exists h); now apply IH.
    + destruct IH as [He [l [Hl Hp]]]. split; [exact He|].
      exists l. split; [now right | exact Hp].
    + exact IH.
  - rewrite Hx. cbn [rbind]. split; [reflexivity|].
    exists x. split; [now left | exact Hx].
Qed.

(** X14. [getHtmlLinks] either returns, and then every anchor of the page
    has an href that [parseHref] finds, or ends the process, and then some
    anchor of the page has none: one anchor without a quoted href is fatal
    for the whole page, whether or not the anchor would have been kept. *)
Theorem getHtmlLinks_outcome (htmlContent : string) :
  match getHtmlLinks htmlContent with
  | Ok _ =>
      forall l, In l (Re.findall Re.anchor_at htmlContent) ->
                exists h, parseHref l = Ok h
  | Raise e =>
      e = SystemExit
      /\ exists l, In l (Re.findall Re.anchor_at htmlContent)
                   /\ parseHref l = Raise SystemExit
  | OutOfFuel => False
  end.
Proof. apply keep_relative_outcome. Qed.

(** ** What the File Processor is started on *)

Lemma processor_step_refl (w : World) : processor_step w w.
Proof.
  split; [apply incl_refl|]. exists []. split; [now rewrite app_nil_r|].
  constructor.
Qed.

Lemma processor_step_trans (w1 w2 w3 : World) :
  processor_step w1 w2 -> processor_step w2 w3 -> processor_step w1 w3.
Proof.
  intros [I1 [n1 [C1 F1]]] [I2 [n2 [C2 F2]]].
  split; [eapply incl_tran; eassumption|].
  exists (n1 ++ n2)%list. split; [rewrite C2, C1; now rewrite app_assoc|].
  apply Forall_app. split; [|exact F2].
  eapply Forall_impl; [|exact F1].
  intros c [H1 [H2 H3]]. repeat split; try assumption. now apply I2.
Qed.

Lemma starts_well_ret {A : Type} (a : A) : starts_processor_well (mret a).
Proof. intro w. apply processor_step_refl. Qed.

Lemma starts_well_lift {A : Type} (r : result A) :
  starts_processor_well (lift r).
Proof. intro w. apply processor_step_refl. Qed.

Lemma starts_well_bind {A B : Type} (m : M A) (k : A -> M B) :
  starts_processor_well m -> (forall a, starts_processor_well (k a)) ->
  starts_processor_well (mbind m k).
Proof.
  intros Hm Hk w. unfold mbind. specialize (Hm w).
  destruct (m w) as [w' [a|e|]]; simpl in *; try assumption.
  eapply processor_step_trans; [exact Hm | apply Hk].
Qed.

Lemma starts_well_for_each {A : Type} (l : list A) (body : A -> M unit) :
  (forall x, starts_processor_well (body x)) ->
  starts_processor_well (for_each l body).
Proof.
  intros Hb. induction l as [|x l IH]; simpl.
  - apply starts_well_ret.
  - apply starts_well_bind; [apply Hb | intros _; exact IH].
Qed.

Lemma starts_well_get (web : string -> option string) (url : string) :
  starts_processor_well (getHtmlContent web url).
Proof.
  intro w. unfold getHtmlContent.
  destruct (web url); simpl; (split; [apply incl_refl|]);
    exists []; (split; [now rewrite app_nil_r | constructor]).
Qed.

Lemma starts_well_areaManager l u d o t :
  starts_processor_well (linkScanner_getAreaManagerPolygons l u d o t).
Proof.
  unfold linkScanner_getAreaManagerPolygons.
  destruct (areaManagerPolygonCsv l u d); apply starts_well_ret.
Qed.

Lemma starts_well_speedLimits l u d o t :
  starts_processor_well (linkScanner_getMissingStateSpeedLimits l u d o t).
Proof.
  intro w. unfold linkScanner_getMissingStateSpeedLimits, mbind, lift.
  destruct (parseHref l) as [href| |]; cbn [fst];
    try apply processor_step_refl.
  destruct (endswith href "-sl.csv") eqn:Hsuf; cbn [negb];
    [|apply processor_step_refl].
  destruct (mergeParentAndRelativeUrl u href) as [merged| |] eqn:Hm;
    cbn [fst]; try apply processor_step_refl.
  destruct (mergeParentAndRelativeUrl_app _ _ _ Hm) as [base Hb].
  destruct (endswith_split _ _ Hsuf) as [a Ha].
  assert (Hmerged : endswith merged "-sl.csv" = true).
  { rewrite Hb, Ha, <- app_assoc_str. apply endswith_app. }
  set (outputDir := o ++ "/" ++ _ ++ "/" ++ timestampDirName t
                    ++ "/speed_limits").
  assert (Hout : endswith outputDir "/speed_limits" = true).
  { unfold outputDir. rewrite <- !app_assoc_str. apply endswith_app. }
  unfold isdir, makedirs, subprocess_call, mret.
  destruct (existsb (String.eqb outputDir) (dirs w)) eqn:Hex; cbn [negb fst].
  - split; [apply incl_refl|]. exists [(merged, outputDir)].
    split; [reflexivity|]. constructor; [|constructor].
    cbn [fst snd dirs]. repeat split; try assumption.
    apply existsb_exists in Hex. destruct Hex as [x [Hx Ex]].
    apply String.eqb_eq in Ex. now subst x.
  - split; [cbn [dirs]; apply incl_appl, incl_refl|].
    exists [(merged, outputDir)]. split; [reflexivity|].
    constructor; [|constructor]. cbn [fst snd dirs].
    repeat split; try assumption. apply in_or_app. right. now left.
Qed.

Lemma processContent_starts_well (web : string -> option string)
  (fuel : nat) (htmlContent htmlUrl : string) (linkDepth : nat)
  (stateOutputDir : string) (currTimestamp : Dt.datetime) (recurse : bool) :
  starts_processor_well
    (processContent web fuel htmlContent htmlUrl linkDepth stateOutputDir
       currTimestamp recurse).
Proof.
  revert htmlContent htmlUrl linkDepth.
  induction fuel as [|fuel IH]; intros htmlContent htmlUrl linkDepth.
  - apply starts_well_lift.
  - cbn [processContent getContentLinkScanners].
    apply starts_well_bind; [apply starts_well_ret | intros _].
    apply starts_well_bind; [apply starts_well_lift | intros htmlLinks].
    apply starts_well_bind.
    + apply starts_well_for_each. intros l.
      cbn [for_each]. apply starts_well_bind; [apply starts_well_areaManager|].
      intros _. apply starts_well_bind; [apply starts_well_speedLimits|].
      intros _. apply starts_well_ret.
    + intros _. destruct recurse; [|apply starts_well_ret].
      generalize htmlUrl. clear htmlUrl.
      induction htmlLinks as [|l rest IHl]; intros htmlUrl.
      * apply starts_well_ret.
      * apply starts_well_bind; [apply starts_well_lift | intros [base newUrl]].
        destruct (endswith newUrl ".csv"); [apply IHl|].
        apply starts_well_bind; [apply starts_well_get|].
        intros content.
        apply starts_well_bind; [apply IH | intros _; apply IHl].
Qed.

(** X15. Whatever the site, a traversal starts the File Processor only on
    locators that end in [-sl.csv], each time with an output directory that
    ends in [/speed_limits] and is among the directories that exist when
    the traversal ends; and it removes no directory.  (With the fact that
    no requested locator ends in [.csv], a locator given to the File
    Processor is never also requested.) *)
Theorem processor_started_on_speed_limit_files
  (web : string -> option string) (fuel : nat)
  (htmlContent htmlUrl : string) (linkDepth : nat) (stateOutputDir : string)
  (currTimestamp : Dt.datetime) (recurse : bool) (w : World) :
  processor_step w
    (fst (processContent web fuel htmlContent htmlUrl linkDepth stateOutputDir
            currTimestamp recurse w)).
Proof. apply processContent_starts_well. Qed.

(** ** A failed request ends the traversal *)

Section FailFast.

Variable web : string -> option string.

Lemma fail_fast_same {A : Type} (w w' : World) (r : result A) :
  fetched w' = fetched w -> fail_fast web w w' r.
Proof.
  intros E. exists []. split; [now rewrite app_nil_r | left; constructor].
Qed.

Lemma stops_ret {A : Type} (a : A) : stops_at_failed_fetch web (mret a).
Proof. intro w. now apply fail_fast_same. Qed.

Lemma stops_lift {A : Type} (r : result A) : stops_at_failed_fetch web (lift r).
Proof. intro w. now apply fail_fast_same. Qed.

Lemma stops_bind {A B : Type} (m : M A) (k : A -> M B) :
  stops_at_failed_fetch web m -> (forall a, stops_at_failed_fetch web (k a)) ->
  stops_at_failed_fetch web (mbind m k).
Proof.
  intros Hm Hk w. unfold mbind. specialize (Hm w).
  destruct (m w) as [w1 [a|e|]]; cbn [fst snd] in *.
  - destruct Hm as [n1 [E1 [F1|[Hbad _]]]]; [|discriminate].
    destruct (Hk a w1) as [n2 [E2 H2]].
    exists (n1 ++ n2)%list. split; [rewrite E2, E1; now rewrite app_assoc|].
    destruct H2 as [F2|[Hr [pre [u [En [Fp Hu]]]]]].
    + left. apply Forall_app. now split.
    + right. split; [exact Hr|]. exists (n1 ++ pre)%list, u.
      split; [rewrite En; now rewrite app_assoc|].
      split; [apply Forall_app; now split | exact Hu].
  - destruct Hm as [n1 [E1 H1]]. exists n1. split; [exact E1|].
    destruct H1 as [F1|[Hr H1]]; [now left|].
    right. inversion Hr. subst. split; [reflexivity | exact H1].
  - destruct Hm as [n1 [E1 H1]]. exists n1. split; [exact E1|].
    destruct H1 as [F1|[Hr H1]]; [now left | discriminate].
Qed.

Lemma stops_for_each {A : Type} (l : list A) (body : A -> M unit) :
  (forall x, stops_at_failed_fetch web (body x)) ->
  stops_at_failed_fetch web (for_each l body).
Proof.
  intros Hb. induction l as [|x l IH]; simpl.
  - apply stops_ret.
  - apply stops_bind; [apply Hb | intros _; exact IH].
Qed.

Lemma stops_get (url : string) :
  stops_at_failed_fetch web (getHtmlContent web url).
Proof.
  intro w. unfold getHtmlContent. exists [url].
  destruct (web url) as [page|] eqn:E; cbn [fst snd fetched].
  - split; [reflexivity|]. left. constructor; [congruence | constructor].
  - split; [reflexivity|]. right. split; [reflexivity|].
    exists [], url. repeat split; [constructor | exact E].
Qed.

Lemma stops_areaManager l u d o t :
  stops_at_failed_fetch web (linkScanner_getAreaManagerPolygons l u d o t).
Proof.
  unfold linkScanner_getAreaManagerPolygons.
  destruct (areaManagerPolygonCsv l u d); apply stops_ret.
Qed.

Lemma stops_speedLimits l u d o t :
  stops_at_failed_fetch web (linkScanner_getMissingStateSpeedLimits l u d o t).
Proof.
  unfold linkScanner_getMissingStateSpeedLimits.
  apply stops_bind; [apply stops_lift | intros href].
  destruct (negb (endswith href "-sl.csv")); [apply stops_ret|].
  apply stops_bind; [apply stops_lift | intros merged].
  apply stops_bind; [intro w; now apply fail_fast_same | intros b].
  apply stops_bind.
  - destruct (negb b); [intro w; now apply fail_fast_same | apply stops_ret].
  - intros _. intro w. now apply fail_fast_same.
Qed.

Lemma processContent_stops (fuel : nat) (htmlContent htmlUrl : string)
  (linkDepth : nat) (stateOutputDir : string) (currTimestamp : Dt.datetime)
  (recurse : bool) :
  stops_at_failed_fetch web
    (processContent web fuel htmlContent htmlUrl linkDepth stateOutputDir
       currTimestamp recurse).
Proof.
  revert htmlContent htmlUrl linkDepth.
  induction fuel as [|fuel IH]; intros htmlContent htmlUrl linkDepth.
  - apply stops_lift.
  - cbn [processContent getContentLinkScanners].
    apply stops_bind; [apply stops_ret | intros _].
    apply stops_bind; [apply stops_lift | intros htmlLinks].
    apply stops_bind.
    + apply stops_for_each. intros l.
      cbn [for_each]. apply stops_bind; [apply stops_areaManager|].
      intros _. apply stops_bind; [apply stops_speedLimits|].
      intros _. apply stops_ret.
    + intros _. destruct recurse; [|apply stops_ret].
      generalize htmlUrl. clear htmlUrl.
      induction htmlLinks as [|l rest IHl]; intros htmlUrl.
      * apply stops_ret.
      * apply stops_bind; [apply stops_lift | intros [base newUrl]].
        destruct (endswith newUrl ".csv"); [apply IHl|].
        apply stops_bind; [apply stops_get|].
        intros content.
        apply stops_bind; [apply IH | intros _; apply IHl].
Qed.

End FailFast.

(** X16. A failed request ends the traversal on the spot.  Of the locators
    a traversal requests, either all were served, or the last one was not
    while all before it were, and then the traversal ended with
    [SystemExit]: nothing is requested after a failure, and a traversal
    that returns normally has had every request served. *)
Theorem traversal_stops_at_failed_fetch (web : string -> option string)
  (fuel : nat) (htmlContent htmlUrl : string) (linkDepth : nat)
  (stateOutputDir : string) (currTimestamp : Dt.datetime) (recurse : bool)
  (w : World) :
  fail_fast web w
    (fst (processContent web fuel htmlContent htmlUrl linkDepth stateOutputDir
            currTimestamp recurse w))
    (snd (processContent web fuel htmlContent htmlUrl linkDepth stateOutputDir
            currTimestamp recurse w)).
Proof. apply processContent_stops. Qed.

(** ** Pages without links, pages without the marker *)

Lemma findall_without_tag (skip : nat) (s : string) :
  contains "<" s = false -> Re.findall_from Re.anchor_at skip s = [].
Proof.
  revert skip. induction s as [|c s IH]; intros skip H; [reflexivity|].
  simpl in H. apply orb_false_iff in H. destruct H as [Hc Hs].
  cbn [Re.findall_from]. destruct skip as [|k]; [|now apply IH].
  assert (Hat : Re.anchor_at (String c s) = None).
  { unfold Re.anchor_at. cbn [String.prefix].
    destruct (ascii_dec "<" c) as [<-|_]; [discriminate | reflexivity]. }
  rewrite Hat. now apply IH.
Qed.

(** X17. A page without any [<] is a leaf: the traversal of it returns at
    once, with or without recursion, and changes nothing: no request, no
    directory, no File Processor. *)
Theorem page_without_tag_is_leaf (web : string -> option string) (fuel : nat)
  (htmlContent htmlUrl : string) (linkDepth : nat) (stateOutputDir : string)
  (currTimestamp : Dt.datetime) (recurse : bool) (w : World) :
  contains "<" htmlContent = false ->
  processContent web (S fuel) htmlContent htmlUrl linkDepth stateOutputDir
    currTimestamp recurse w
  = (w, Ok tt).
Proof.
  intros H. cbn [processContent getContentLinkScanners for_each].
  unfold getHtmlLinks, Re.findall. rewrite (findall_without_tag 0 _ H).
  destruct recurse; reflexivity.
Qed.

Lemma page_without_tag_is_leaf_witness :
  processContent Scenario.web 1 "state,segment,limit" "http://example.org/x"
    3 "/out" Scenario.observed true Scenario.fresh
  = (Scenario.fresh, Ok tt).
Proof.
  apply page_without_tag_is_leaf. reflexivity.
Defined.

Lemma search_generated_without_G (page : string) :
  contains "G" page = false -> Re.search Re.generated_at page = None.
Proof.
  intros H. rewrite <- (app_nil_r_str page). rewrite search_skip.
  - reflexivity.
  - intros x y E Hy.
    assert (Hg : contains "G" y = false).
    { rewrite E, contains_app in H. now apply orb_false_iff in H. }
    destruct y as [|d y]; [congruence|].
    simpl in Hg. apply orb_false_iff in Hg. destruct Hg as [Hd _].
    unfold Re.generated_at. cbn [append String.prefix].
    destruct (ascii_dec "G" d) as [<-|_]; [discriminate | reflexivity].
Qed.

(** X18. A root page without the marker ends the run before anything is
    done: when the archive has been read and the root page has no capital
    G (so no [Generated: ]), [main] ends with [SystemExit] having only
    requested the root page. *)
Theorem page_without_marker_aborts (web : string -> option string)
  (fuel : nat) (rootUrl stateOutputDir page : string) (w : World)
  (previous : option Dt.datetime) :
  getPreviousDataTimestamp w = (w, Ok previous) ->
  web rootUrl = Some page ->
  contains "G" page = false ->
  main web fuel rootUrl stateOutputDir w
  = (mkWorld (archive w) (dirs w) (fetched w ++ [rootUrl])%list (calls w),
     Raise SystemExit).
Proof.
  intros Hprev Hweb HG. unfold main, mbind. rewrite Hprev.
  unfold getHtmlContent. rewrite Hweb. unfold lift.
  unfold parseDataTimestampFromIndexPage.
  rewrite (search_generated_without_G page HG). reflexivity.
Qed.

Lemma page_without_marker_aborts_witness :
  main (fun _ => Some "<html>no date here</html>") 3 Scenario.rootUrl "/out"
    Scenario.fresh
  = (mkWorld (archive Scenario.fresh) (dirs Scenario.fresh)
       (fetched Scenario.fresh ++ [Scenario.rootUrl])%list
       (calls Scenario.fresh),
     Raise SystemExit).
Proof.
  apply (page_without_marker_aborts _ 3 Scenario.rootUrl "/out"
           "<html>no date here</html>" Scenario.fresh None); reflexivity.
Defined.

(** X19. When [parseTimestamp] returns, the instant is stamped with the
    UTC zone and its fields are in range; and a [ValueError] that it raises
    always carries the message about the HTML page, whatever text was being
    parsed (a file name of the archive as well). *)
Theorem parseTimestamp_outcome (possibleTimestamp : string) :
  (forall t, parseTimestamp possibleTimestamp = Ok t ->
             Dt.tzinfo t = Some Dt.pytz_utc /\ Dt.valid t = true)
  /\ (forall message,
        parseTimestamp possibleTimestamp = Raise (ValueError message) ->
        message = "Could not parse timestamp from HTML").
Proof.
  split.
  - intros t H. destruct (parseTimestamp_ok _ _ H). now split.
  - intros message H. pose proof (parseTimestamp_raise _ _ H) as E.
    now inversion E.
Qed.

Lemma parseTimestamp_outcome_witness :
  (Dt.tzinfo Scenario.observed = Some Dt.pytz_utc
   /\ Dt.valid Scenario.observed = true)
  /\ parseTimestamp "garbage"
     = Raise (ValueError "Could not parse timestamp from HTML").
Proof.
  split.
  - apply (proj1 (parseTimestamp_outcome "2016-07-20 20:34:36.844030")).
    vm_compute. reflexivity.
  - vm_compute. reflexivity.
Defined.

(** ** Requested locators and processed locators *)

Lemma endswith_sl_csv (u : string) :
  endswith u "-sl.csv" = true -> endswith u ".csv" = true.
Proof.
  intros H. destruct (endswith_split _ _ H) as [a ->].
  change "-sl.csv" with ("-sl" ++ ".csv").
  rewrite <- app_assoc_str. apply endswith_app.
Qed.

(** X20. No locator is both requested and given to the File Processor in a
    traversal: the locators requested do not end in [.csv], those given to
    the File Processor end in [-sl.csv]. *)
Theorem requested_and_processed_disjoint (web : string -> option string)
  (fuel : nat) (htmlContent htmlUrl : string) (linkDepth : nat)
  (stateOutputDir : string) (currTimestamp : Dt.datetime) (recurse : bool)
  (w : World) :
  exists requested processed,
    fetched (fst (processContent web fuel htmlContent htmlUrl linkDepth
                    stateOutputDir currTimestamp recurse w))
    = (fetched w ++ requested)%list
    /\ calls (fst (processContent web fuel htmlContent htmlUrl linkDepth
                     stateOutputDir currTimestamp recurse w))
       = (calls w ++ processed)%list
    /\ forall u c, In u requested -> In c processed -> u <> fst c.
Proof.
  destruct (processContent_fetches_no_csv web fuel htmlContent htmlUrl
              linkDepth stateOutputDir currTimestamp recurse w)
    as [requested [Ef Hf]].
  destruct (processContent_starts_well web fuel htmlContent htmlUrl
              linkDepth stateOutputDir currTimestamp recurse w)
    as [_ [processed [Ec Hc]]].
  exists requested, processed. split; [exact Ef|]. split; [exact Ec|].
  intros u c Hu Hcin E.
  rewrite Forall_forall in Hf, Hc.
  specialize (Hf u Hu). destruct (Hc c Hcin) as [Hsl _].
  rewrite <- E in Hsl. apply endswith_sl_csv in Hsl. congruence.
Qed.

Lemma removeLastToken_total_witness :
  (exists a tail,
     "http://example.org/states/index.html" = a ++ String "/" tail
     /\ a <> "" /\ contains "/" tail = false
     /\ removeLastToken "http://example.org/states/index.html"
        = Ok (a ++ "/"))
  /\ removeLastToken "/index.html" = Raise SystemExit.
Proof.
  split.
  - apply (proj1 (removeLastToken_total "http://example.org/states/index.html")).
    reflexivity.
  - apply (proj2 (removeLastToken_total "/index.html")). reflexivity.
Defined.

(** * The output directory and the child locator *)

(** ** The last token of a locator *)

Lemma app_inv_tail_str (a b c : string) : a ++ c = b ++ c -> a = b.
Proof.
  revert b. induction a as [|d a IH]; intros [|e b] H.
  - reflexivity.
  - exfalso. apply (f_equal String.length) in H.
    simpl in H. rewrite length_app_str in H. lia.
  - exfalso. apply (f_equal String.length) in H.
    simpl in H. rewrite length_app_str in H. lia.
  - simpl in H. inversion H. subst. f_equal. now apply IH.
Qed.

(** A text is cut at its last separator in one way only. *)
Lemma last_sep_unique (c : ascii) (a1 t1 a2 t2 : string) :
  a1 ++ String c t1 = a2 ++ String c t2 ->
  contains c t1 = false -> contains c t2 = false ->
  a1 = a2 /\ t1 = t2.
Proof.
  revert a2. induction a1 as [|d a1 IH]; intros [|e a2] H H1 H2.
  - simpl in H. inversion H. now split.
  - simpl in H. inversion H. subst.
    rewrite contains_app in H1. simpl in H1.
    rewrite Ascii.eqb_refl, orb_true_r in H1. discriminate.
  - simpl in H. inversion H. subst.
    rewrite contains_app in H2. simpl in H2.
    rewrite Ascii.eqb_refl, orb_true_r in H2. discriminate.
  - simpl in H. inversion H. subst.
    destruct (IH a2 ltac:(assumption) H1 H2) as [-> ->]. now split.
Qed.

Lemma split_app_sep (c : ascii) (x y : string) :
  split c (x ++ String c y) = (split c x ++ split c y)%list.
Proof.
  induction x as [|d x IH].
  - cbn [append split]. now rewrite Ascii.eqb_refl.
  - cbn [append split]. rewrite IH. destruct (Ascii.eqb d c); [reflexivity|].
    pose proof (split_not_nil c x) as Hne.
    destruct (split c x) as [|t ts]; [congruence | reflexivity].
Qed.

Lemma last_app_nonempty {A : Type} (l1 l2 : list A) (d : A) :
  l2 <> [] -> last (l1 ++ l2) d = last l2 d.
Proof.
  intros H. induction l1 as [|a l1 IH]; [reflexivity|].
  cbn [app]. destruct (l1 ++ l2)%list eqn:E.
  - destruct l1; [cbn in E; congruence | discriminate].
  - rewrite <- IH. reflexivity.
Qed.

(** Every text is a directory part, empty or ending in a slash, followed by
    a last token without a slash; [split] finds that token. *)
Lemma last_token_decomp (s : string) :
  exists dir tok,
    s = dir ++ tok /\ contains "/" tok = false
    /\ (dir = "" \/ endswith dir "/" = true)
    /\ last (split "/" s) "" = tok.
Proof.
  destruct (contains "/" s) eqn:Hc.
  - destruct (last_occurrence "/" s Hc) as [x [y [Hs Hy]]].
    exists (x ++ "/"), y. split; [|split; [exact Hy|split]].
    + rewrite Hs, app_assoc_str. reflexivity.
    + right. apply endswith_app.
    + rewrite Hs, split_app_sep, last_app_nonempty by apply split_not_nil.
      now rewrite (split_absent "/" y Hy).
  - exists "", s. split; [reflexivity|]. split; [exact Hc|].
    split; [now left|]. now rewrite (split_absent "/" s Hc).
Qed.

(** The token is determined by the text. *)
Lemma last_token_unique (dir1 tok1 dir2 tok2 : string) :
  dir1 ++ tok1 = dir2 ++ tok2 ->
  contains "/" tok1 = false -> contains "/" tok2 = false ->
  dir1 = "" \/ endswith dir1 "/" = true ->
  dir2 = "" \/ endswith dir2 "/" = true ->
  dir1 = dir2 /\ tok1 = tok2.
Proof.
  intros H H1 H2 [-> | E1] [-> | E2].
  - now split.
  - exfalso. destruct (endswith_split _ _ E2) as [x ->].
    simpl in H. subst tok1. rewrite !contains_app in H1. simpl in H1.
    rewrite orb_true_r in H1. discriminate.
  - exfalso. destruct (endswith_split _ _ E1) as [x ->].
    simpl in H. subst tok2. rewrite !contains_app in H2. simpl in H2.
    rewrite orb_true_r in H2. discriminate.
  - destruct (endswith_split _ _ E1) as [x1 ->].
    destruct (endswith_split _ _ E2) as [x2 ->].
    rewrite !app_assoc_str in H.
    destruct (last_sep_unique "/" x1 tok1 x2 tok2 H H1 H2) as [-> ->].
    now split.
Qed.

(** ** The formatted instant, digit by digit *)

Lemma decimal_four_digits (y : N) :
  (1000 <= y <= 9999)%N -> Dt.decimal y = four_digits y.
Proof.
  intros [Hlo Hhi]. apply String.eqb_eq.
  pose proof (forallb_below
                (fun y => (y <? 1000)%N
                          || String.eqb (Dt.decimal y) (four_digits y))
                10000%N ltac:(vm_compute; reflexivity) y ltac:(lia)) as E.
  cbv beta in E. destruct (N.ltb_spec y 1000); [lia | exact E].
Qed.

Lemma pad2_two_digits (n : N) :
  (n < 100)%N -> Dt.pad2 n = two_digits n.
Proof.
  intros Hn. apply String.eqb_eq.
  exact (forallb_below
           (fun n => String.eqb (Dt.pad2 n) (two_digits n))
           100%N ltac:(vm_compute; reflexivity) n Hn).
Qed.

Lemma timestampDirName_digits (t : Dt.datetime) :
  Dt.valid t = true -> (1000 <= Dt.year t)%N ->
  timestampDirName t
  = four_digits (Dt.year t) ++ two_digits (Dt.month t)
    ++ two_digits (Dt.day t) ++ "_" ++ two_digits (Dt.hour t)
    ++ two_digits (Dt.minute t) ++ two_digits (Dt.second t).
Proof.
  intros Hv Hy. destruct (valid_bounds t Hv) as [Hyr [Hmo [Hd [Hh [Hmi Hs]]]]].
  rewrite timestampDirName_fields.
  rewrite decimal_four_digits by lia.
  now rewrite !pad2_two_digits by assumption.
Qed.

(** ** The speed-limit scanner's output directory *)

(** C6. For a link whose href ends in [-sl.csv] and whose merge with the
    parent gives [mergedUrl]: the merged locator is a directory part (empty
    or ending in a slash), the state identifier, and [-sl.csv], the state
    identifier holding no slash; the directory of the link is
    [<outputRoot>/<stateId>/<formattedInstant>/speed_limits]: when it exists
    already the scanner returns, and whenever the scanner returns it has
    started the File Processor once, on the merged locator and that
    directory, which then exists and is the only directory it may have
    created; and for a valid
    run instant with a year of four digits [formattedInstant] is the four
    digits of the year, the two of the month, the two of the day, an
    underscore, and the two digits each of hour, minute and second. *)
Theorem speed_limit_output_dir (linkContent href parentUrl mergedUrl : string)
  (parentLinkDepth : nat) (stateOutputDir : string)
  (currTimestamp : Dt.datetime) (w : World) :
  parseHref linkContent = Ok href ->
  endswith href "-sl.csv" = true ->
  mergeParentAndRelativeUrl parentUrl href = Ok mergedUrl ->
  exists dir stateId,
    mergedUrl = dir ++ stateId ++ "-sl.csv"
    /\ contains "/" stateId = false
    /\ (dir = "" \/ endswith dir "/" = true)
    /\ (let outputDir :=
          stateOutputDir ++ "/" ++ stateId ++ "/"
          ++ timestampDirName currTimestamp ++ "/speed_limits" in
        let run :=
          linkScanner_getMissingStateSpeedLimits linkContent parentUrl
            parentLinkDepth stateOutputDir currTimestamp w in
        (In outputDir (dirs w) -> snd run = Ok tt)
        /\ (snd run = Ok tt ->
            calls (fst run) = (calls w ++ [(mergedUrl, outputDir)])%list
            /\ In outputDir (dirs (fst run))
            /\ (forall d, In d (dirs (fst run)) ->
                          In d (dirs w) \/ d = outputDir)))
    /\ (Dt.valid currTimestamp = true -> (1000 <= Dt.year currTimestamp)%N ->
        timestampDirName currTimestamp
        = four_digits (Dt.year currTimestamp)
          ++ two_digits (Dt.month currTimestamp)
          ++ two_digits (Dt.day currTimestamp) ++ "_"
          ++ two_digits (Dt.hour currTimestamp)
          ++ two_digits (Dt.minute currTimestamp)
          ++ two_digits (Dt.second currTimestamp)).
Proof.
  intros Hhref Hsuf Hmerge.
  destruct (endswith_split _ _ Hsuf) as [body Hbody].
  destruct (mergeParentAndRelativeUrl_app _ _ _ Hmerge) as [base Hbase].
  destruct (last_token_decomp (base ++ body))
    as [dir [stateId [Hsplit [Hnoslash [Hdir Htok]]]]].
  assert (Hmerged : mergedUrl = dir ++ stateId ++ "-sl.csv").
  { rewrite Hbase, Hbody, <- app_assoc_str, Hsplit, app_assoc_str.
    reflexivity. }
  assert (Hlast : last (split "/" mergedUrl) "" = stateId ++ "-sl.csv").
  { rewrite Hbase, Hbody, <- app_assoc_str.
    rewrite (last_split_app "/" (base ++ body) "-sl.csv" eq_refl).
    now rewrite Htok. }
  exists dir, stateId.
  split; [exact Hmerged|]. split; [exact Hnoslash|]. split; [exact Hdir|].
  split; [|apply timestampDirName_digits].
  cbv zeta.
  set (outputDir := stateOutputDir ++ "/" ++ stateId ++ "/"
                    ++ timestampDirName currTimestamp ++ "/speed_limits").
  assert (Hrun : linkScanner_getMissingStateSpeedLimits linkContent parentUrl
                   parentLinkDepth stateOutputDir currTimestamp w
                 = (mkWorld (archive w)
                      (if existsb (String.eqb outputDir) (dirs w) then dirs w
                       else (dirs w ++ [outputDir])%list)
                      (fetched w) (calls w ++ [(mergedUrl, outputDir)])%list,
                    Ok tt)).
  { unfold linkScanner_getMissingStateSpeedLimits, mbind, lift.
    rewrite Hhref, Hsuf. cbn [negb]. rewrite Hmerge.
    rewrite Hlast, slice_to_strip_suffix.
    unfold isdir, makedirs, subprocess_call, mret. cbn [negb].
    fold outputDir.
    destruct (existsb _ (dirs w)); reflexivity. }
  rewrite Hrun. cbn [fst snd calls dirs]. split; [reflexivity|]. intros _.
  split; [reflexivity|].
  destruct (existsb (String.eqb outputDir) (dirs w)) eqn:Hex.
  - split; [|intros d Hd; now left].
    apply existsb_exists in Hex. destruct Hex as [x [Hin Hx]].
    apply String.eqb_eq in Hx. now subst x.
  - split; [apply in_or_app; right; now left|].
    intros d Hd. apply in_app_or in Hd. destruct Hd as [Hd | [Hd | []]];
      [now left | now right].
Qed.

Lemma speed_limit_output_dir_witness :
  let run :=
    linkScanner_getMissingStateSpeedLimits (Scenario.anchor "tx-sl.csv" "TX")
      "http://example.org/states/index.html" 1 "/out" Scenario.observed
      Scenario.fresh in
  snd run = Ok tt
  /\ calls (fst run)
     = [("http://example.org/states/tx-sl.csv",
         "/out/tx/20160720_203436/speed_limits")]
  /\ In "/out/tx/20160720_203436/speed_limits" (dirs (fst run))
  /\ timestampDirName Scenario.observed = "20160720_203436".
Proof.
  cbv zeta.
  destruct (speed_limit_output_dir (Scenario.anchor "tx-sl.csv" "TX")
              "tx-sl.csv" "http://example.org/states/index.html"
              "http://example.org/states/tx-sl.csv" 1 "/out"
              Scenario.observed Scenario.fresh)
    as [dir [stateId [Hm [Hs [Hd [Hrun Hfmt]]]]]];
    [vm_compute; reflexivity | vm_compute; reflexivity
     | vm_compute; reflexivity |].
  assert (Hstate : stateId = "tx").
  { rewrite <- app_assoc_str in Hm.
    change "http://example.org/states/tx-sl.csv"
      with ("http://example.org/states/tx" ++ "-sl.csv") in Hm.
    apply app_inv_tail_str in Hm.
    change "http://example.org/states/tx"
      with ("http://example.org/states/" ++ "tx") in Hm.
    symmetry.
    exact (proj2 (last_token_unique _ _ _ _ Hm eq_refl Hs
                    (or_intror eq_refl) Hd)). }
  assert (Htoken : timestampDirName Scenario.observed = "20160720_203436").
  { rewrite Hfmt; [reflexivity | reflexivity | vm_compute; discriminate]. }
  subst stateId. cbv zeta in Hrun. rewrite Htoken in Hrun.
  assert (Hok : snd (linkScanner_getMissingStateSpeedLimits
                       (Scenario.anchor "tx-sl.csv" "TX")
                       "http://example.org/states/index.html" 1 "/out"
                       Scenario.observed Scenario.fresh) = Ok tt)
    by (vm_compute; reflexivity).
  destruct (proj2 Hrun Hok) as [Hcalls [Hin _]].
  split; [exact Hok|]. split; [exact Hcalls|]. split; [exact Hin|].
  exact Htoken.
Defined.

(** ** Resolving a child locator *)

Lemma dir_tail_end (segs : list string) :
  dir_tail segs = "" \/ exists b, dir_tail segs = b ++ "/".
Proof.
  induction segs as [|s segs [E | [b E]]]; [now left | right | right];
    cbn [dir_tail]; rewrite E.
  - now exists s.
  - exists (s ++ "/" ++ b). now rewrite !app_assoc_str.
Qed.

(** A directory locator is a non-empty text followed by a slash. *)
Lemma directory_ends_in_slash (sch host : string) (segs : list string) :
  sch = "http" \/ sch = "https" ->
  exists a, a <> "" /\ sch ++ "://" ++ host ++ dir_path segs = a ++ "/".
Proof.
  intros Hsch. unfold dir_path.
  destruct (dir_tail_end segs) as [E | [b E]]; rewrite E.
  - exists (sch ++ "://" ++ host). split.
    + destruct Hsch as [-> | ->]; discriminate.
    + now rewrite !app_assoc_str.
  - exists (sch ++ "://" ++ host ++ "/" ++ b). split.
    + destruct Hsch as [-> | ->]; discriminate.
    + now rewrite !app_assoc_str.
Qed.

(** The parent is cut back to the text through its last slash. *)
Lemma trimmed_of_parts (htmlUrl a tail : string) :
  a <> "" -> htmlUrl = (a ++ "/") ++ tail -> contains "/" tail = false ->
  trimmed htmlUrl = Ok (a ++ "/").
Proof.
  intros Ha Hurl Htail. unfold trimmed.
  rewrite app_assoc_str in Hurl. cbn [append] in Hurl.
  destruct (endswith htmlUrl "/") eqn:Hend.
  - destruct (endswith_split _ _ Hend) as [x Hx].
    rewrite Hurl in Hx.
    destruct (last_sep_unique "/" a tail x "" Hx Htail eq_refl) as [_ ->].
    rewrite Hurl. reflexivity.
  - rewrite Hurl. apply removeLastToken_complete; assumption.
Qed.

Lemma childUrl_of_trimmed (htmlUrl link base href : string) :
  trimmed htmlUrl = Ok base -> parseHref link = Ok href ->
  childUrl htmlUrl link
  = rbind (Url.urljoin base (percent_escaped href))
      (fun newUrl => Ok (base, newUrl)).
Proof.
  unfold trimmed, childUrl. intros Htrim Hhref.
  destruct (endswith htmlUrl "/"); cbn [negb].
  - injection Htrim as ->. cbn [rbind]. rewrite Hhref. cbn [rbind].
    now rewrite quote_is_percent_escaped.
  - rewrite Htrim. cbn [rbind]. rewrite Hhref. cbn [rbind].
    now rewrite quote_is_percent_escaped.
Qed.

Lemma childUrl_base (htmlUrl link base newUrl : string) :
  childUrl htmlUrl link = Ok (base, newUrl) ->
  exists tail,
    htmlUrl = base ++ tail /\ endswith base "/" = true
    /\ contains "/" tail = false.
Proof.
  unfold childUrl. destruct (endswith htmlUrl "/") eqn:Hend; cbn [negb].
  - cbn [rbind]. destruct (parseHref link) as [h| |]; cbn [rbind];
      try discriminate.
    destruct (Url.urljoin htmlUrl (Url.quote h)) as [n| |]; cbn [rbind];
      try discriminate.
    intros H. inversion H. subst. exists "".
    now rewrite app_nil_r_str.
  - destruct (removeLastToken htmlUrl) as [b| |] eqn:Hb; cbn [rbind];
      try discriminate.
    destruct (parseHref link) as [h| |]; cbn [rbind]; try discriminate.
    destruct (Url.urljoin b (Url.quote h)) as [n| |]; cbn [rbind];
      try discriminate.
    intros H. inversion H. subst.
    exact (removeLastToken_spec _ _ Hb).
Qed.

(** C7. The locator of a child.  The base it is resolved against is the
    parent through its last slash: the parent itself when it ends in one.
    On a directory [http(s)://host/seg1/.../segn/] an href that is one name
    is percent-escaped (every character other than a letter, a digit,
    [-._~] and the slash becomes the [%XX] of its UTF-8 bytes) and appended
    to the base; an href that is a slash and a name is resolved against
    the host, the directory of the base being dropped; an href [../name]
    is resolved against the directory above.  The examples: [tx-sl.csv]
    under [http://example.org/states/] and under
    [http://example.org/states/index.html] gives
    [http://example.org/states/tx-sl.csv]; a space becomes [%20], the
    character 233 (e acute) [%C3%A9], a question mark [%3F], a colon [%3A];
    [./x], [sub/page.html], [a/../b], [../ca/], [../../../z] and
    [/index.html] are resolved as relative references are; and
    [//other.org/p/] names another host. *)
Theorem child_locator_rule :
  (forall htmlUrl link base newUrl,
     childUrl htmlUrl link = Ok (base, newUrl) ->
     exists tail,
       htmlUrl = base ++ tail /\ endswith base "/" = true
       /\ contains "/" tail = false)
  /\ (forall htmlUrl link sch host segs tail name,
        sch = "http" \/ sch = "https" ->
        host <> "" -> all_chars host_char host = true ->
        forallb plain_segment segs = true ->
        htmlUrl = (sch ++ "://" ++ host ++ dir_path segs) ++ tail ->
        contains "/" tail = false ->
        name <> "" -> contains "/" name = false ->
        name <> "." -> name <> ".." ->
        let base := sch ++ "://" ++ host ++ dir_path segs in
        (parseHref link = Ok name ->
         childUrl htmlUrl link = Ok (base, base ++ percent_escaped name))
        /\ (parseHref link = Ok ("/" ++ name) ->
            childUrl htmlUrl link
            = Ok (base, sch ++ "://" ++ host ++ "/" ++ percent_escaped name))
        /\ (parseHref link = Ok ("../" ++ name) ->
            forall above s, segs = (above ++ [s])%list ->
              childUrl htmlUrl link
              = Ok (base, sch ++ "://" ++ host ++ dir_path above
                          ++ percent_escaped name)))
  /\ childUrl "http://example.org/states/" (Scenario.anchor "tx-sl.csv" "TX")
     = Ok ("http://example.org/states/", "http://example.org/states/tx-sl.csv")
  /\ childUrl "http://example.org/states/index.html"
       (Scenario.anchor "tx-sl.csv" "TX")
     = Ok ("http://example.org/states/", "http://example.org/states/tx-sl.csv")
  /\ map (fun href =>
            childUrl "http://example.org/states/tx/index.html"
              (Scenario.anchor href "x"))
       ["a b.csv"; "caf" ++ String (ascii_of_nat 233) ".html"; "?x"; "x:y";
        "a;b#c"; "~u"; "./x"; "sub/page.html"; "a/../b"; "../ca/";
        "../../../z"; "/index.html"; "//other.org/p/"]
     = map (fun newUrl => Ok ("http://example.org/states/tx/", newUrl))
         ["http://example.org/states/tx/a%20b.csv";
          "http://example.org/states/tx/caf%C3%A9.html";
          "http://example.org/states/tx/%3Fx";
          "http://example.org/states/tx/x%3Ay";
          "http://example.org/states/tx/a%3Bb%23c";
          "http://example.org/states/tx/~u";
          "http://example.org/states/tx/x";
          "http://example.org/states/tx/sub/page.html";
          "http://example.org/states/tx/b";
          "http://example.org/states/ca/";
          "http://example.org/z";
          "http://example.org/index.html";
          "http://other.org/p/"].
Proof.
  split; [exact childUrl_base|].
  split; [|vm_compute; repeat split].
  intros htmlUrl link sch host segs tail name Hsch Hhost Hhc Hsegs Hurl Htail
    Hne Hslash Hdot Hdots. cbv zeta.
  assert (Hhne : Url.nonempty host = true).
  { unfold Url.nonempty. apply negb_true_iff. now apply String.eqb_neq. }
  assert (Htrim : trimmed htmlUrl = Ok (sch ++ "://" ++ host ++ dir_path segs)).
  { destruct (directory_ends_in_slash sch host segs Hsch) as [a [Ha E]].
    rewrite E in Hurl |- *. exact (trimmed_of_parts htmlUrl a tail Ha Hurl Htail). }
  assert (Hu : all_chars inert_char (percent_escaped name) = true)
    by exact (percent_escaped_inert name Hslash).
  assert (Hune : Url.nonempty (percent_escaped name) = true).
  { unfold Url.nonempty. apply negb_true_iff, String.eqb_neq.
    intros E. apply Hne. exact (percent_escaped_empty name E). }
  assert (Hud : percent_escaped name <> ".")
    by (intros E; apply Hdot; exact (percent_escaped_dot name E)).
  assert (Hudd : percent_escaped name <> "..")
    by (intros E; apply Hdots; exact (percent_escaped_dots name E)).
  split; [|split].
  - intros Hhref. rewrite (childUrl_of_trimmed _ _ _ _ Htrim Hhref).
    rewrite (urljoin_directory sch host segs _ Hsch Hhne Hhc Hsegs Hune Hu
               Hud Hudd).
    cbn [rbind]. now rewrite !app_assoc_str.
  - intros Hhref. rewrite (childUrl_of_trimmed _ _ _ _ Htrim Hhref).
    change (percent_escaped ("/" ++ name)) with ("/" ++ percent_escaped name).
    rewrite (urljoin_absolute_path sch host segs _ Hsch Hhne Hhc Hsegs Hu
               Hud Hudd).
    reflexivity.
  - intros Hhref above s Habove.
    rewrite (childUrl_of_trimmed _ _ _ _ Htrim Hhref).
    change (percent_escaped ("../" ++ name))
      with ("../" ++ percent_escaped name).
    subst segs.
    rewrite (urljoin_parent_directory sch host above s _ Hsch Hhne Hhc Hsegs
               Hune Hu Hud Hudd).
    reflexivity.
Qed.

Lemma child_locator_rule_witness :
  childUrl "http://example.org/states/index.html"
    (Scenario.anchor "a b-sl.csv" "AB")
  = Ok ("http://example.org/states/", "http://example.org/states/a%20b-sl.csv")
  /\ childUrl "http://example.org/states/index.html"
       (Scenario.anchor "/a b-sl.csv" "AB")
     = Ok ("http://example.org/states/", "http://example.org/a%20b-sl.csv")
  /\ childUrl "http://example.org/states/index.html"
       (Scenario.anchor "../a b-sl.csv" "AB")
     = Ok ("http://example.org/states/", "http://example.org/a%20b-sl.csv").
Proof.
  destruct child_locator_rule as [_ [Hrule _]].
  destruct (Hrule "http://example.org/states/index.html"
              (Scenario.anchor "a b-sl.csv" "AB") "http" "example.org"
              ["states"] "index.html" "a b-sl.csv")
    as [Hname _];
    [now left | discriminate | reflexivity | reflexivity | reflexivity
     | reflexivity | discriminate | reflexivity | discriminate
     | discriminate |].
  destruct (Hrule "http://example.org/states/index.html"
              (Scenario.anchor "/a b-sl.csv" "AB") "http" "example.org"
              ["states"] "index.html" "a b-sl.csv")
    as [_ [Habs _]];
    [now left | discriminate | reflexivity | reflexivity | reflexivity
     | reflexivity | discriminate | reflexivity | discriminate
     | discriminate |].
  destruct (Hrule "http://example.org/states/index.html"
              (Scenario.anchor "../a b-sl.csv" "AB") "http" "example.org"
              ["states"] "index.html" "a b-sl.csv")
    as [_ [_ Hup]];
    [now left | discriminate | reflexivity | reflexivity | reflexivity
     | reflexivity | discriminate | reflexivity | discriminate
     | discriminate |].
  split; [exact (Hname ltac:(vm_compute; reflexivity))|].
  split; [exact (Habs ltac:(vm_compute; reflexivity))|].
  exact (Hup ltac:(vm_compute; reflexivity) [] "states" eq_refl).
Defined.

(** ** Output directories of different runs *)

Lemma app_eq_same_length (a b r s : string) :
  String.length r = String.length s -> a ++ r = b ++ s -> a = b /\ r = s.
Proof.
  intros Hlen E.
  assert (Hab : String.length a = String.length b).
  { apply (f_equal String.length) in E. rewrite !length_app_str in E. lia. }
  clear Hlen. revert b Hab E.
  induction a as [|c a IH]; intros [|d b] Hab E; try discriminate.
  - simpl in E. now split.
  - simpl in Hab, E. inversion E. subst.
    destruct (IH b ltac:(lia) ltac:(assumption)) as [-> ->]. now split.
Qed.

Lemma decimal_read_back (y : N) :
  (y < 10000)%N ->
  Dt.read_digits (String.length (Dt.decimal y)) (Dt.decimal y) 0
  = Some (y, "").
Proof.
  intros Hy.
  pose proof (forallb_below
                (fun y => match Dt.read_digits (String.length (Dt.decimal y))
                                  (Dt.decimal y) 0 with
                          | Some (v, r) => (v =? y)%N && String.eqb r ""
                          | None => false
                          end)
                10000%N ltac:(vm_compute; reflexivity) y Hy) as E.
  cbv beta in E.
  destruct (Dt.read_digits _ (Dt.decimal y) 0) as [[v r]|]; [|discriminate].
  apply andb_true_iff in E. destruct E as [Ev Er].
  apply N.eqb_eq in Ev. apply String.eqb_eq in Er. now subst.
Qed.

Lemma decimal_injective (y1 y2 : N) :
  (y1 < 10000)%N -> (y2 < 10000)%N ->
  Dt.decimal y1 = Dt.decimal y2 -> y1 = y2.
Proof.
  intros H1 H2 E. pose proof (decimal_read_back y1 H1) as R1.
  rewrite E, (decimal_read_back y2 H2) in R1. now inversion R1.
Qed.

Lemma length_pad2 (n : N) : (n < 100)%N -> String.length (Dt.pad2 n) = 2.
Proof. intros H. now rewrite (pad2_two_digits n H). Qed.

(** X9. Two valid instants get the same directory token exactly when they
    agree in year, month, day, hour, minute and second, that is, when they
    fall in the same calendar second: the fraction of a second plays no
    part, and instants of different calendar seconds, however close, get
    different tokens. *)
Theorem timestampDirName_same_second (t1 t2 : Dt.datetime) :
  Dt.valid t1 = true -> Dt.valid t2 = true ->
  timestampDirName t1 = timestampDirName t2
  <-> (Dt.year t1 = Dt.year t2 /\ Dt.month t1 = Dt.month t2
       /\ Dt.day t1 = Dt.day t2 /\ Dt.hour t1 = Dt.hour t2
       /\ Dt.minute t1 = Dt.minute t2 /\ Dt.second t1 = Dt.second t2).
Proof.
  intros Hv1 Hv2.
  rewrite !timestampDirName_fields. split.
  - intros E.
    destruct (valid_bounds t1 Hv1) as [Hyr1 [Hmo1 [Hd1 [Hh1 [Hmi1 Hs1]]]]].
    destruct (valid_bounds t2 Hv2) as [Hyr2 [Hmo2 [Hd2 [Hh2 [Hmi2 Hs2]]]]].
    apply app_eq_same_length in E.
    2:{ rewrite !length_app_str, !length_pad2 by assumption. reflexivity. }
    destruct E as [Ey E1].
    apply decimal_injective in Ey; [|lia|lia].
    destruct (read_same 2 _ _ _ _ _ _
                (read_pad2 (Dt.month t1) _ Hmo1)
                (read_pad2 (Dt.month t2) _ Hmo2) E1) as [Emo E2].
    destruct (read_same 2 _ _ _ _ _ _
                (read_pad2 (Dt.day t1) _ Hd1)
                (read_pad2 (Dt.day t2) _ Hd2) E2) as [Ed E3].
    cbn [append] in E3. injection E3 as E3.
    destruct (read_same 2 _ _ _ _ _ _
                (read_pad2 (Dt.hour t1) _ Hh1)
                (read_pad2 (Dt.hour t2) _ Hh2) E3) as [Eh E4].
    destruct (read_same 2 _ _ _ _ _ _
                (read_pad2 (Dt.minute t1) _ Hmi1)
                (read_pad2 (Dt.minute t2) _ Hmi2) E4) as [Emi E5].
    rewrite <- (app_nil_r_str (Dt.pad2 (Dt.second t1))) in E5.
    rewrite <- (app_nil_r_str (Dt.pad2 (Dt.second t2))) in E5.
    destruct (read_same 2 _ _ _ _ _ _
                (read_pad2 (Dt.second t1) _ Hs1)
                (read_pad2 (Dt.second t2) _ Hs2) E5) as [Es _].
    repeat split; assumption.
  - intros [-> [-> [-> [-> [-> ->]]]]]. reflexivity.
Qed.

Lemma timestampDirName_same_second_witness :
  timestampDirName Scenario.observed = timestampDirName Scenario.recorded
  /\ timestampDirName (Dt.mkdatetime 2016 7 20 20 34 36 900000
                         (Some Dt.pytz_utc))
     <> timestampDirName (Dt.mkdatetime 2016 7 20 20 34 37 100000
                            (Some Dt.pytz_utc)).
Proof.
  split.
  - apply (timestampDirName_same_second Scenario.observed Scenario.recorded);
      [reflexivity | reflexivity | repeat split].
  - intros E.
    apply (timestampDirName_same_second
             (Dt.mkdatetime 2016 7 20 20 34 36 900000 (Some Dt.pytz_utc))
             (Dt.mkdatetime 2016 7 20 20 34 37 100000 (Some Dt.pytz_utc)))
      in E; [|reflexivity|reflexivity].
    destruct E as [_ [_ [_ [_ [_ E]]]]]. discriminate E.
Defined.
